(** * Verification model of the Miro PDF/doc handlers

    A shallow embedding of the serverless handlers of the repository:
    - [src/api/analyze-selected-pdf.js]: PDF fetcher [miroDownloadBinary],
      the first-match [findDocFormatByTitle] and the recreate-and-replace
      handler;
    - [src/unnamed/part_001]: the placeholder-aware [findDocFormatByTitle]
      and the MCP find/replace handler;
    - [src/api/table-to-stickies-mcp.js]: the table-to-stickies handler.

    Conventions of the model.
    - JS strings are Rocq strings; characters are restricted to code units
      0..255, so JS whitespace is the set {9,10,11,12,13,32,160}.
    - JSON values are the inductive [json]; an object is its list of
      fields in [Object.keys] order with distinct keys (as JS objects have);
      integer-like keys are assumed absent, so insertion order is key order.
    - JS numbers used as geometry are modelled as integers [Z].
    - Network calls are oracles (Section variables): the environment
      answers each request; the code's behaviour is a function of them. *)

From Stdlib Require Import String Ascii List ZArith Lia Bool DecimalString.
Import ListNotations.
Open Scope string_scope.
Open Scope list_scope.
Open Scope Z_scope.
Set Warnings "-register-all".

(* ------------------------------------------------------------------ *)
(** ** JS string primitives *)

Module JsString.

(** Whitespace recognised by [String.prototype.trim] and by [\s] on
    code units 0..255: TAB, LF, VT, FF, CR, SPACE, NBSP. *)
Definition is_ws (c : ascii) : bool :=
  let n := nat_of_ascii c in
  (Nat.eqb n 9 || Nat.eqb n 10 || Nat.eqb n 11 || Nat.eqb n 12 ||
   Nat.eqb n 13 || Nat.eqb n 32 || Nat.eqb n 160)%bool.

Fixpoint ltrim (s : string) : string :=
  match s with
  | EmptyString => EmptyString
  | String c r => if is_ws c then ltrim r else s
  end.

Fixpoint rtrim (s : string) : string :=
  match s with
  | EmptyString => EmptyString
  | String c r =>
      let r' := rtrim r in
      if (String.eqb r' EmptyString && is_ws c)%bool then EmptyString
      else String c r'
  end.

(** [s.trim()] *)
Definition trim (s : string) : string := rtrim (ltrim s).

(** [s.startsWith(p)] *)
Definition startsWith (s p : string) : bool := String.prefix p s.

(** [hay.includes(needle)] *)
Fixpoint includes (hay needle : string) : bool :=
  (String.prefix needle hay ||
   match hay with
   | EmptyString => false
   | String _ r => includes r needle
   end)%bool.

(** [s.toLowerCase()] on code units 0..255 (ASCII and Latin-1 letters). *)
Definition lower_char (c : ascii) : ascii :=
  let n := nat_of_ascii c in
  if ((Nat.leb 65 n && Nat.leb n 90) ||
      (Nat.leb 192 n && Nat.leb n 222 && negb (Nat.eqb n 215)))%bool
  then ascii_of_nat (n + 32) else c.

Fixpoint toLowerCase (s : string) : string :=
  match s with
  | EmptyString => EmptyString
  | String c r => String (lower_char c) (toLowerCase r)
  end.

End JsString.

Import JsString.

(* ------------------------------------------------------------------ *)
(** ** JSON values and JS property access *)

Inductive json : Type :=
| JNull
| JBool (b : bool)
| JNum (z : Z)
| JStr (s : string)
| JArr (l : list json)
| JObj (fields : list (string * json)).

Fixpoint assoc (k : string) (fs : list (string * json)) : option json :=
  match fs with
  | [] => None
  | (k', v) :: fs' => if String.eqb k k' then Some v else assoc k fs'
  end.

(** [o[k]]: [None] is [undefined]. Arrays and primitives have none of the
    named properties this code reads. *)
Definition get (k : string) (o : option json) : option json :=
  match o with
  | Some (JObj fs) => assoc k fs
  | _ => None
  end.

(** JS truthiness of a value ([NaN] does not arise from JSON). *)
Definition truthy (v : option json) : bool :=
  match v with
  | None | Some JNull => false
  | Some (JBool b) => b
  | Some (JNum z) => negb (Z.eqb z 0)
  | Some (JStr s) => negb (String.eqb s EmptyString)
  | Some (JArr _) | Some (JObj _) => true
  end.

(** [v && typeof v === "object"] *)
Definition is_object (v : option json) : bool :=
  match v with
  | Some (JArr _) | Some (JObj _) => true
  | _ => false
  end.

(** [typeof v === "string" ? v : ...] *)
Definition as_string (v : option json) : option string :=
  match v with
  | Some (JStr s) => Some s
  | _ => None
  end.

(** The values of [Object.keys(o)] in order (arrays: their elements). *)
Definition key_values (o : json) : list json :=
  match o with
  | JObj fs => map snd fs
  | JArr l => l
  | _ => []
  end.

(** [Array.from(new Set(xs))]: first occurrences, in order. *)
Fixpoint dedup (seen : list string) (xs : list string) : list string :=
  match xs with
  | [] => []
  | x :: xs' =>
      if existsb (String.eqb x) seen then dedup seen xs'
      else x :: dedup (x :: seen) xs'
  end.

(* ------------------------------------------------------------------ *)
(** ** PDF validator and byte fetcher ([analyze-selected-pdf.js]) *)

Module Download.

(** [isPdfMagic(bytes)]; [bytes[i]] out of range is [undefined]. *)
Definition byte_is (bytes : list Z) (i : nat) (v : Z) : bool :=
  match nth_error bytes i with
  | Some b => Z.eqb b v
  | None => false
  end.

Definition isPdfMagic (bytes : list Z) : bool :=
  (Nat.leb 4 (length bytes) &&
   byte_is bytes 0 37 && byte_is bytes 1 80 &&
   byte_is bytes 2 68 && byte_is bytes 3 70)%bool.

(** [extractUrlCandidatesFromJson(obj)] *)
Definition pushIfString (v : option json) : list string :=
  match as_string v with
  | Some s => if String.eqb (trim s) EmptyString then [] else [trim s]
  | None => []
  end.

Definition is_http (s : string) : bool :=
  (startsWith s "http://" || startsWith s "https://")%bool.

Definition generic_urls (v : json) : list string :=
  match v with
  | JStr s => if is_http s then [s] else []
  | JObj fs =>
      flat_map (fun v2 => match v2 with
                          | JStr s2 => if is_http s2 then [s2] else []
                          | _ => []
                          end) (map snd fs)
  | _ => []
  end.

Definition extractUrlCandidatesFromJson (obj : json) : list string :=
  let o := Some obj in
  if negb (is_object o) then [] else
  let top :=
    pushIfString (get "url" o) ++ pushIfString (get "downloadUrl" o) ++
    pushIfString (get "download_url" o) ++ pushIfString (get "documentUrl" o) ++
    pushIfString (get "document_url" o) ++ pushIfString (get "href" o) ++
    pushIfString (get "location" o) in
  let d := get "data" o in
  let data :=
    if (truthy d && is_object d)%bool then
      pushIfString (get "url" d) ++ pushIfString (get "downloadUrl" d) ++
      pushIfString (get "download_url" d) ++ pushIfString (get "documentUrl" d) ++
      pushIfString (get "document_url" d) ++ pushIfString (get "href" d)
    else [] in
  let l := get "links" o in
  let links :=
    if (truthy l && is_object l)%bool then
      pushIfString (get "download" l) ++ pushIfString (get "file" l) ++
      pushIfString (get "self" l)
    else [] in
  let l2 := get "_links" o in
  let links2 :=
    if (truthy l2 && is_object l2)%bool then
      pushIfString (get "download" l2) ++ pushIfString (get "file" l2) ++
      pushIfString (get "self" l2)
    else [] in
  dedup [] (top ++ data ++ links ++ links2 ++ flat_map generic_urls (key_values obj)).

(** The comparator of [candidates.slice().sort(...)]. *)
Definition isMiroApi (u : string) : bool := includes u "api.miro.com".

Definition candidate_cmp (a b : string) : Z :=
  let aIsMiroApi := isMiroApi a in
  let bIsMiroApi := isMiroApi b in
  if Bool.eqb aIsMiroApi bIsMiroApi then 0
  else if aIsMiroApi then 1 else -1.

(** [Array.prototype.sort] is stable (ES2019); with a consistent
    comparator every stable sort yields the same list. Modelled by a
    stable insertion sort. *)
Fixpoint insert_by (cmp : string -> string -> Z) (x : string) (l : list string) :=
  match l with
  | [] => [x]
  | y :: l' => if Z.ltb 0 (cmp x y) then y :: insert_by cmp x l' else x :: l
  end.

Fixpoint sort_by (cmp : string -> string -> Z) (l : list string) : list string :=
  match l with
  | [] => []
  | x :: l' => insert_by cmp x (sort_by cmp l')
  end.

Definition sortCandidates (cands : list string) : list string :=
  sort_by candidate_cmp cands.

(** A fetch response: [res.ok], [res.status], the raw content-type
    header ([None] when absent) and the body bytes. *)
Record response := mkResponse {
  r_ok : bool;
  r_status : Z;
  r_ctype : option string;
  r_body : list Z
}.

(** [fetch(...)] either rejects (network error) or yields a response. *)
Inductive fetch_result := FetchRejects | FetchResp (r : response).

(** [getHeaderLower(res, "content-type")] *)
Definition ctype_lower (r : response) : string :=
  match r_ctype r with
  | Some v => toLowerCase v
  | None => EmptyString
  end.

Inductive dl_error :=
| NetworkError
| Step1Failed (status : Z)
| Step1PdfWithoutMagic (headHex : list Z)
| NoCandidates (ct : string)
| Step2Failed (withAuth : bool) (status : Z)
| Step2NotPdf (withAuth : bool) (ct : string)
| CouldNotResolveFromJson (lastErr : option dl_error)
| NoPdf (ct : string).

Inductive result (E A : Type) := Ok (a : A) | Err (e : E).
Arguments Ok {E A} a.
Arguments Err {E A} e.

(** A fetch issued by the code: URL and whether the bearer header is set. *)
Definition fetch_call := (string * bool)%type.

Section Fetcher.

(** [fetchWithOptionalAuth(url, token, withAuth)]: the token is the same
    for every call, so the environment is a function of URL and flag. *)
Variable fetch : string -> bool -> fetch_result.
(** [res.json()]: [None] when the body is not JSON. *)
Variable json_parse : list Z -> option json.

(** One [try { ... }] block of the candidate loop; [Err e] is the value
    assigned to [lastErr] (thrown or set). *)
Definition attempt (u : string) (withAuth : bool) : result dl_error (list Z) :=
  match fetch u withAuth with
  | FetchRejects => Err NetworkError
  | FetchResp r =>
      if negb (r_ok r) then Err (Step2Failed withAuth (r_status r))
      else
        let ct := ctype_lower r in
        let bytes := r_body r in
        if (includes ct "application/pdf" || isPdfMagic bytes)%bool
        then Ok bytes
        else Err (Step2NotPdf withAuth ct)
  end.

(** [for (const u of sorted) { try auth; try noauth }], with the trace
    of fetches it issues. *)
Fixpoint tryCandidates (us : list string) (lastErr : option dl_error)
  : result dl_error (list Z) * list fetch_call :=
  match us with
  | [] => (Err (CouldNotResolveFromJson lastErr), [])
  | u :: rest =>
      match attempt u true with
      | Ok b => (Ok b, [(u, true)])
      | Err _ =>
          match attempt u false with
          | Ok b => (Ok b, [(u, true); (u, false)])
          | Err e2 =>
              let (res, tr) := tryCandidates rest (Some e2) in
              (res, (u, true) :: (u, false) :: tr)
          end
      end
  end.

Definition miroDownloadBinary (downloadUrl : string)
  : result dl_error (list Z) * list fetch_call :=
  let tr1 := [(downloadUrl, true)] in
  match fetch downloadUrl true with
  | FetchRejects => (Err NetworkError, tr1)
  | FetchResp res1 =>
      if negb (r_ok res1) then (Err (Step1Failed (r_status res1)), tr1)
      else
        let ct1 := ctype_lower res1 in
        if includes ct1 "application/pdf" then
          let bytes := r_body res1 in
          if negb (isPdfMagic bytes) then (Err (Step1PdfWithoutMagic (firstn 16 bytes)), tr1)
          else (Ok bytes, tr1)
        else if includes ct1 "application/json" then
          let meta := match json_parse (r_body res1) with
                      | Some j => j
                      | None => JNull
                      end in
          let candidates := extractUrlCandidatesFromJson meta in
          match candidates with
          | [] => (Err (NoCandidates ct1), tr1)
          | _ =>
              let sorted := sortCandidates candidates in
              let (res, tr) := tryCandidates sorted None in
              (res, tr1 ++ tr)
          end
        else
          let bytes1 := r_body res1 in
          if isPdfMagic bytes1 then (Ok bytes1, tr1) else (Err (NoPdf ct1), tr1)
  end.

End Fetcher.

End Download.

Import Download.


(* ------------------------------------------------------------------ *)
(** ** Regex-based string helpers of the locator ([part_001]) *)

Module Text.

Definition LF : ascii := ascii_of_nat 10.
Definition CR : ascii := ascii_of_nat 13.
Definition NBSP : ascii := ascii_of_nat 160.

Definition is_line_term (c : ascii) : bool := (Ascii.eqb c LF || Ascii.eqb c CR)%bool.

(** [s.replace(/<[^>]*>/g, "")]: a [<] that has a later [>] starts a tag
    that ends at the first [>]; a [<] without a later [>] is kept (and then
    no later [<] has one either). [pending] holds the text since an open
    [<]. *)
Fixpoint strip_tags_aux (pending : option string) (s : string) : string :=
  match s with
  | EmptyString =>
      match pending with None => EmptyString | Some buf => buf end
  | String c r =>
      match pending with
      | None =>
          if Ascii.eqb c "<"%char then strip_tags_aux (Some (String c EmptyString)) r
          else String c (strip_tags_aux None r)
      | Some buf =>
          if Ascii.eqb c ">"%char then strip_tags_aux None r
          else strip_tags_aux (Some (append buf (String c EmptyString))) r
      end
  end.

Definition stripHtmlTags (s : string) : string := strip_tags_aux None s.

(** [s.replaceAll(NBSP, " ")] *)
Fixpoint nbsp_to_space (s : string) : string :=
  match s with
  | EmptyString => EmptyString
  | String c r => String (if Ascii.eqb c NBSP then " "%char else c) (nbsp_to_space r)
  end.

(** [s.split(/\r?\n/)] *)
Fixpoint split_lines (s : string) : list string :=
  match s with
  | EmptyString => [EmptyString]
  | String c r =>
      if Ascii.eqb c LF then EmptyString :: split_lines r
      else
        let rest := split_lines r in
        let crlf := match r with
                    | String c' _ => (Ascii.eqb c CR && Ascii.eqb c' LF)%bool
                    | EmptyString => false
                    end in
        if crlf then rest
        else match rest with
             | p :: ps => String c p :: ps
             | [] => [String c EmptyString]
             end
  end.

Definition nonempty (s : string) : bool := negb (String.eqb s EmptyString).

Fixpoint span_hash (s : string) : nat * string :=
  match s with
  | String c r =>
      if Ascii.eqb c "#"%char then let (k, rest) := span_hash r in (S k, rest)
      else (O, s)
  | EmptyString => (O, s)
  end.

Definition starts_ws (s : string) : bool :=
  match s with String c _ => is_ws c | EmptyString => false end.

(** [s.replace(/^#{1,6}\s+/, "")]; fewer [#] than the run leaves a [#]
    where [\s] is needed, so only the whole run can match. *)
Definition strip_heading_marker (s : string) : string :=
  let (k, rest) := span_hash s in
  if (Nat.leb 1 k && Nat.leb k 6 && starts_ws rest)%bool then ltrim rest else s.

Fixpoint has_line_term (s : string) : bool :=
  match s with
  | EmptyString => false
  | String c r => (is_line_term c || has_line_term r)%bool
  end.

(** [l.match(/^#{1,6}\s+(DOTSTAR)$/)] and its group 1 (DOTSTAR is the greedy
    any-character group; [.] stops at CR/LF). *)
Definition md_heading_match (l : string) : option string :=
  let (k, rest) := span_hash l in
  if (Nat.leb 1 k && Nat.leb k 6 && starts_ws rest)%bool then
    let cap := ltrim rest in
    if has_line_term cap then None else Some cap
  else None.

Definition is_h (c : ascii) : bool := (Ascii.eqb c "h"%char || Ascii.eqb c "H"%char)%bool.

(** ["</h1>"] case-insensitively at the start of [s]. *)
Definition close_h1_here (s : string) : bool :=
  match s with
  | String a (String b (String h (String one (String g _)))) =>
      (Ascii.eqb a "<"%char && Ascii.eqb b "/"%char && is_h h &&
       Ascii.eqb one "1"%char && Ascii.eqb g ">"%char)%bool
  | _ => false
  end.

(** The lazy any-character group followed by [<\/h1>]. *)
Fixpoint lazy_until_close (s acc : string) : option string :=
  if close_h1_here s then Some acc else
  match s with
  | EmptyString => None
  | String c r =>
      if is_line_term c then None
      else lazy_until_close r (append acc (String c EmptyString))
  end.

Fixpoint after_gt (s : string) : option string :=
  match s with
  | EmptyString => None
  | String c r => if Ascii.eqb c ">"%char then Some r else after_gt r
  end.

(** A match of [/<h1[^>]*>(LAZY)<\/h1>/i] starting at the head of [s]
    (LAZY is the lazy any-character group). *)
Definition h1_here (s : string) : option string :=
  match s with
  | String a (String h (String one r)) =>
      if (Ascii.eqb a "<"%char && is_h h && Ascii.eqb one "1"%char)%bool then
        match after_gt r with
        | Some rest => lazy_until_close rest EmptyString
        | None => None
        end
      else None
  | _ => None
  end.

(** The leftmost match of the [h1] pattern, as its group 1. *)
Fixpoint h1_match (s : string) : option string :=
  match h1_here s with
  | Some cap => Some cap
  | None =>
      match s with
      | EmptyString => None
      | String _ r => h1_match r
      end
  end.

End Text.

Import Text.

(* ------------------------------------------------------------------ *)
(** ** Document-item locator *)

Module Locator.

(** [extractItemTitle(item)] *)
Definition title_candidate (v : option json) : option string :=
  match as_string v with
  | Some c => if nonempty (trim c) then Some (trim c) else None
  | None => None
  end.

Definition extractItemTitle (item : json) : string :=
  let o := Some item in
  if negb (is_object o) then EmptyString else
  let d := get "data" o in
  let dsel (k : string) := if truthy d then get k d else d in
  match title_candidate (get "title" o) with
  | Some t => t
  | None =>
    match title_candidate (get "name" o) with
    | Some t => t
    | None =>
      match title_candidate (dsel "title") with
      | Some t => t
      | None =>
        match title_candidate (dsel "name") with
        | Some t => t
        | None => EmptyString
        end
      end
    end
  end.

(** [extractNextCursor(listResponse)] *)
Definition nonempty_string (v : option json) : option string :=
  match as_string v with
  | Some s => if nonempty s then Some s else None
  | None => None
  end.

Definition extractNextCursor (page : json) : option string :=
  let o := Some page in
  if negb (is_object o) then None else
  match nonempty_string (get "cursor" o) with
  | Some c => Some c
  | None =>
    let inner :=
      if (truthy (get "cursor" o) && is_object (get "cursor" o))%bool then
        match nonempty_string (get "next" (get "cursor" o)) with
        | Some c => Some c
        | None => nonempty_string (get "cursor" (get "cursor" o))
        end
      else None in
    match inner with
    | Some c => Some c
    | None =>
      match nonempty_string (get "nextCursor" o) with
      | Some c => Some c
      | None => nonempty_string (get "next_page_token" o)
      end
    end
  end.

(** [page && Array.isArray(page.data) ? page.data : []] *)
Definition page_items (page : json) : list json :=
  match get "data" (Some page) with
  | Some (JArr l) => l
  | _ => []
  end.

(** [String(it.type || "") === "doc_format"] for string-typed [type]. *)
Definition is_doc_format (it : json) : bool :=
  match get "type" (Some it) with
  | Some (JStr t) => String.eqb t "doc_format"
  | _ => false
  end.

(** [extractDocContent(docObj)]: the untrimmed content, or [""]. *)
Definition extractDocContent (docObj : json) : string :=
  let o := Some docObj in
  if negb (is_object o) then EmptyString else
  let data := if (truthy (get "data" o) && is_object (get "data" o))%bool
              then get "data" o else Some (JObj []) in
  match as_string (get "content" data) with
  | Some c => if nonempty (trim c) then c else
      match as_string (get "content" o) with
      | Some c' => if nonempty (trim c') then c' else EmptyString
      | None => EmptyString
      end
  | None =>
      match as_string (get "content" o) with
      | Some c' => if nonempty (trim c') then c' else EmptyString
      | None => EmptyString
      end
  end.

Definition clean (s : string) : string := trim (nbsp_to_space (stripHtmlTags s)).

(** [isEffectivelyEmptyDoc(detailsObj)] for the title [wanted]. *)
Definition isEffectivelyEmptyDoc (wanted : string) (detailsObj : json) : bool :=
  let content := extractDocContent detailsObj in
  if String.eqb content EmptyString then false else
  let stripped := clean content in
  if String.eqb stripped EmptyString then true else
  if String.eqb stripped wanted then true else
  let lines := filter nonempty (map clean (split_lines content)) in
  match lines with
  | [l] => String.eqb (trim (strip_heading_marker l)) wanted
  | _ => false
  end.

(** The body of the [for (const line of lines)] of
    [extractDocFormatTitleFromContent]. *)
Fixpoint title_from_lines (lines : list string) : string :=
  match lines with
  | [] => EmptyString
  | line :: rest =>
      let l := trim line in
      if String.eqb l EmptyString then title_from_lines rest else
      match md_heading_match l with
      | Some cap => if nonempty (trim cap) then trim cap else
          match h1_match l with
          | Some c => if (nonempty c && nonempty (trim (stripHtmlTags c)))%bool
                      then trim (stripHtmlTags c) else trim (stripHtmlTags l)
          | None => trim (stripHtmlTags l)
          end
      | None =>
          match h1_match l with
          | Some c => if (nonempty c && nonempty (trim (stripHtmlTags c)))%bool
                      then trim (stripHtmlTags c) else trim (stripHtmlTags l)
          | None => trim (stripHtmlTags l)
          end
      end
  end.

Definition extractDocFormatTitleFromContent (docObj : json) : string :=
  if negb (is_object (Some docObj)) then EmptyString else
  let t := extractItemTitle docObj in
  if nonempty t then t else
  let content := extractDocContent docObj in
  if String.eqb content EmptyString then EmptyString
  else title_from_lines (split_lines content).

(** [geometryArea(listItem)] *)
Definition num_or_zero (v : option json) : Z :=
  match v with Some (JNum z) => z | _ => 0 end.

Definition geometryArea (listItem : json) : Z :=
  let g := get "geometry" (Some listItem) in
  let g := if (truthy g && is_object g)%bool then g else Some (JObj []) in
  num_or_zero (get "width" g) * num_or_zero (get "height" g).

(** [merged[k] = v]: an existing key keeps its place. *)
Fixpoint set_field (k : string) (v : json) (fs : list (string * json)) :=
  match fs with
  | [] => [(k, v)]
  | (k', v') :: fs' => if String.eqb k k' then (k, v) :: fs' else (k', v') :: set_field k v fs'
  end.

Definition assign (target src : list (string * json)) : list (string * json) :=
  fold_left (fun acc kv => set_field (fst kv) (snd kv) acc) src target.

(** Own enumerable fields; index keys of an array are not modelled. *)
Definition fields_of (v : option json) : list (string * json) :=
  match v with Some (JObj fs) => fs | _ => [] end.

(** [mergeListItemAndDetails(listItem, details)] *)
Definition mergeListItemAndDetails (listItem details : json) : json :=
  let m := assign (assign [] (fields_of (Some details))) (fields_of (Some listItem)) in
  let m := if truthy (get "id" (Some listItem))
           then match get "id" (Some listItem) with
                | Some i => set_field "id" i m
                | None => m
                end
           else m in
  let ld := get "data" (Some listItem) in
  let dd := get "data" (Some details) in
  let data := assign (if (truthy ld && is_object ld)%bool then fields_of ld else [])
                     (if (truthy dd && is_object dd)%bool then fields_of dd else []) in
  match data with
  | [] => JObj m
  | _ => JObj (set_field "data" (JObj data) m)
  end.

Inductive scan_step := Return (m : json) | Continue (best : option json) (bestArea : Z).

Definition cursor_trace := list (option string).

Section Scan.

(** [miroGetJson] of the items listing at a cursor: [None] when it throws. *)
Variable get_page : option string -> option json.
(** [miroGetJson] of [/docs/{id}]: [None] when it throws (the code catches
    that and uses [null]). *)
Variable get_doc : json -> option json.
Variable wanted : string.

Definition fetch_details (id : json) : json :=
  match get_doc id with Some d => d | None => JNull end.

(** The per-item part of the loop: [Some details] when the item passes the
    filters and its (list or derived) title is [wanted]. *)
Definition item_candidate (it : json) : option json :=
  if negb (is_object (Some it)) then None
  else if negb (is_doc_format it) then None
  else if negb (truthy (get "id" (Some it))) then None
  else
    let id := match get "id" (Some it) with Some i => i | None => JNull end in
    let listTitle := extractItemTitle it in
    if String.eqb listTitle wanted then Some (fetch_details id)
    else
      match get_doc id with
      | Some details =>
          if String.eqb (extractDocFormatTitleFromContent details) wanted
          then Some details else None
      | None => None
      end.

Definition is_placeholder (details : json) : bool :=
  (truthy (Some details) && isEffectivelyEmptyDoc wanted details)%bool.

Fixpoint scan_items (items : list json) (best : option json) (bestArea : Z) : scan_step :=
  match items with
  | [] => Continue best bestArea
  | it :: rest =>
      match item_candidate it with
      | None => scan_items rest best bestArea
      | Some details =>
          if is_placeholder details then Return (mergeListItemAndDetails it details)
          else
            let area := geometryArea it in
            let merged := mergeListItemAndDetails it details in
            match best with
            | None => scan_items rest (Some merged) area
            | Some _ =>
                if Z.ltb bestArea area then scan_items rest (Some merged) area
                else scan_items rest best bestArea
            end
      end
  end.

(** The [for (let i = 0; i < 100; i++)] page loop, [n] iterations left;
    returns the result ([Err tt] when a page fetch throws) and the cursors
    of the pages fetched. *)
Fixpoint page_loop (n : nat) (cursor : option string) (best : option json) (bestArea : Z)
  : result unit (option json) * cursor_trace :=
  match n with
  | O => (Ok best, [])
  | S n' =>
      match get_page cursor with
      | None => (Err tt, [cursor])
      | Some page =>
          match scan_items (page_items page) best bestArea with
          | Return m => (Ok (Some m), [cursor])
          | Continue b ba =>
              match extractNextCursor page with
              | None => (Ok b, [cursor])
              | Some c =>
                  let (r, tr) := page_loop n' (Some c) b ba in (r, cursor :: tr)
              end
          end
      end
  end.

End Scan.

(** [findDocFormatByTitle] of [src/unnamed/part_001]. *)
Definition findDocFormatByTitle get_page get_doc (exactTitle : string)
  : result unit (option json) * cursor_trace :=
  let wanted := trim exactTitle in
  if String.eqb wanted EmptyString then (Ok None, [])
  else page_loop get_page get_doc wanted 100 None None (-1).

(** [findDocFormatByTitle] of [src/api/analyze-selected-pdf.js]: the
    first item whose title field is [wanted]. *)
Section FirstMatch.

Variable get_page : option string -> option json.
Variable wanted : string.

Fixpoint first_match (items : list json) : option json :=
  match items with
  | [] => None
  | it :: rest =>
      if negb (is_object (Some it)) then first_match rest
      else if negb (is_doc_format it) then first_match rest
      else if String.eqb (extractItemTitle it) wanted then Some it
      else first_match rest
  end.

Fixpoint page_loop_first (n : nat) (cursor : option string)
  : result unit (option json) * cursor_trace :=
  match n with
  | O => (Ok None, [])
  | S n' =>
      match get_page cursor with
      | None => (Err tt, [cursor])
      | Some page =>
          match first_match (page_items page) with
          | Some it => (Ok (Some it), [cursor])
          | None =>
              match extractNextCursor page with
              | None => (Ok None, [cursor])
              | Some c => let (r, tr) := page_loop_first n' (Some c) in (r, cursor :: tr)
              end
          end
      end
  end.

End FirstMatch.

Definition findDocFormatByTitle_first get_page (exactTitle : string)
  : result unit (option json) * cursor_trace :=
  let wanted := trim exactTitle in
  if String.eqb wanted EmptyString then (Ok None, [])
  else page_loop_first get_page wanted 100 None.

(** The paginator answers [pages] in order from [cursor], the last page
    having no next cursor. *)
Fixpoint pages_chain (get_page : option string -> option json)
         (cursor : option string) (pages : list json) : Prop :=
  match pages with
  | [] => False
  | p :: ps =>
      get_page cursor = Some p /\
      match extractNextCursor p with
      | None => ps = []
      | Some c => pages_chain get_page (Some c) ps
      end
  end.

End Locator.

Import Locator.

(* ------------------------------------------------------------------ *)
(** ** Concrete environments used by the examples below *)

Module Fixtures.

Definition entry_url := "https://api.miro.com/v2/resources/documents/1".
Definition cdn_url := "https://cdn.example/x".

(** The observed backend: JSON metadata first, then a CDN link that
    declares [application/pdf] but serves a JSON error body ["{}"]. *)
Definition fetch_pdf_ct_json_body (u : string) (withAuth : bool) : fetch_result :=
  if String.eqb u entry_url
  then FetchResp (mkResponse true 200 (Some "application/json") [123; 125])
  else if String.eqb u cdn_url
  then FetchResp (mkResponse true 200 (Some "application/pdf") [123; 125])
  else FetchRejects.

Definition parse_url_meta (b : list Z) : option json :=
  Some (JObj [("url", JStr cdn_url)]).

(** A presigned link rejecting the bearer header and serving "%PDF-"
    without it. *)
Definition fetch_presigned (u : string) (withAuth : bool) : fetch_result :=
  if String.eqb u entry_url
  then FetchResp (mkResponse true 200 (Some "application/json; charset=utf-8") [123; 125])
  else if String.eqb u cdn_url
  then (if withAuth then FetchResp (mkResponse false 400 (Some "text/xml") [])
        else FetchResp (mkResponse true 200 (Some "binary/octet-stream") [37; 80; 68; 70; 45]))
  else FetchRejects.

Definition parse_data_documentUrl (b : list Z) : option json :=
  Some (JObj [("data", JObj [("documentUrl", JStr cdn_url)])]).

(** Board fixtures for the locator. *)
Definition lines (ls : list string) : string :=
  match ls with
  | [] => EmptyString
  | l :: rest => fold_left (fun acc x => append acc (String LF x)) rest l
  end.

Definition doc_item (id : string) (title : option string) (w h : Z) : json :=
  JObj ([("id", JStr id); ("type", JStr "doc_format")] ++
        match title with
        | Some t => [("data", JObj [("title", JStr t)])]
        | None => []
        end ++
        [("geometry", JObj [("width", JNum w); ("height", JNum h)])]).

Definition doc_details (content : string) : json :=
  JObj [("data", JObj [("content", JStr content)])].

(** One page, no next cursor. *)
Definition single_page (items : list json) (cursor : option string) : option json :=
  match cursor with
  | None => Some (JObj [("data", JArr items)])
  | Some _ => None
  end.

Definition docs_of (pairs : list (string * json)) (id : json) : option json :=
  match id with
  | JStr s => assoc s pairs
  | _ => None
  end.

(** C2 board: an empty and a populated doc, both titled "Target". *)
Definition item_empty := doc_item "a" (Some "Target") 10 10.
Definition item_full := doc_item "b" (Some "Target") 20 20.
Definition details_empty := doc_details "".
Definition details_full := doc_details (lines ["# Target"; ""; "Filled"]).
Definition board_c2_page := single_page [item_empty; item_full].
Definition board_c2_docs := docs_of [("a", details_empty); ("b", details_full)].

(** C3 board: two populated docs with content-derived title "Target",
    of area 100 and 200. *)
Definition item_100 := doc_item "p" None 10 10.
Definition item_200 := doc_item "q" None 10 20.
Definition details_100 := doc_details (lines ["# Target"; ""; "Body one"]).
Definition details_200 := doc_details (lines ["# Target"; ""; "Body two"]).
Definition board_c3_page := single_page [item_100; item_200].
Definition board_c3_docs := docs_of [("p", details_100); ("q", details_200)].

(** C3 tie board: areas 200, 100 and 200, the two area-200 docs being
    different items; the first of them is the one to return. *)
Definition item_200b := doc_item "r" None 20 10.
Definition details_200b := doc_details (lines ["# Target"; ""; "Body three"]).
Definition board_c3_tie_page := single_page [item_200; item_100; item_200b].
Definition board_c3_tie_docs :=
  docs_of [("p", details_100); ("q", details_200); ("r", details_200b)].

(** C5 metadata: two [api.miro.com] links and two CDN links, the
    extractor meeting an API link first. Every fetch after the first
    answers 403. *)
Definition api_url_a := "https://api.miro.com/v2/boards/b1/docs/1".
Definition api_url_b := "https://api.miro.com/v2/resources/documents/1/download".
Definition cdn_url2 := "https://cdn.example/y".

Definition mixed_meta : json :=
  JObj [("url", JStr api_url_a); ("href", JStr cdn_url2);
        ("data", JObj [("documentUrl", JStr cdn_url)]);
        ("links", JObj [("self", JStr api_url_b)])].

Definition parse_mixed_meta (b : list Z) : option json := Some mixed_meta.

Definition fetch_meta_then_403 (u : string) (withAuth : bool) : fetch_result :=
  if String.eqb u entry_url
  then FetchResp (mkResponse true 200 (Some "application/json") [123; 125])
  else FetchResp (mkResponse false 403 (Some "text/plain") []).

(** C9 paginator: every page has a next cursor and a titled doc. *)
Definition endless_page : json :=
  JObj [("data", JArr [doc_item "t" (Some "Target") 10 10]); ("cursor", JStr "next")].
Definition endless_pages (cursor : option string) : option json := Some endless_page.

(** The C2 board with a real placeholder after a populated duplicate. *)
Definition item_placeholder := doc_item "c" (Some "Target") 5 5.
Definition details_placeholder := doc_details "# Target".
Definition board_ph_page := single_page [item_full; item_placeholder].
Definition board_ph_docs := docs_of [("b", details_full); ("c", details_placeholder)].

(** The C3 board for the first-match locator: both docs carry the title. *)
Definition item_t100 := doc_item "p" (Some "Target") 10 10.
Definition item_t200 := doc_item "q" (Some "Target") 10 20.
Definition board_first_page := single_page [item_t100; item_t200].

(** A paginator that always returns a fresh cursor and no doc item. *)
Definition endless_empty_page : json :=
  JObj [("data", JArr []); ("cursor", JStr "next")].
Definition endless_empty_pages (cursor : option string) : option json := Some endless_empty_page.
Definition no_docs (id : json) : option json := None.

End Fixtures.

(* ------------------------------------------------------------------ *)
(** ** Board effects of the write-back strategies

    Each entry is a call the handler issues, together with what the code
    read back from it where later steps depend on that. *)

Inductive effect :=
| EPostDoc (variant : nat) (payload : json) (createdDocId : option string)
| EPatchParent (itemId : string) (payload : json)
| EDelete (docId : string)
| EPostText (payload : json) (createdTextId : option string)
| EMcpCall (rpcId : Z) (tool : string) (args : json).

(** JS truthiness of a string-or-null variable. *)
Definition str_truthy (v : option string) : bool :=
  match v with Some s => nonempty s | None => false end.

(** [k: v] in an object literal; an [undefined] value is dropped by
    [JSON.stringify]. *)
Definition field_opt (k : string) (v : option json) : list (string * json) :=
  match v with Some x => [(k, x)] | None => [] end.

Definition is_num (v : option json) : bool :=
  match v with Some (JNum _) => true | _ => false end.

(* ------------------------------------------------------------------ *)
(** ** Recreate-and-replace write-back ([src/api/analyze-selected-pdf.js],
    handler, the part after the target doc was found) *)

Module Recreate.

Definition TARGET_DOC_TITLE : string := "Objectives and Key Results Catalog".

(** What [await miroPostJson(...)] gives: a throw (with the message the
    [catch] records) or the parsed body ([JNull] for an empty body). *)
Inductive post_outcome := PostThrows (msg : string) | PostReturns (created : json).

Record variant := mkVariant {
  v_contentType : string;
  v_content : string;
  v_includeTitle : bool;
  v_includeGeometry : bool
}.

Definition withTitleHeading (docMarkdown : string) : string :=
  ("# " ++ TARGET_DOC_TITLE ++ String LF (String LF docMarkdown))%string.

Section Recreate.

(** [String(v)] *)
Variable js_String : json -> string.
Variable toSimpleHtml : string -> string.
(** [miroPostJson(.../docs, payload)] for the [i]-th creation variant. *)
Variable post_doc : nat -> json -> post_outcome.
(** [miroPatchJson(.../items/id, payload)]: [Some msg] when it throws. *)
Variable patch_item : string -> json -> option string.
(** [miroDelete(.../docs/id)]: [Some msg] when it throws. *)
Variable delete_doc : string -> option string.
(** [miroPostJson(.../texts, payload)] *)
Variable post_text : json -> post_outcome.

Definition js_String_opt (v : option json) : string :=
  match v with Some x => js_String x | None => "undefined" end.

Definition targetGeom (targetDoc : json) : option json :=
  let g := get "geometry" (Some targetDoc) in
  if is_object g then g else None.

Definition targetParentId (targetDoc : json) : option string :=
  let parent := get "parent" (Some targetDoc) in
  if truthy parent then
    match get "id" parent with
    | Some (JStr s) => if nonempty s then Some s else None
    | Some (JNum z) => Some (js_String (JNum z))
    | _ => None
    end
  else None.

Definition targetPos (targetDoc outX outY : json) : json :=
  let fallback := JObj [("x", outX); ("y", outY); ("origin", JStr "center")] in
  let p := get "position" (Some targetDoc) in
  match p with
  | Some pv =>
      if (truthy p && is_num (get "x" p) && is_num (get "y" p))%bool then pv else fallback
  | None => fallback
  end.

Definition createPos (targetPos : json) : json :=
  let tp := Some targetPos in
  let origin := match get "origin" tp with
                | Some (JStr o) => if nonempty o then JStr o else JStr "center"
                | _ => JStr "center"
                end in
  JObj (field_opt "x" (get "x" tp) ++ field_opt "y" (get "y" tp) ++ [("origin", origin)]).

Definition createVariants (docMarkdown : string) : list variant :=
  let h := withTitleHeading docMarkdown in
  [ mkVariant "markdown" docMarkdown true true;
    mkVariant "markdown" docMarkdown true false;
    mkVariant "markdown" h false true;
    mkVariant "markdown" h false false;
    mkVariant "html" (toSimpleHtml docMarkdown) true true;
    mkVariant "html" (toSimpleHtml docMarkdown) true false;
    mkVariant "html" (toSimpleHtml h) false true;
    mkVariant "html" (toSimpleHtml h) false false ].

Definition num_field (k : string) (v : option json) : list (string * json) :=
  if is_num v then field_opt k v else [].

Definition variant_payload (createPos : json) (tg : option json) (v : variant) : json :=
  let data := [("contentType", JStr (v_contentType v)); ("content", JStr (v_content v))]
              ++ (if v_includeTitle v then [("title", JStr TARGET_DOC_TITLE)] else []) in
  let geom :=
    if v_includeGeometry v then
      match tg with
      | Some g =>
          match num_field "width" (get "width" (Some g)) ++ num_field "height" (get "height" (Some g)) with
          | [] => []
          | gf => [("geometry", JObj gf)]
          end
      | None => []
      end
    else [] in
  JObj ([("data", JObj data); ("position", createPos)] ++ geom).

(** [created && created.id ? String(created.id) : null] *)
Definition created_id (created : json) : option string :=
  let i := get "id" (Some created) in
  if truthy i then Some (js_String_opt i) else None.

Definition post_yields_id (o : post_outcome) : option string :=
  match o with PostThrows _ => None | PostReturns c => created_id c end.

(** [for (const v of createVariants) { if (createdDocId) break; ... }] *)
Fixpoint create_loop (i : nat) (vs : list variant) (cp : json) (tg : option json)
    (createdDocId : option string) (errs : list string) (tr : list effect)
  : option string * list string * list effect :=
  match vs with
  | [] => (createdDocId, errs, tr)
  | v :: vs' =>
      if str_truthy createdDocId then (createdDocId, errs, tr) else
      let payload := variant_payload cp tg v in
      match post_doc i payload with
      | PostThrows msg =>
          create_loop (S i) vs' cp tg createdDocId (errs ++ [msg])
                      (tr ++ [EPostDoc i payload createdDocId])
      | PostReturns created =>
          let cid := created_id created in
          create_loop (S i) vs' cp tg cid errs (tr ++ [EPostDoc i payload cid])
      end
  end.

Record outcome := mkOutcome {
  o_createdDocId : option string;
  o_createdTextId : option string;
  o_replacedDocId : option string;
  o_docCreateErrors : list string
}.

(** The handler from the creation variants to [res.status(200)]; [board]
    holds the items present before the call, [remove] models a successful
    delete of the placeholder. *)
Definition recreate_and_replace (targetDoc outX outY : json) (docMarkdown answer : string)
    (board : list string) : outcome * list effect * list string :=
  let tg := targetGeom targetDoc in
  let pid := targetParentId targetDoc in
  let cp := createPos (targetPos targetDoc outX outY) in
  let '(cid, errs1, tr1) := create_loop 0 (createVariants docMarkdown) cp tg None [] [] in
  let '(errs2, tr2) :=
    match cid, pid with
    | Some c, Some p =>
        if (nonempty c && nonempty p)%bool then
          let payload := JObj [("parent", JObj [("id", JStr p)])] in
          match patch_item c payload with
          | Some msg => (errs1 ++ [msg], tr1 ++ [EPatchParent c payload])
          | None => (errs1, tr1 ++ [EPatchParent c payload])
          end
        else (errs1, tr1)
    | _, _ => (errs1, tr1)
    end in
  let '(replaced, errs3, tr3, board3) :=
    if str_truthy cid then
      let rid := js_String_opt (get "id" (Some targetDoc)) in
      match delete_doc rid with
      | Some msg => (Some rid, errs2 ++ [msg], tr2 ++ [EDelete rid], board)
      | None => (Some rid, errs2, tr2 ++ [EDelete rid], remove string_dec rid board)
      end
    else (None, errs2, tr2, board) in
  let '(textId, tr4) :=
    if negb (str_truthy cid) then
      let payload := JObj [("data", JObj [("content", JStr answer)]); ("position", cp)] in
      match post_text payload with
      | PostThrows _ => (None, tr3 ++ [EPostText payload None])
      | PostReturns c => let t := created_id c in (t, tr3 ++ [EPostText payload t])
      end
    else (None, tr3) in
  (mkOutcome cid textId replaced errs3, tr4, board3).

End Recreate.

End Recreate.

(* ------------------------------------------------------------------ *)
(** ** Versioned find/replace write-back over MCP ([src/unnamed/part_001],
    handler after [doc_get], and [buildDocUpdateArgs]) *)

Module Versioned.

Definition TARGET_DOC_TITLE : string := "Objectives and Key Results Catalog".

Definition titleLine : string := ("# " ++ TARGET_DOC_TITLE)%string.

(** [isEffectivelyEmptyMarkdown(markdown, wantedTitle)] *)
Definition isEffectivelyEmptyMarkdown (markdown wantedTitle : string) : bool :=
  let md := trim (nbsp_to_space markdown) in
  if negb (nonempty md) then true else
  let title := trim wantedTitle in
  if negb (nonempty title) then false else
  if String.eqb md title then true else
  if String.eqb md ("# " ++ title)%string then true else
  let lines := filter nonempty (map trim (split_lines md)) in
  match lines with
  | [l] => String.eqb (trim (strip_heading_marker l)) title
  | _ => false
  end.

Definition desiredMarkdown (currentMarkdown docMarkdown : string) : string :=
  let t := trim currentMarkdown in
  if (negb (nonempty t) || startsWith t titleLine)%bool
  then (titleLine ++ String LF (String LF docMarkdown))%string
  else docMarkdown.

Record candidate := mkCand { c_find : string; c_replace : string; c_reason : string }.

Definition candidates (currentMarkdown docMarkdown : string) : list candidate :=
  let desired := desiredMarkdown currentMarkdown docMarkdown in
  let isEmptyPlaceholder := isEffectivelyEmptyMarkdown currentMarkdown TARGET_DOC_TITLE in
  (if (nonempty currentMarkdown && negb (String.eqb currentMarkdown desired))%bool
   then [mkCand currentMarkdown desired "replace-entire-doc-exact"] else [])
  ++ (if isEmptyPlaceholder then
        (if (nonempty (trim currentMarkdown)
             && negb (String.eqb (trim currentMarkdown) currentMarkdown))%bool
         then [mkCand (trim currentMarkdown) desired "replace-entire-doc-trim"] else [])
        ++ [mkCand titleLine desired "replace-title-heading-only";
            mkCand TARGET_DOC_TITLE desired "replace-plain-title-only"]
      else []).

(** [Object.keys(inputSchema.properties)]; the keys of an array are its
    indices. *)
Definition schema_props (inputSchema : option json) : list string :=
  let p := get "properties" inputSchema in
  match p with
  | Some (JObj fs) => map fst fs
  | Some (JArr l) => map (fun i => NilZero.string_of_uint (Nat.to_uint i)) (seq 0 (length l))
  | _ => []
  end.

Definition has (props : list string) (k : string) : bool := existsb (String.eqb k) props.

(** The first key of an [if (has(k1)) ... else if (has(k2)) ...] chain. *)
Fixpoint first_key (props : list string) (ks : list string) : option string :=
  match ks with
  | [] => None
  | k :: ks' => if has props k then Some k else first_key props ks'
  end.

Definition put_first (props ks : list string) (v : json) (args : list (string * json)) :=
  match first_key props ks with Some k => set_field k v args | None => args end.

(** [buildDocUpdateArgs(inputSchema, boardId, docId, findText, replaceText,
    replaceAll, version)]; [version] is [None] for [null]/[undefined]. *)
Definition buildDocUpdateArgs (inputSchema : option json) (boardId docId findText replaceText : string)
    (replaceAll : bool) (version : option json) : json :=
  let props := schema_props inputSchema in
  let a := put_first props ["board_id"; "boardId"; "board"] (JStr boardId) [] in
  let a := put_first props ["doc_id"; "docId"; "document_id"; "documentId"; "id"] (JStr docId) a in
  let a := put_first props ["find"; "search"; "find_text"; "findText"; "search_text"; "from"; "match"]
                     (JStr findText) a in
  let a := put_first props ["replace"; "replacement"; "replace_text"; "replaceText"; "to"]
                     (JStr replaceText) a in
  let a := match first_key props ["replace_all"; "replaceAll"; "all_occurrences"; "allOccurrences"] with
           | Some k => set_field k (JBool replaceAll) a
           | None => put_first props ["occurrence"; "occurrences"]
                               (JStr (if replaceAll then "all" else "single")) a
           end in
  let ver := match version with Some JNull | None => None | Some v => Some v end in
  let a := match ver with
           | Some v => put_first props ["version"; "doc_version"; "docVersion"; "revision"] v a
           | None => a
           end in
  let a := match props with
           | [] =>
               let a := set_field "board_id" (JStr boardId) a in
               let a := set_field "doc_id" (JStr docId) a in
               let a := set_field "find" (JStr findText) a in
               let a := set_field "replace" (JStr replaceText) a in
               let a := set_field "replace_all" (JBool replaceAll) a in
               match ver with Some v => set_field "version" v a | None => a end
           | _ => a
           end in
  JObj a.

(** What [await mcpRequestJson(mcp, ...)] gives: a throw (with its
    message) or the JSON-RPC message. *)
Inductive mcp_outcome := McpThrows (msg : string) | McpReturns (resp : json).

Record attempt := mkAttempt { a_ok : bool; a_reason : string; a_error : option string }.

Inductive mcp_response :=
| NoopOk
| UpdatedOk (updateAttempts : list attempt)
| HardError (isEmptyPlaceholder : bool) (updateAttempts : list attempt).

Definition response_status (r : mcp_response) : Z :=
  match r with NoopOk | UpdatedOk _ => 200 | HardError _ _ => 500 end.

Section Versioned.

Variable js_String : json -> string.
(** [JSON.stringify(v)] *)
Variable stringify : json -> string.
(** The MCP server: the answer to the JSON-RPC call with this id and
    [doc_update] arguments. *)
Variable mcp_call : Z -> json -> mcp_outcome.

(** [parseDocUpdateCall(callResp)]: [Err msg] is a throw. *)
Definition parseDocUpdateCall (callResp : json) : result string json :=
  if negb (is_object (Some callResp)) then Err "MCP doc_update: empty response." else
  let e := get "error" (Some callResp) in
  if truthy e then
    let msg := if truthy (get "message" e)
               then match get "message" e with Some m => js_String m | None => "" end
               else match e with Some ev => stringify ev | None => "" end in
    Err ("MCP doc_update error: " ++ msg)%string
  else
    let r := get "result" (Some callResp) in
    Ok (match r with Some rv => if truthy r then rv else JObj [] | None => JObj [] end).

(** The [for] loop over the candidates. *)
Fixpoint update_loop (inputSchema : option json) (boardId docId : string) (version : option json)
    (i : nat) (cs : list candidate) (updated : bool) (atts : list attempt) (tr : list effect)
  : bool * list attempt * list effect :=
  match cs with
  | [] => (updated, atts, tr)
  | c :: cs' =>
      if updated then (updated, atts, tr) else
      if negb (nonempty (c_find c)) then update_loop inputSchema boardId docId version (S i) cs' updated atts tr else
      let args := buildDocUpdateArgs inputSchema boardId docId (c_find c) (c_replace c) true version in
      let rid := 210 + Z.of_nat i in
      let tr' := tr ++ [EMcpCall rid "doc_update" args] in
      let r := match mcp_call rid args with
               | McpThrows msg => Err msg
               | McpReturns resp => parseDocUpdateCall resp
               end in
      match r with
      | Ok _ => update_loop inputSchema boardId docId version (S i) cs' true
                  (atts ++ [mkAttempt true (c_reason c) None]) tr'
      | Err msg => update_loop inputSchema boardId docId version (S i) cs' false
                  (atts ++ [mkAttempt false (c_reason c) (Some msg)]) tr'
      end
  end.

(** The handler from [desiredMarkdown] to its response. *)
Definition versioned_update (inputSchema : option json) (boardId targetDocId currentMarkdown : string)
    (currentVersion : option json) (docMarkdown : string) : mcp_response * list effect :=
  match candidates currentMarkdown docMarkdown with
  | [] => (NoopOk, [])
  | cs =>
      let '(updated, atts, tr) :=
        update_loop inputSchema boardId targetDocId currentVersion 0 cs false [] [] in
      if updated then (UpdatedOk atts, tr)
      else (HardError (isEffectivelyEmptyMarkdown currentMarkdown TARGET_DOC_TITLE) atts, tr)
  end.

(** Whether a [doc_update] call ends in the [catch] of the loop. *)
Definition call_fails (o : mcp_outcome) : bool :=
  match o with
  | McpThrows _ => true
  | McpReturns resp => match parseDocUpdateCall resp with Err _ => true | Ok _ => false end
  end.

End Versioned.

End Versioned.

(* ------------------------------------------------------------------ *)
(** ** Table to stickies ([src/api/table-to-stickies-mcp.js]) *)

Module Stickies.

Inductive stickies_response :=
| Ok200 (columns : list string) (rowCount : nat) (createdCount : nat) (createdIds : list string)
| Error500 (msg : string).

Section Stickies.

Variable js_String : json -> string.
(** [encodeURIComponent(s)]: [None] is a [URIError]. *)
Variable encodeURIComponent : string -> option string.
(** [miroPostJson(url, token, payload)]: [Err msg] is a throw. *)
Variable miroPostJson : string -> json -> result string json.
(** The coordinates [startX + c * stepX] and [startY + r * stepY]: JS
    doubles computed from the table geometry, left abstract. *)
Variable cellX : nat -> json.
Variable cellY : nat -> json.

Definition sticky_url (boardId : string) : result string string :=
  match encodeURIComponent boardId with
  | Some b => Ok ("https://api.miro.com/v2/boards/" ++ b ++ "/sticky_notes")%string
  | None => Err "URI malformed"
  end.

(** [created && created.id ? String(created.id) : null] *)
Definition created_id (created : json) : option string :=
  let i := get "id" (Some created) in
  match i with
  | Some v => if truthy i then Some (js_String v) else None
  | None => None
  end.

(** The body of one [try] block of [createStickyNote]. *)
Definition post_sticky (boardId : string) (payload : json) : result string (option string) :=
  match sticky_url boardId with
  | Err e => Err e
  | Ok url =>
      match miroPostJson url payload with
      | Err e => Err e
      | Ok created => Ok (created_id created)
      end
  end.

(** [createStickyNote(boardId, token, content, x, y)] *)
Definition createStickyNote (boardId content : string) (x y : json) : result string (option string) :=
  let text := let t := trim content in if nonempty t then t else " " in
  let pos := JObj [("x", x); ("y", y); ("origin", JStr "center")] in
  let payloadA := JObj [("data", JObj [("content", JStr text); ("shape", JStr "square")]);
                        ("position", pos)] in
  match post_sticky boardId payloadA with
  | Ok r => Ok r
  | Err _ =>
      let payloadB := JObj [("content", JStr text); ("shape", JStr "square"); ("position", pos)] in
      match post_sticky boardId payloadB with
      | Ok r => Ok r
      | Err _ => Ok None
      end
  end.

(** [for (let c = 0; c < columns.length; c++)] for row [r]; [k] cells are
    left from column [c]. *)
Fixpoint col_loop (boardId : string) (r : nat) (row : list string) (c k : nat) (ids : list string)
  : result string (list string) :=
  match k with
  | O => Ok ids
  | S k' =>
      let text := nth c row "" in
      match createStickyNote boardId text (cellX c) (cellY r) with
      | Err e => Err e
      | Ok stickyId =>
          let ids := match stickyId with
                     | Some s => if nonempty s then ids ++ [s] else ids
                     | None => ids
                     end in
          col_loop boardId r row (S c) k' ids
      end
  end.

(** [for (let r = 0; r < allRows.length; r++)] *)
Fixpoint row_loop (boardId : string) (ncols : nat) (r : nat) (allRows : list (list string))
    (ids : list string) : result string (list string) :=
  match allRows with
  | [] => Ok ids
  | row :: rest =>
      match col_loop boardId r row 0 ncols ids with
      | Err e => Err e
      | Ok ids' => row_loop boardId ncols (S r) rest ids'
      end
  end.

(** The handler after [parseTableListRowsCall]: [columns] are the column
    titles ([headerRow]) and [rows] the normalised rows. *)
Definition table_to_stickies (boardId : string) (columns : list string) (rows : list (list string))
  : stickies_response :=
  if (Nat.eqb (length columns) 0 || Nat.eqb (length rows) 0)%bool
  then Error500 "MCP table_list_rows returned no rows/columns."
  else
    match row_loop boardId (length columns) 0 (columns :: rows) [] with
    | Ok ids => Ok200 columns (length rows) (length ids) ids
    | Err e => Error500 e
    end.

(** The grid cells in loop order: row index, column index, cell text. *)
Definition cells (columns : list string) (rows : list (list string)) : list (nat * nat * string) :=
  flat_map (fun rr => map (fun c => (fst rr, c, nth c (snd rr) "")) (seq 0 (length columns)))
           (combine (seq 0 (S (length rows))) (columns :: rows)).

(** The sticky id a cell contributes, if any. *)
Definition cell_id (boardId : string) (cell : nat * nat * string) : list string :=
  match createStickyNote boardId (snd cell) (cellX (snd (fst cell))) (cellY (fst (fst cell))) with
  | Ok (Some s) => if nonempty s then [s] else []
  | _ => []
  end.

End Stickies.

End Stickies.

(* ------------------------------------------------------------------ *)
(** ** Concrete environments for the write-back handlers *)

Module WriteFixtures.

(** [String(v)] on the values these fixtures use. *)
Definition js_String (v : json) : string :=
  match v with
  | JStr s => s
  | JNum _ => "1"
  | JBool b => if b then "true" else "false"
  | JNull => "null"
  | JArr _ => ""
  | JObj _ => "[object Object]"
  end.

Definition stringify (v : json) : string := "{}".

(** Every doc creation answers HTTP 400; the text post succeeds. *)
Definition post_doc_fail (i : nat) (payload : json) : Recreate.post_outcome :=
  Recreate.PostThrows "Miro POST 400".
Definition patch_ok (id : string) (payload : json) : option string := None.
Definition delete_ok (id : string) : option string := None.
Definition post_text_ok (payload : json) : Recreate.post_outcome :=
  Recreate.PostReturns (JObj [("id", JStr "t1")]).

Definition targetDoc : json :=
  JObj [("id", JStr "p1");
        ("position", JObj [("x", JNum 5); ("y", JNum 7)]);
        ("parent", JObj [("id", JStr "f1")])].

Definition rr_fail :=
  Recreate.recreate_and_replace js_String (fun s => s) post_doc_fail patch_ok delete_ok post_text_ok
    targetDoc (JNum 0) (JNum 0) "Body" "Answer" ["p1"; "other"].

(** An MCP server answering every [doc_update] with a JSON-RPC version
    conflict error. *)
Definition mcp_conflict (rid : Z) (args : json) : Versioned.mcp_outcome :=
  Versioned.McpReturns
    (JObj [("jsonrpc", JStr "2.0"); ("id", JNum rid);
           ("error", JObj [("code", JNum (-32000)); ("message", JStr "version conflict")])]).

(** An MCP server rejecting every [doc_update] except the one whose find
    text is the plain doc title (the last candidate of a placeholder). *)
Definition mcp_title_only (rid : Z) (args : json) : Versioned.mcp_outcome :=
  match get "find" (Some args) with
  | Some (JStr f) =>
      if String.eqb f Versioned.TARGET_DOC_TITLE
      then Versioned.McpReturns (JObj [("jsonrpc", JStr "2.0"); ("id", JNum rid); ("result", JObj [])])
      else mcp_conflict rid args
  | _ => mcp_conflict rid args
  end.

(** Every sticky POST throws. *)
Definition post_all_fail (url : string) (payload : json) : result string json :=
  Err "Miro POST 500".
Definition encode_ok (s : string) : option string := Some s.
Definition cellX (c : nat) : json := JNum (Z.of_nat c).
Definition cellY (r : nat) : json := JNum (Z.of_nat r).

End WriteFixtures.

(* ------------------------------------------------------------------ *)
(** ** Markdown and HTML text helpers ([src/api/analyze-selected-pdf.js]) *)

Module Markup.

(** [s.replaceAll(c, rep)] for a one-character pattern [c]. *)
Fixpoint replace_char (c : ascii) (rep : string) (s : string) : string :=
  match s with
  | EmptyString => EmptyString
  | String c' r =>
      if Ascii.eqb c' c then append rep (replace_char c rep r)
      else String c' (replace_char c rep r)
  end.

(** [s.includes(c)] for a one-character [c]. *)
Fixpoint has_char (c : ascii) (s : string) : bool :=
  match s with
  | EmptyString => false
  | String c' r => (Ascii.eqb c' c || has_char c r)%bool
  end.

(** [escapeHtml(s)]: the three [replaceAll] calls in source order. *)
Definition escapeHtml (s : string) : string :=
  replace_char ">"%char "&gt;" (replace_char "<"%char "&lt;" (replace_char "&"%char "&amp;" s)).

(** The part of a whitespace run after its last LF, when it has one. *)
Fixpoint after_last_lf (w : string) : option string :=
  match w with
  | EmptyString => None
  | String c r =>
      match after_last_lf r with
      | Some t => Some t
      | None => if Ascii.eqb c LF then Some r else None
      end
  end.

(** [s.split(/\n\s*\n/)]. At an LF the greedy [\s*] takes the whole
    whitespace run after it and backs off to its last LF; without an LF in
    the run there is no match there, nor at any later position of the run.
    [cur] is the piece being built, [pend] the run after an LF still to be
    decided. *)
Fixpoint split_paras_aux (cur : string) (pend : option string) (s : string) : list string :=
  match s with
  | EmptyString =>
      match pend with
      | None => [cur]
      | Some w =>
          match after_last_lf w with
          | Some t => [cur; t]
          | None => [append cur (String LF w)]
          end
      end
  | String c r =>
      match pend with
      | None =>
          if Ascii.eqb c LF then split_paras_aux cur (Some EmptyString) r
          else split_paras_aux (append cur (String c EmptyString)) None r
      | Some w =>
          if is_ws c then split_paras_aux cur (Some (append w (String c EmptyString))) r
          else
            match after_last_lf w with
            | Some t => cur :: split_paras_aux (append t (String c EmptyString)) None r
            | None => split_paras_aux (append cur (String LF (append w (String c EmptyString)))) None r
            end
      end
  end.

Definition split_paras (s : string) : list string := split_paras_aux EmptyString None s.

(** [toSimpleHtml(markdownish)] *)
Definition toSimpleHtml (markdownish : string) : string :=
  let esc := escapeHtml markdownish in
  let paragraphs := split_paras esc in
  String.concat EmptyString
    (map (fun p => append "<p>" (append (replace_char LF "<br/>" p) "</p>")) paragraphs).

(** [escapeMdInline(s)]; its only caller passes a string. *)
Definition escapeMdInline (s : string) : string :=
  trim (replace_char "|"%char "\|" (replace_char LF " " s)).

(** The class [a-zA-Z0-9_-]. *)
Definition is_word_char (c : ascii) : bool :=
  let n := nat_of_ascii c in
  ((Nat.leb 97 n && Nat.leb n 122) || (Nat.leb 65 n && Nat.leb n 90) ||
   (Nat.leb 48 n && Nat.leb n 57) || Nat.eqb n 95 || Nat.eqb n 45)%bool.

Fixpoint drop_word (s : string) : string :=
  match s with
  | String c r => if is_word_char c then drop_word r else s
  | EmptyString => EmptyString
  end.

Definition BT : ascii := ascii_of_nat 96.
Definition FENCE : string := String BT (String BT (String BT EmptyString)).

(** The first [replace] of the fence removal: the anchored fence, the
    greedy word run and the greedy whitespace run (after which the optional
    CR and LF match empty). *)
Definition strip_open_fence (t : string) : string :=
  match t with
  | String a (String b (String c r)) =>
      if (Ascii.eqb a BT && Ascii.eqb b BT && Ascii.eqb c BT)%bool
      then ltrim (drop_word r) else t
  | _ => t
  end.

(** The second [replace]: an optional CR, an LF and a fence ending the
    string, removed from the leftmost position where it matches. *)
Fixpoint strip_close_fence_nl (t : string) : string :=
  match t with
  | EmptyString => EmptyString
  | String c r =>
      if (String.eqb t (String CR (String LF FENCE)) || String.eqb t (String LF FENCE))%bool
      then EmptyString else String c (strip_close_fence_nl r)
  end.

(** The third [replace]: a fence ending the string. *)
Fixpoint strip_close_fence (t : string) : string :=
  match t with
  | EmptyString => EmptyString
  | String c r => if String.eqb t FENCE then EmptyString else String c (strip_close_fence r)
  end.

(** [normalizeMarkdown(s)] *)
Definition normalizeMarkdown (s : json) : string :=
  match s with
  | JStr s =>
      let t := trim s in
      if startsWith t FENCE
      then trim (strip_close_fence (strip_close_fence_nl (strip_open_fence t)))
      else t
  | _ => EmptyString
  end.

(** [s.split(sep)] for a one-character separator. *)
Fixpoint split_on (sep : ascii) (s : string) : list string :=
  match s with
  | EmptyString => [EmptyString]
  | String c r =>
      if Ascii.eqb c sep then EmptyString :: split_on sep r
      else match split_on sep r with
           | p :: ps => String c p :: ps
           | [] => [String c EmptyString]
           end
  end.

(** [s.slice(n)] *)
Fixpoint str_drop (n : nat) (s : string) : string :=
  match n, s with
  | O, _ => s
  | S _, EmptyString => EmptyString
  | S n', String _ r => str_drop n' r
  end.

End Markup.

Import Markup.

(* ------------------------------------------------------------------ *)
(** ** Prompt text cleanup ([src/unnamed/part_001]) *)

Module Prompt.

(** [s.replace(/\r\n/g, LF)] *)
Fixpoint crlf_to_lf (s : string) : string :=
  match s with
  | EmptyString => EmptyString
  | String c r =>
      if Ascii.eqb c CR then
        match r with
        | String d r' => if Ascii.eqb d LF then String LF (crlf_to_lf r') else String c (crlf_to_lf r)
        | EmptyString => String c EmptyString
        end
      else String c (crlf_to_lf r)
  end.

(** [while (i < lines.length && !String(lines[i]).trim()) i++] *)
Fixpoint drop_blank (lines : list string) : list string :=
  match lines with
  | [] => []
  | l :: rest => if nonempty (trim l) then lines else drop_blank rest
  end.

(** [removeLeadingTitleIfPresent(text, title)]; both arguments are strings
    at the call site. *)
Definition removeLeadingTitleIfPresent (text title : string) : string :=
  let wanted := trim title in
  if negb (nonempty wanted) then trim text else
  let lines := split_on LF (crlf_to_lf text) in
  match drop_blank lines with
  | [] => EmptyString
  | l :: after =>
      let first := trim l in
      let firstNoHashes := trim (strip_heading_marker first) in
      if (String.eqb first wanted || String.eqb firstNoHashes wanted)%bool
      then trim (String.concat (String LF EmptyString) (drop_blank after))
      else trim (String.concat (String LF EmptyString) lines)
  end.

(** [s.replaceAll(pat, rep)] for a nonempty string pattern: the leftmost
    match is replaced and the scan resumes after it. [fuel] bounds the
    number of steps; [length s] steps always suffice. *)
Fixpoint replace_all_aux (fuel : nat) (pat rep s : string) : string :=
  match fuel with
  | O => s
  | S f =>
      match s with
      | EmptyString => EmptyString
      | String c r =>
          if String.prefix pat s
          then append rep (replace_all_aux f pat rep (str_drop (String.length pat) s))
          else String c (replace_all_aux f pat rep r)
      end
  end.

Definition replace_all (pat rep s : string) : string :=
  replace_all_aux (String.length s) pat rep s.

(** [decodeHtmlEntities(s)] on a string [s]: the eight [replaceAll] calls
    in source order. *)
Definition decodeHtmlEntities (s : string) : string :=
  replace_all "&#x27;" "'"
  (replace_all "&#39;" "'"
  (replace_all "&quot;" (String (ascii_of_nat 34) EmptyString)
  (replace_all "&amp;" "&"
  (replace_all "&gt;" ">"
  (replace_all "&lt;" "<"
  (replace_all "&#160;" " "
  (replace_all "&nbsp;" " " s))))))).

End Prompt.

(* ------------------------------------------------------------------ *)
(** ** The byte fetcher of [src/unnamed/part_000] *)

Module Download0.

Inductive dl0_error :=
| NetworkError0
| Step1Failed0 (status : Z)
| Step1NoMagic0 (headHex : list Z)
| NoCandidates0 (ct : string)
| Step2Failed0 (withAuth : bool) (status : Z)
| Step2NoMagic0 (withAuth : bool) (ct : string) (headHex : list Z)
| Step2NotPdf0 (withAuth : bool) (ct : string) (headHex : list Z)
| CouldNotResolve0 (tried : nat) (lastErr : option dl0_error)
| Step3NoMagic0 (ct : string) (headHex : list Z)
| NoPdf0 (ct : string) (headHex : list Z).

Section Fetcher0.

Variable fetch : string -> bool -> fetch_result.
Variable json_parse : list Z -> option json.

(** One [try { ... }] block of the candidate loop. *)
Definition attempt0 (u : string) (withAuth : bool) : result dl0_error (list Z) :=
  match fetch u withAuth with
  | FetchRejects => Err NetworkError0
  | FetchResp r =>
      if negb (r_ok r) then Err (Step2Failed0 withAuth (r_status r))
      else
        let ct := ctype_lower r in
        let bytes := r_body r in
        if (includes ct "application/pdf" || isPdfMagic bytes)%bool then
          if negb (isPdfMagic bytes) then Err (Step2NoMagic0 withAuth ct (firstn 16 bytes))
          else Ok bytes
        else Err (Step2NotPdf0 withAuth ct (firstn 16 bytes))
  end.

Fixpoint tryCandidates0 (tried : nat) (us : list string) (lastErr : option dl0_error)
  : result dl0_error (list Z) * list fetch_call :=
  match us with
  | [] => (Err (CouldNotResolve0 tried lastErr), [])
  | u :: rest =>
      match attempt0 u true with
      | Ok b => (Ok b, [(u, true)])
      | Err _ =>
          match attempt0 u false with
          | Ok b => (Ok b, [(u, true); (u, false)])
          | Err e2 =>
              let (res, tr) := tryCandidates0 tried rest (Some e2) in
              (res, (u, true) :: (u, false) :: tr)
          end
      end
  end.

(** [miroDownloadBinary(downloadUrl, token)] of [part_000], with the
    fetches it issues. *)
Definition miroDownloadBinary0 (downloadUrl : string)
  : result dl0_error (list Z) * list fetch_call :=
  let tr1 := [(downloadUrl, true)] in
  match fetch downloadUrl true with
  | FetchRejects => (Err NetworkError0, tr1)
  | FetchResp res1 =>
      if negb (r_ok res1) then (Err (Step1Failed0 (r_status res1)), tr1)
      else
        let ct1 := ctype_lower res1 in
        if includes ct1 "application/pdf" then
          let bytes := r_body res1 in
          if negb (isPdfMagic bytes) then (Err (Step1NoMagic0 (firstn 16 bytes)), tr1)
          else (Ok bytes, tr1)
        else if includes ct1 "application/json" then
          let meta := match json_parse (r_body res1) with
                      | Some j => j
                      | None => JNull
                      end in
          let candidates := extractUrlCandidatesFromJson meta in
          match candidates with
          | [] => (Err (NoCandidates0 ct1), tr1)
          | _ =>
              let sorted := sortCandidates candidates in
              let (res, tr) := tryCandidates0 (length sorted) sorted None in
              (res, tr1 ++ tr)
          end
        else
          let bytes1 := r_body res1 in
          if isPdfMagic bytes1 then (Ok bytes1, tr1) else
          let tr := tr1 ++ [(downloadUrl, false)] in
          let fail := Err (NoPdf0 ct1 (firstn 32 bytes1)) in
          match fetch downloadUrl false with
          | FetchRejects => (Err NetworkError0, tr)
          | FetchResp res4 =>
              if r_ok res4 then
                let ct4 := ctype_lower res4 in
                let bytes4 := r_body res4 in
                if (includes ct4 "application/pdf" || isPdfMagic bytes4)%bool then
                  if negb (isPdfMagic bytes4) then (Err (Step3NoMagic0 ct4 (firstn 16 bytes4)), tr)
                  else (Ok bytes4, tr)
                else (fail, tr)
              else (fail, tr)
          end
  end.

End Fetcher0.

End Download0.

(* ------------------------------------------------------------------ *)
(** ** MCP tool argument builders ([buildDocGetArgs] of [part_001],
    [buildTableListArgs] of [table-to-stickies-mcp.js]) *)

Module McpArgs.

Definition buildDocGetArgs (inputSchema : option json) (boardId docId : string) : json :=
  let props := Versioned.schema_props inputSchema in
  let a := Versioned.put_first props ["board_id"; "boardId"; "board"] (JStr boardId) [] in
  let a := Versioned.put_first props ["doc_id"; "docId"; "document_id"; "documentId"; "id"]
                               (JStr docId) a in
  let a := match props with
           | [] => set_field "doc_id" (JStr docId) (set_field "board_id" (JStr boardId) a)
           | _ => a
           end in
  JObj a.

Definition buildTableListArgs (inputSchema : option json) (boardId tableId : string) : json :=
  let props := Versioned.schema_props inputSchema in
  let a := Versioned.put_first props ["board_id"; "boardId"; "board"] (JStr boardId) [] in
  let a := Versioned.put_first props ["table_id"; "tableId"; "table"; "id"] (JStr tableId) a in
  let a := Versioned.put_first props ["limit"; "pageSize"; "page_size"] (JNum 100) a in
  let a := match props with
           | [] => set_field "limit" (JNum 100)
                     (set_field "table_id" (JStr tableId) (set_field "board_id" (JStr boardId) a))
           | _ => a
           end in
  JObj a.

End McpArgs.

(* ------------------------------------------------------------------ *)
(** ** JSON-RPC over server-sent events ([parseSseForJsonRpc]) *)

Module Sse.

(** The payload of a [data:] line, when non-empty. *)
Definition sse_payload (line : string) : option string :=
  let l := trim line in
  if startsWith l "data:" then
    let payload := trim (str_drop 5 l) in
    if nonempty payload then Some payload else None
  else None.

(** [obj.id === desiredId]; a freshly parsed object or array is never the
    caller's value. *)
Definition strict_eq (a : option json) (b : json) : bool :=
  match a, b with
  | Some JNull, JNull => true
  | Some (JBool x), JBool y => Bool.eqb x y
  | Some (JNum x), JNum y => Z.eqb x y
  | Some (JStr x), JStr y => String.eqb x y
  | _, _ => false
  end.

Definition is_desired (desiredId : option json) (obj : json) : bool :=
  match desiredId with
  | Some d => (truthy (Some obj) && strict_eq (get "id" (Some obj)) d)%bool
  | None => false
  end.

Section Sse.

(** [JSON.parse(payload)]: [None] when it throws. *)
Variable json_parse : string -> option json.

Fixpoint sse_loop (desiredId : option json) (lines : list string) (lastJson : json) : json :=
  match lines with
  | [] => lastJson
  | line :: rest =>
      match sse_payload line with
      | None => sse_loop desiredId rest lastJson
      | Some payload =>
          match json_parse payload with
          | None => sse_loop desiredId rest lastJson
          | Some obj =>
              if is_desired desiredId obj then obj else sse_loop desiredId rest obj
          end
      end
  end.

(** [parseSseForJsonRpc(sseText, desiredId)]; [desiredId] is [None] for
    [undefined]. *)
Definition parseSseForJsonRpc (sseText : string) (desiredId : option json) : json :=
  sse_loop desiredId (split_on LF sseText) JNull.

End Sse.

End Sse.

(* ------------------------------------------------------------------ *)
(** ** Table rows from [table_list_rows] ([src/api/table-to-stickies-mcp.js]) *)

Module Table.

Record column := mkColumn { col_id : string; col_title : string }.

(** [o.k1 || o.k2 || ...] up to its last operand: the first truthy one. *)
Fixpoint first_truthy (o : option json) (ks : list string) : option json :=
  match ks with
  | [] => None
  | k :: ks' => if truthy (get k o) then get k o else first_truthy o ks'
  end.

(** [x || []] *)
Definition or_empty_arr (v : option json) : option json :=
  match v with Some x => Some x | None => Some (JArr []) end.

(** The first of the keys whose value is a string. *)
Fixpoint first_string (o : option json) (ks : list string) : option string :=
  match ks with
  | [] => None
  | k :: ks' => match as_string (get k o) with Some s => Some s | None => first_string o ks' end
  end.

(** [o[k]] with [o] possibly an array: its canonical index keys and
    [length]. *)
Definition array_index (k : string) (n : nat) : option nat :=
  find (fun i => String.eqb k (NilZero.string_of_uint (Nat.to_uint i))) (seq 0 n).

Definition prop (k : string) (o : option json) : option json :=
  match o with
  | Some (JArr l) =>
      if String.eqb k "length" then Some (JNum (Z.of_nat (length l)))
      else match array_index k (length l) with Some i => nth_error l i | None => None end
  | _ => get k o
  end.

Section Table.

(** [String(v)] / [v.toString()] on non-string values. *)
Variable js_String : json -> string.
(** [JSON.stringify(v)] *)
Variable stringify : json -> string.
(** [JSON.parse(text)]: [None] when it throws. *)
Variable json_parse : string -> option json.

Definition to_str (v : json) : string :=
  match v with JStr s => s | _ => js_String v end.

(** [cellToText(v)] *)
Definition cellToText (v : option json) : string :=
  match v with
  | None | Some JNull => EmptyString
  | Some (JStr s) => trim s
  | Some (JNum z) => js_String (JNum z)
  | Some (JBool b) => js_String (JBool b)
  | Some x =>
      match first_string v ["text"; "value"; "label"; "name"; "title"; "displayValue"] with
      | Some s => trim s
      | None => stringify x
      end
  end.

(** The body of the [for (const c of cols)] loop of [normalizeColumns]. *)
Definition column_of (c : json) : list column :=
  if negb (truthy (Some c)) then [] else
  match c with
  | JStr s => [mkColumn s s]
  | JObj _ | JArr _ =>
      let id := match first_truthy (Some c) ["id"; "columnId"; "key"; "name"; "title"] with
                | Some v => to_str v
                | None => EmptyString
                end in
      let title := match first_truthy (Some c) ["title"; "name"; "label"] with
                   | Some v => to_str v
                   | None => if nonempty id then id else "Column"
                   end in
      [mkColumn (if nonempty id then id else title) title]
  | _ => []
  end.

Definition normalizeColumns (cols : option json) : list column :=
  match cols with
  | Some (JArr l) => flat_map column_of l
  | _ => []
  end.

Definition cells_of (cells : list json) (n : nat) : list string :=
  map (fun i => cellToText (nth_error cells i)) (seq 0 n).

(** The body of the [for (const r of rowsRaw)] loop of [normalizeRows]:
    cases A to D, and no row for a primitive. *)
Definition row_of (columns : list column) (r : json) : list (list string) :=
  let colIds := map col_id columns in
  match r with
  | JArr cells => [cells_of cells (length columns)]
  | JObj _ =>
      match get "cells" (Some r) with
      | Some (JArr cells) => [cells_of cells (length columns)]
      | _ =>
          let vals := get "values" (Some r) in
          if (truthy vals && is_object vals)%bool
          then [map (fun id => cellToText (prop id vals)) colIds]
          else [map (fun id => cellToText (get id (Some r))) colIds]
      end
  | _ => []
  end.

Definition normalizeRows (rowsRaw : option json) (columns : list column) : list (list string) :=
  match rowsRaw with
  | Some (JArr rs) => flat_map (row_of columns) rs
  | _ => []
  end.

Definition table_of (o : option json) : list column * list (list string) :=
  let columns := normalizeColumns (or_empty_arr (first_truthy o ["columns"; "columnMetadata"; "cols"])) in
  let rows := normalizeRows (or_empty_arr (first_truthy o ["rows"; "data"; "items"])) columns in
  (columns, rows).

Definition is_text_part (c : json) : bool :=
  (truthy (Some c) &&
   match get "type" (Some c) with Some (JStr t) => String.eqb t "text" | _ => false end &&
   match get "text" (Some c) with Some (JStr _) => true | _ => false end)%bool.

(** [parseTableListRowsCall(callResp)]: [Err msg] is a throw. Reading a
    property of a parsed [null] throws inside the [try], which the [catch]
    turns into the empty table. *)
Definition parseTableListRowsCall (callResp : json) : result string (list column * list (list string)) :=
  let o := Some callResp in
  if negb (is_object o) then Ok ([], []) else
  let e := get "error" o in
  if truthy e then
    let msg := if truthy (get "message" e)
               then match get "message" e with Some m => to_str m | None => EmptyString end
               else match e with Some ev => stringify ev | None => EmptyString end in
    Err ("MCP tools/call error: " ++ msg)%string
  else
    let result := if truthy (get "result" o) then get "result" o else Some (JObj []) in
    let structured := if truthy (get "structuredContent" result)
                      then get "structuredContent" result else Some JNull in
    if (truthy structured && is_object structured)%bool then Ok (table_of structured)
    else
      let content := match get "content" result with Some (JArr l) => l | _ => [] end in
      match find is_text_part content with
      | Some c =>
          match as_string (get "text" (Some c)) with
          | Some t =>
              if nonempty t then
                match json_parse t with
                | Some JNull | None => Ok ([], [])
                | Some obj => Ok (table_of (Some obj))
                end
              else Ok ([], [])
          | None => Ok ([], [])
          end
      | None => Ok ([], [])
      end.

End Table.

End Table.

(* ------------------------------------------------------------------ *)
(** ** Auxiliary notions for the properties *)

Definition is_prefix {A : Type} (l1 l2 : list A) : Prop := exists l3, l2 = l1 ++ l3.

Definition both_ways (u : string) : list fetch_call := [(u, true); (u, false)].

(** The kept candidate of the scan: none yet, or the first match of
    largest area among the items seen (every match before it has a
    strictly smaller area). *)
Definition best_inv get_doc wanted (best : option json) (ba : Z) (seen : list json) : Prop :=
  (best = None /\ forall x, In x seen -> item_candidate get_doc wanted x = None)
  \/ exists it d, In it seen /\ item_candidate get_doc wanted it = Some d /\
       best = Some (mergeListItemAndDetails it d) /\ ba = geometryArea it /\
       (forall x dx, In x seen -> item_candidate get_doc wanted x = Some dx ->
                     geometryArea x <= geometryArea it) /\
       exists pre post, seen = pre ++ it :: post /\
         forall x dx, In x pre -> item_candidate get_doc wanted x = Some dx ->
                      geometryArea x < geometryArea it.

Definition no_placeholder get_doc wanted (items : list json) : Prop :=
  forall x dx, In x items -> item_candidate get_doc wanted x = Some dx ->
               is_placeholder wanted dx = false.

(** The characters [<] and [>] of [s] all belong to [<p>], [</p>] or
    [<br/>] tags. *)
Fixpoint only_simple_tags (s : string) : bool :=
  match s with
  | EmptyString => true
  | String "<"%char (String "p"%char (String ">"%char r)) => only_simple_tags r
  | String "<"%char (String "/"%char (String "p"%char (String ">"%char r))) => only_simple_tags r
  | String "<"%char (String "b"%char (String "r"%char (String "/"%char (String ">"%char r)))) =>
      only_simple_tags r
  | String c r => if (Ascii.eqb c "<" || Ascii.eqb c ">")%bool then false else only_simple_tags r
  end.

(** Every [|] of [s] directly follows a backslash ([after_bs]: the
    character before [s] is one). *)
Fixpoint pipes_escaped (after_bs : bool) (s : string) : bool :=
  match s with
  | EmptyString => true
  | String c r =>
      ((negb (Ascii.eqb c "|") || after_bs) && pipes_escaped (Ascii.eqb c "\") r)%bool
  end.

(** [s] matches [[a-zA-Z0-9_-]*]. *)
Fixpoint all_word (s : string) : bool :=
  match s with
  | EmptyString => true
  | String c r => (is_word_char c && all_word r)%bool
  end.

(** The JSON messages of the [data:] lines that parse, in order. *)
Definition sse_messages (json_parse : string -> option json) (lines : list string) : list json :=
  flat_map (fun l => match Sse.sse_payload l with
                     | Some p => match json_parse p with Some o => [o] | None => [] end
                     | None => []
                     end) lines.

(** Whether [s] contains a [<] with a [>] somewhere after it, i.e. a match
    of [/<[^>]*>/]. *)
Fixpoint has_tag (s : string) : bool :=
  match s with
  | EmptyString => false
  | String c r =>
      if Ascii.eqb c "<"%char then (has_char ">"%char r || has_tag r)%bool else has_tag r
  end.

(** A body returned without the magic bytes came from a fetched, successful
    response that declared [application/pdf]. *)
Definition served_as_pdf (fetch : string -> bool -> fetch_result) (u : string) (a : bool) (b : list Z) : Prop :=
  exists r, fetch u a = FetchResp r /\ r_ok r = true /\ r_body r = b /\
            includes (ctype_lower r) "application/pdf" = true.

(* ================================================================== *)
(** * Properties *)


(** ** Sanity checks of the string and fetcher model *)

Example trim_ex : trim "  a b " = "a b".
Proof. reflexivity. Qed.

Example includes_ex : includes "https://api.miro.com/v2/x" "api.miro.com" = true.
Proof. reflexivity. Qed.

Example lower_ex : toLowerCase "Application/PDF" = "application/pdf".
Proof. reflexivity. Qed.

Example magic_ex : isPdfMagic [37; 80; 68; 70; 45] = true /\ isPdfMagic [37; 80; 68] = false.
Proof. split; reflexivity. Qed.

Example extract_ex :
  extractUrlCandidatesFromJson
    (JObj [("data", JObj [("documentUrl", JStr "https://cdn.example/x")])])
  = ["https://cdn.example/x"].
Proof. reflexivity. Qed.

Example sort_ex :
  sortCandidates ["https://api.miro.com/a"; "https://cdn/b"; "https://api.miro.com/c"; "https://s3/d"]
  = ["https://cdn/b"; "https://s3/d"; "https://api.miro.com/a"; "https://api.miro.com/c"].
Proof. reflexivity. Qed.

(** ** Helper lemmas for the fetcher *)


Lemma tryCandidates_trace_prefix fetch us lastErr :
  is_prefix (snd (tryCandidates fetch us lastErr)) (flat_map both_ways us).
Proof.
  revert lastErr; induction us as [|u us IH]; intros lastErr; simpl.
  - exists []; reflexivity.
  - destruct (attempt fetch u true).
    + exists ((u, false) :: flat_map both_ways us); reflexivity.
    + destruct (attempt fetch u false).
      * exists (flat_map both_ways us); reflexivity.
      * specialize (IH (Some e0)).
        destruct (tryCandidates fetch us (Some e0)) as [res tr] eqn:E.
        destruct IH as [l3 H3]; simpl in H3.
        exists l3; simpl; rewrite H3; reflexivity.
Qed.

Lemma insert_by_partition x F M :
  Forall (fun u => isMiroApi u = false) F ->
  Forall (fun u => isMiroApi u = true) M ->
  insert_by candidate_cmp x (F ++ M) =
  if isMiroApi x then F ++ x :: M else x :: F ++ M.
Proof.
  intros HF HM; induction HF as [|y F Hy HF IH]; simpl.
  - destruct M as [|y M]; simpl.
    + destruct (isMiroApi x); reflexivity.
    + inversion HM as [|? ? Hy HM']; subst.
      unfold candidate_cmp; rewrite Hy.
      destruct (isMiroApi x); reflexivity.
  - unfold candidate_cmp at 1; rewrite Hy.
    destruct (isMiroApi x) eqn:Ex; simpl.
    + rewrite IH; reflexivity.
    + reflexivity.
Qed.

Lemma filter_all_false (l : list string) :
  Forall (fun u => isMiroApi u = false) (filter (fun u => negb (isMiroApi u)) l).
Proof.
  apply Forall_forall; intros u Hu; apply filter_In in Hu as [_ Hu].
  destruct (isMiroApi u); [discriminate | reflexivity].
Qed.

Lemma filter_all_true (l : list string) :
  Forall (fun u => isMiroApi u = true) (filter isMiroApi l).
Proof.
  apply Forall_forall; intros u Hu; apply filter_In in Hu as [_ Hu]; exact Hu.
Qed.

Lemma sortCandidates_partition (l : list string) :
  sortCandidates l = filter (fun u => negb (isMiroApi u)) l ++ filter isMiroApi l.
Proof.
  unfold sortCandidates; induction l as [|x l IH]; simpl; [reflexivity|].
  rewrite IH, insert_by_partition by (apply filter_all_false || apply filter_all_true).
  destruct (isMiroApi x); reflexivity.
Qed.

(** ** C8: the PDF validator *)

(** C8: for every byte sequence [b], [isPdfMagic b] is true exactly when
    [b] has at least 4 bytes and its first four are 0x25 0x50 0x44 0x46
    ("%PDF"). *)
Theorem isPdfMagic_spec (b : list Z) :
  isPdfMagic b = true <-> (length b >= 4)%nat /\ firstn 4 b = [37; 80; 68; 70].
Proof.
  unfold isPdfMagic, byte_is.
  destruct b as [|b0 [|b1 [|b2 [|b3 r]]]]; simpl;
    try (split; [discriminate | intros [H _]; lia]).
  rewrite !andb_true_iff, !Z.eqb_eq; split.
  - intros H; repeat match goal with Hc : _ /\ _ |- _ => destruct Hc end.
    subst; split; [lia | reflexivity].
  - intros [_ H]; injection H as -> -> -> ->.
    repeat split; reflexivity.
Qed.

(** ** C1, C4, C5: the byte fetcher *)

(** C1 (code bug): in the JSON-redirect branch a candidate response whose
    content-type contains [application/pdf] is returned without the magic
    check, so [miroDownloadBinary] succeeds with bytes that are not a PDF. *)
Theorem miroDownloadBinary_returns_non_pdf :
  miroDownloadBinary Fixtures.fetch_pdf_ct_json_body Fixtures.parse_url_meta
    Fixtures.entry_url
  = (Ok [123; 125], [(Fixtures.entry_url, true); (Fixtures.cdn_url, true)])
  /\ isPdfMagic [123; 125] = false.
Proof. split; reflexivity. Qed.

Lemma extract_data_documentUrl (u : string) :
  u <> EmptyString -> trim u = u ->
  extractUrlCandidatesFromJson (JObj [("data", JObj [("documentUrl", JStr u)])]) = [u].
Proof.
  intros Hne Ht.
  unfold extractUrlCandidatesFromJson; cbn -[trim is_http].
  unfold pushIfString; cbn -[trim is_http]; rewrite Ht.
  assert (Hu : String.eqb u EmptyString = false) by (apply String.eqb_neq; exact Hne).
  rewrite Hu; cbn -[is_http].
  destruct (is_http u); cbn; [rewrite String.eqb_refl|]; reflexivity.
Qed.

(** C4: when the first response is JSON [{"data":{"documentUrl":u}}] and
    fetching [u] errors with the bearer header but yields PDF bytes
    without it, [miroDownloadBinary] returns those bytes, after fetching
    [u] with and then without the header. *)
Theorem miroDownloadBinary_auth_then_noauth fetch json_parse d r1 u r3 :
  fetch d true = FetchResp r1 ->
  r_ok r1 = true ->
  includes (ctype_lower r1) "application/pdf" = false ->
  includes (ctype_lower r1) "application/json" = true ->
  json_parse (r_body r1) = Some (JObj [("data", JObj [("documentUrl", JStr u)])]) ->
  u <> EmptyString -> trim u = u ->
  (fetch u true = FetchRejects \/
   exists r2, fetch u true = FetchResp r2 /\ r_ok r2 = false) ->
  fetch u false = FetchResp r3 -> r_ok r3 = true -> isPdfMagic (r_body r3) = true ->
  miroDownloadBinary fetch json_parse d
  = (Ok (r_body r3), [(d, true); (u, true); (u, false)]).
Proof.
  intros H1 Hok1 Hpdf Hjson Hparse Hne Ht Hauth H3 Hok3 Hmagic.
  unfold miroDownloadBinary; rewrite H1, Hok1; cbn [negb].
  rewrite Hpdf, Hjson, Hparse, extract_data_documentUrl by assumption.
  cbn [sortCandidates sort_by insert_by tryCandidates].
  assert (Ha : exists e, attempt fetch u true = Err e).
  { unfold attempt; destruct Hauth as [-> | [r2 [-> Hr2]]].
    - eexists; reflexivity.
    - rewrite Hr2; eexists; reflexivity. }
  destruct Ha as [e ->].
  unfold attempt at 1; rewrite H3, Hok3, Hmagic, orb_true_r; reflexivity.
Qed.

(** Witness for C4 on a concrete presigned-link environment. *)
Lemma miroDownloadBinary_auth_then_noauth_witness :
  miroDownloadBinary Fixtures.fetch_presigned Fixtures.parse_data_documentUrl
    Fixtures.entry_url
  = (Ok [37; 80; 68; 70; 45],
     [(Fixtures.entry_url, true); (Fixtures.cdn_url, true); (Fixtures.cdn_url, false)]).
Proof.
  apply (miroDownloadBinary_auth_then_noauth Fixtures.fetch_presigned
           Fixtures.parse_data_documentUrl Fixtures.entry_url
           (mkResponse true 200 (Some "application/json; charset=utf-8") [123; 125])
           Fixtures.cdn_url
           (mkResponse true 200 (Some "binary/octet-stream") [37; 80; 68; 70; 45]));
    try reflexivity; try discriminate.
  right; eexists; split; reflexivity.
Defined.

(** C5: the candidates of a JSON metadata response are tried in the
    order of [sortCandidates], which puts every URL not containing
    [api.miro.com] before every URL containing it and keeps the relative
    order inside each class; the fetches after the first one are a prefix
    of "each candidate of that order, with then without the header". *)
Theorem miroDownloadBinary_candidate_order fetch json_parse d r1 :
  fetch d true = FetchResp r1 ->
  r_ok r1 = true ->
  includes (ctype_lower r1) "application/pdf" = false ->
  includes (ctype_lower r1) "application/json" = true ->
  let cands := extractUrlCandidatesFromJson
                 (match json_parse (r_body r1) with Some j => j | None => JNull end) in
  sortCandidates cands = filter (fun u => negb (isMiroApi u)) cands ++ filter isMiroApi cands
  /\ exists t, snd (miroDownloadBinary fetch json_parse d) = (d, true) :: t
     /\ is_prefix t (flat_map both_ways
                       (filter (fun u => negb (isMiroApi u)) cands ++ filter isMiroApi cands)).
Proof.
  intros H1 Hok1 Hpdf Hjson cands.
  split; [apply sortCandidates_partition|].
  unfold miroDownloadBinary; rewrite H1, Hok1; cbn [negb].
  rewrite Hpdf, Hjson; fold cands.
  destruct cands as [|c cs] eqn:Ec.
  - exists []; split; [reflexivity | exists []; reflexivity].
  - rewrite <- Ec, <- sortCandidates_partition.
    pose proof (tryCandidates_trace_prefix fetch (sortCandidates cands) None) as Hp.
    destruct (tryCandidates fetch (sortCandidates cands) None) as [res tr].
    exists tr; split; [reflexivity | exact Hp].
Qed.

(** Witness for C5: the metadata yields an API link, two CDN links and a
    second API link, in that order; both CDN links are tried first, each
    with then without the header, then both API links in their order. *)
Lemma miroDownloadBinary_candidate_order_witness :
  extractUrlCandidatesFromJson Fixtures.mixed_meta
    = [Fixtures.api_url_a; Fixtures.cdn_url2; Fixtures.cdn_url; Fixtures.api_url_b] /\
  (let cands := extractUrlCandidatesFromJson Fixtures.mixed_meta in
   sortCandidates cands = filter (fun u => negb (isMiroApi u)) cands ++ filter isMiroApi cands
   /\ exists t, snd (miroDownloadBinary Fixtures.fetch_meta_then_403
                       Fixtures.parse_mixed_meta Fixtures.entry_url)
                = (Fixtures.entry_url, true) :: t
      /\ is_prefix t (flat_map both_ways
                        (filter (fun u => negb (isMiroApi u)) cands ++ filter isMiroApi cands))) /\
  snd (miroDownloadBinary Fixtures.fetch_meta_then_403 Fixtures.parse_mixed_meta Fixtures.entry_url)
    = (Fixtures.entry_url, true) ::
      flat_map both_ways [Fixtures.cdn_url2; Fixtures.cdn_url; Fixtures.api_url_a; Fixtures.api_url_b].
Proof.
  split; [vm_compute; reflexivity|].
  split; [|vm_compute; reflexivity].
  exact (miroDownloadBinary_candidate_order Fixtures.fetch_meta_then_403
           Fixtures.parse_mixed_meta Fixtures.entry_url
           (mkResponse true 200 (Some "application/json") [123; 125])
           eq_refl eq_refl eq_refl eq_refl).
Defined.

(** ** Sanity checks of the locator model *)

Example strip_ex : stripHtmlTags "<p>Hi</p> <b" = "Hi <b".
Proof. reflexivity. Qed.

Example split_ex :
  split_lines (append "a" (String CR (String LF (append "b" (String CR (String "c"%char (String LF EmptyString)))))))
  = ["a"; append "b" (String CR "c"); ""].
Proof. reflexivity. Qed.

Example heading_ex :
  strip_heading_marker "## Target" = "Target" /\
  strip_heading_marker "####### Target" = "####### Target".
Proof. split; reflexivity. Qed.

Example derived_title_ex :
  extractDocFormatTitleFromContent (Fixtures.doc_details "<h1>Target</h1><p>x</p>") = "Target" /\
  extractDocFormatTitleFromContent Fixtures.details_100 = "Target".
Proof. split; reflexivity. Qed.

Example placeholder_ex :
  isEffectivelyEmptyDoc "Target" (Fixtures.doc_details "# Target") = true /\
  isEffectivelyEmptyDoc "Target" (Fixtures.doc_details "<p>Target</p>") = true /\
  isEffectivelyEmptyDoc "Target" (Fixtures.doc_details "<p></p>") = true /\
  isEffectivelyEmptyDoc "Target" Fixtures.details_empty = false /\
  isEffectivelyEmptyDoc "Target" Fixtures.details_full = false.
Proof. repeat split; reflexivity. Qed.

Example c3_board_ex :
  findDocFormatByTitle Fixtures.board_c3_page Fixtures.board_c3_docs "Target"
  = (Ok (Some (mergeListItemAndDetails Fixtures.item_200 Fixtures.details_200)), [None]).
Proof. reflexivity. Qed.

(** ** C2, C3, C9: the document-item locator *)

Lemma scan_items_placeholder get_doc wanted pre it post d best ba :
  (forall x dx, In x pre -> item_candidate get_doc wanted x = Some dx ->
                is_placeholder wanted dx = false) ->
  item_candidate get_doc wanted it = Some d -> is_placeholder wanted d = true ->
  scan_items get_doc wanted (pre ++ it :: post) best ba
  = Return (mergeListItemAndDetails it d).
Proof.
  revert best ba; induction pre as [|x pre IH]; intros best ba Hpre Hit Hph; simpl.
  - rewrite Hit, Hph; reflexivity.
  - destruct (item_candidate get_doc wanted x) as [dx|] eqn:Ex.
    + rewrite (Hpre x dx (or_introl eq_refl) Ex).
      destruct best; [destruct (Z.ltb ba (geometryArea x))|];
        apply IH; auto; intros y dy Hy; apply Hpre; right; exact Hy.
    + apply IH; auto; intros y dy Hy; apply Hpre; right; exact Hy.
Qed.

(** C2 (as the code does it): on any page of the scan, whatever match the
    scan has kept so far, the first match whose details are a placeholder
    per [isEffectivelyEmptyDoc] is returned at once, and no further page
    is fetched. *)
Theorem findDocFormatByTitle_placeholder_first get_page get_doc wanted n cursor best ba
        page pre it post d :
  get_page cursor = Some page ->
  page_items page = pre ++ it :: post ->
  (forall x dx, In x pre -> item_candidate get_doc wanted x = Some dx ->
                is_placeholder wanted dx = false) ->
  item_candidate get_doc wanted it = Some d -> is_placeholder wanted d = true ->
  page_loop get_page get_doc wanted (S n) cursor best ba
  = (Ok (Some (mergeListItemAndDetails it d)), [cursor]).
Proof.
  intros Hp Hitems Hpre Hit Hph; simpl; rewrite Hp, Hitems.
  rewrite (scan_items_placeholder get_doc wanted pre it post d best ba Hpre Hit Hph).
  reflexivity.
Qed.

(** Witness for C2: a populated duplicate of larger area comes first, the
    placeholder "# Target" second; the placeholder is returned. *)
Lemma findDocFormatByTitle_placeholder_first_witness :
  findDocFormatByTitle Fixtures.board_ph_page Fixtures.board_ph_docs "Target"
  = (Ok (Some (mergeListItemAndDetails Fixtures.item_placeholder Fixtures.details_placeholder)),
     [None]).
Proof.
  apply (findDocFormatByTitle_placeholder_first Fixtures.board_ph_page Fixtures.board_ph_docs
           "Target" 99 None None (-1)
           (JObj [("data", JArr [Fixtures.item_full; Fixtures.item_placeholder])])
           [Fixtures.item_full] Fixtures.item_placeholder [] Fixtures.details_placeholder);
    try reflexivity.
  intros x dx [<- | []] Hx; vm_compute in Hx; injection Hx as <-; reflexivity.
Defined.

(** C2 counterexample: with two docs titled "Target", one with empty
    content (area 100) and one populated (area 400), the populated one is
    returned: empty content is not a placeholder for [isEffectivelyEmptyDoc]. *)
Theorem findDocFormatByTitle_empty_content_not_preferred :
  findDocFormatByTitle Fixtures.board_c2_page Fixtures.board_c2_docs "Target"
  = (Ok (Some (mergeListItemAndDetails Fixtures.item_full Fixtures.details_full)), [None])
  /\ mergeListItemAndDetails Fixtures.item_full Fixtures.details_full
     <> mergeListItemAndDetails Fixtures.item_empty Fixtures.details_empty.
Proof.
  split; [reflexivity|].
  vm_compute; intros H; discriminate H.
Qed.

Lemma scan_items_best get_doc wanted items best ba seen :
  no_placeholder get_doc wanted items ->
  best_inv get_doc wanted best ba seen ->
  exists b' ba', scan_items get_doc wanted items best ba = Continue b' ba' /\
                 best_inv get_doc wanted b' ba' (seen ++ items).
Proof.
  revert best ba seen; induction items as [|x items IH]; intros best ba seen Hnp Hinv; simpl.
  - exists best, ba; rewrite app_nil_r; split; [reflexivity | exact Hinv].
  - assert (Hnp' : no_placeholder get_doc wanted items)
      by (intros y dy Hy; apply Hnp; right; exact Hy).
    replace (seen ++ x :: items) with ((seen ++ [x]) ++ items)
      by (rewrite <- app_assoc; reflexivity).
    destruct (item_candidate get_doc wanted x) as [dx|] eqn:Ex.
    + rewrite (Hnp x dx (or_introl eq_refl) Ex).
      (* the new candidate is kept *)
      assert (Hnew : (forall y dy, In y seen -> item_candidate get_doc wanted y = Some dy ->
                                   geometryArea y < geometryArea x) ->
                     best_inv get_doc wanted (Some (mergeListItemAndDetails x dx))
                              (geometryArea x) (seen ++ [x])).
      { intros Hlt; right; exists x, dx; repeat split; auto.
        - apply in_or_app; right; left; reflexivity.
        - intros y dy Hy Hyc; apply in_app_or in Hy as [Hy | [<- | []]];
            [specialize (Hlt y dy Hy Hyc); lia | lia].
        - exists seen, []; split; [reflexivity | exact Hlt]. }
      destruct Hinv as [[-> Hnone] | [it [d [Hin [Hc [-> [-> [Hmax [pre [post [Hs Hpre]]]]]]]]]]].
      * apply IH; auto; apply Hnew.
        intros y dy Hy Hyc; rewrite (Hnone y Hy) in Hyc; discriminate.
      * destruct (Z.ltb (geometryArea it) (geometryArea x)) eqn:Elt.
        -- apply Z.ltb_lt in Elt; apply IH; auto; apply Hnew.
           intros y dy Hy Hyc; specialize (Hmax y dy Hy Hyc); lia.
        -- apply Z.ltb_ge in Elt; apply IH; auto.
           right; exists it, d; repeat split; auto.
           ++ apply in_or_app; left; exact Hin.
           ++ intros y dy Hy Hyc; apply in_app_or in Hy as [Hy | [<- | []]]; [eauto |].
              rewrite Ex in Hyc; injection Hyc as <-; lia.
           ++ exists pre, (post ++ [x]); split; [rewrite Hs, <- app_assoc; reflexivity | exact Hpre].
    + apply IH; auto.
      destruct Hinv as [[-> Hnone] | [it [d [Hin [Hc [-> [-> [Hmax [pre [post [Hs Hpre]]]]]]]]]]].
      * left; split; [reflexivity|].
        intros y Hy; apply in_app_or in Hy as [Hy | [<- | []]]; auto.
      * right; exists it, d; repeat split; auto.
        -- apply in_or_app; left; exact Hin.
        -- intros y dy Hy Hyc; apply in_app_or in Hy as [Hy | [<- | []]]; [eauto |].
           rewrite Ex in Hyc; discriminate.
        -- exists pre, (post ++ [x]); split; [rewrite Hs, <- app_assoc; reflexivity | exact Hpre].
Qed.

Lemma page_loop_full_scan get_page get_doc wanted pages :
  forall n cursor best ba seen,
  pages_chain get_page cursor pages -> (length pages <= n)%nat ->
  no_placeholder get_doc wanted (flat_map page_items pages) ->
  best_inv get_doc wanted best ba seen ->
  exists b' ba', fst (page_loop get_page get_doc wanted n cursor best ba) = Ok b' /\
    length (snd (page_loop get_page get_doc wanted n cursor best ba)) = length pages /\
    best_inv get_doc wanted b' ba' (seen ++ flat_map page_items pages).
Proof.
  induction pages as [|p ps IH]; intros n cursor best ba seen Hch Hlen Hnp Hinv;
    [destruct Hch|].
  destruct Hch as [Hp Hnext].
  destruct n as [|n]; [simpl in Hlen; lia|].
  simpl flat_map in *.
  assert (Hnp1 : no_placeholder get_doc wanted (page_items p))
    by (intros y dy Hy; apply Hnp; apply in_or_app; left; exact Hy).
  assert (Hnp2 : no_placeholder get_doc wanted (flat_map page_items ps))
    by (intros y dy Hy; apply Hnp; apply in_or_app; right; exact Hy).
  destruct (scan_items_best get_doc wanted (page_items p) best ba seen Hnp1 Hinv)
    as [b1 [ba1 [Hscan Hinv1]]].
  simpl; rewrite Hp, Hscan.
  destruct (extractNextCursor p) as [c|] eqn:Ec.
  - destruct (IH n (Some c) b1 ba1 (seen ++ page_items p) Hnext ltac:(simpl in Hlen; lia)
                 Hnp2 Hinv1) as [b' [ba' [Hr [Hl Hi]]]].
    destruct (page_loop get_page get_doc wanted n (Some c) b1 ba1) as [r tr].
    exists b', ba'; simpl in *; repeat split; auto.
    rewrite app_assoc; exact Hi.
  - subst ps; exists b1, ba1; simpl; repeat split; auto.
    rewrite app_nil_r; exact Hinv1.
Qed.

(** C3 (placeholder-aware locator of [part_001]): when the paginator
    serves [pages] (at most 100, the last without next cursor) and no
    match is a placeholder, every page is fetched and the result is a
    matched item of largest [geometryArea] (merged with its details); on
    ties it is the first such match: every match fetched before it has a
    strictly smaller area. *)
Theorem findDocFormatByTitle_largest_area get_page get_doc title pages x0 d0 :
  trim title <> EmptyString ->
  pages_chain get_page None pages -> (length pages <= 100)%nat ->
  no_placeholder get_doc (trim title) (flat_map page_items pages) ->
  In x0 (flat_map page_items pages) -> item_candidate get_doc (trim title) x0 = Some d0 ->
  length (snd (findDocFormatByTitle get_page get_doc title)) = length pages /\
  exists it d, In it (flat_map page_items pages) /\
    item_candidate get_doc (trim title) it = Some d /\
    fst (findDocFormatByTitle get_page get_doc title)
      = Ok (Some (mergeListItemAndDetails it d)) /\
    (forall x dx, In x (flat_map page_items pages) ->
      item_candidate get_doc (trim title) x = Some dx -> geometryArea x <= geometryArea it) /\
    exists pre post, flat_map page_items pages = pre ++ it :: post /\
      forall x dx, In x pre ->
        item_candidate get_doc (trim title) x = Some dx -> geometryArea x < geometryArea it.
Proof.
  intros Hne Hch Hlen Hnp Hx0 Hc0.
  unfold findDocFormatByTitle.
  assert (Hw : String.eqb (trim title) EmptyString = false) by (apply String.eqb_neq; exact Hne).
  rewrite Hw.
  assert (Hinv0 : best_inv get_doc (trim title) None (-1) []) by (left; split; [reflexivity | intros x []]).
  destruct (page_loop_full_scan get_page get_doc (trim title) pages 100 None None (-1) []
              Hch Hlen Hnp Hinv0) as [b' [ba' [Hr [Hl Hi]]]].
  split; [exact Hl|].
  simpl app in Hi.
  destruct Hi as [[-> Hnone] | [it [d [Hin [Hc [-> [_ [Hmax Hfirst]]]]]]]].
  - rewrite (Hnone x0 Hx0) in Hc0; discriminate.
  - exists it, d; repeat split; auto.
Qed.

(** Witness for C3: matches of area 200, 100 and 200; the first area-200
    match wins, over the smaller one and over the later tie. *)
Lemma findDocFormatByTitle_largest_area_witness :
  length (snd (findDocFormatByTitle Fixtures.board_c3_tie_page Fixtures.board_c3_tie_docs "Target"))
    = 1%nat /\
  (exists it d, In it [Fixtures.item_200; Fixtures.item_100; Fixtures.item_200b] /\
    item_candidate Fixtures.board_c3_tie_docs "Target" it = Some d /\
    fst (findDocFormatByTitle Fixtures.board_c3_tie_page Fixtures.board_c3_tie_docs "Target")
      = Ok (Some (mergeListItemAndDetails it d)) /\
    (forall x dx, In x [Fixtures.item_200; Fixtures.item_100; Fixtures.item_200b] ->
      item_candidate Fixtures.board_c3_tie_docs "Target" x = Some dx ->
      geometryArea x <= geometryArea it) /\
    exists pre post, [Fixtures.item_200; Fixtures.item_100; Fixtures.item_200b] = pre ++ it :: post /\
      forall x dx, In x pre -> item_candidate Fixtures.board_c3_tie_docs "Target" x = Some dx ->
        geometryArea x < geometryArea it) /\
  fst (findDocFormatByTitle Fixtures.board_c3_tie_page Fixtures.board_c3_tie_docs "Target")
    = Ok (Some (mergeListItemAndDetails Fixtures.item_200 Fixtures.details_200)) /\
  geometryArea Fixtures.item_200 = geometryArea Fixtures.item_200b.
Proof.
  destruct (findDocFormatByTitle_largest_area Fixtures.board_c3_tie_page Fixtures.board_c3_tie_docs
              "Target" [JObj [("data", JArr [Fixtures.item_200; Fixtures.item_100; Fixtures.item_200b])]]
              Fixtures.item_100 Fixtures.details_100) as [Hl Hex].
  - discriminate.
  - split; reflexivity.
  - simpl; lia.
  - intros x dx [<- | [<- | [<- | []]]] Hx; vm_compute in Hx; injection Hx as <-; reflexivity.
  - right; left; reflexivity.
  - reflexivity.
  - split; [exact Hl|]. split; [exact Hex|]. split; vm_compute; reflexivity.
Defined.

(** C3 counterexample: the [findDocFormatByTitle] of
    [analyze-selected-pdf.js] returns the first titled match, here the
    area-100 doc although an area-200 match follows. *)
Theorem findDocFormatByTitle_first_ignores_area :
  findDocFormatByTitle_first Fixtures.board_first_page "Target"
  = (Ok (Some Fixtures.item_t100), [None])
  /\ geometryArea Fixtures.item_t100 = 100 /\ geometryArea Fixtures.item_t200 = 200.
Proof. repeat split; reflexivity. Qed.

Lemma page_loop_bound get_page get_doc wanted n cursor best ba :
  (length (snd (page_loop get_page get_doc wanted n cursor best ba)) <= n)%nat.
Proof.
  revert cursor best ba; induction n as [|n IH]; intros cursor best ba; simpl; [lia|].
  destruct (get_page cursor) as [page|]; simpl; [|lia].
  destruct (scan_items get_doc wanted (page_items page) best ba) as [m|b ba'];
    simpl; [lia|].
  destruct (extractNextCursor page) as [c|]; simpl; [|lia].
  specialize (IH (Some c) b ba').
  destruct (page_loop get_page get_doc wanted n (Some c) b ba') as [r tr]; simpl in *; lia.
Qed.

Lemma page_loop_first_bound get_page wanted n cursor :
  (length (snd (page_loop_first get_page wanted n cursor)) <= n)%nat.
Proof.
  revert cursor; induction n as [|n IH]; intros cursor; simpl; [lia|].
  destruct (get_page cursor) as [page|]; simpl; [|lia].
  destruct (first_match wanted (page_items page)); simpl; [lia|].
  destruct (extractNextCursor page) as [c|]; simpl; [|lia].
  specialize (IH (Some c)).
  destruct (page_loop_first get_page wanted n (Some c)) as [r tr]; simpl in *; lia.
Qed.

Lemma scan_items_no_candidate get_doc wanted items best ba :
  (forall x, In x items -> item_candidate get_doc wanted x = None) ->
  scan_items get_doc wanted items best ba = Continue best ba.
Proof.
  induction items as [|x items IH]; intros H; simpl; [reflexivity|].
  rewrite (H x (or_introl eq_refl)); apply IH; intros y Hy; apply H; right; exact Hy.
Qed.

Lemma page_loop_endless get_page get_doc wanted n cursor best ba :
  (forall c, exists p, get_page c = Some p /\ extractNextCursor p <> None /\
     forall x, In x (page_items p) -> item_candidate get_doc wanted x = None) ->
  length (snd (page_loop get_page get_doc wanted n cursor best ba)) = n.
Proof.
  intros H; revert cursor; induction n as [|n IH]; intros cursor; simpl; [reflexivity|].
  destruct (H cursor) as [p [Hp [Hc Hnone]]].
  rewrite Hp, (scan_items_no_candidate get_doc wanted _ best ba Hnone).
  destruct (extractNextCursor p) as [c|]; [|congruence].
  specialize (IH (Some c)).
  destruct (page_loop get_page get_doc wanted n (Some c) best ba) as [r tr]; simpl in *; lia.
Qed.

(** C9 (as the code does it): both locators fetch at most 100 pages for
    every paginator, and the placeholder-aware one fetches exactly 100
    pages from a paginator that always returns a fresh cursor and never a
    match; early stops are a page without next cursor, a throwing fetch,
    or an item returned from inside the loop. *)
Theorem findDocFormatByTitle_page_bound get_page get_doc title :
  (length (snd (findDocFormatByTitle get_page get_doc title)) <= 100)%nat /\
  (length (snd (findDocFormatByTitle_first get_page title)) <= 100)%nat /\
  (trim title <> EmptyString ->
   (forall c, exists p, get_page c = Some p /\ extractNextCursor p <> None /\
      forall x, In x (page_items p) -> item_candidate get_doc (trim title) x = None) ->
   length (snd (findDocFormatByTitle get_page get_doc title)) = 100%nat).
Proof.
  unfold findDocFormatByTitle, findDocFormatByTitle_first.
  repeat split.
  - destruct (String.eqb (trim title) EmptyString); [simpl; lia | apply page_loop_bound].
  - destruct (String.eqb (trim title) EmptyString); [simpl; lia | apply page_loop_first_bound].
  - intros Hne H.
    assert (Hw : String.eqb (trim title) EmptyString = false) by (apply String.eqb_neq; exact Hne).
    rewrite Hw; apply page_loop_endless; exact H.
Qed.

(** Witness for C9: the endless empty paginator is cut at 100 pages. *)
Lemma findDocFormatByTitle_page_bound_witness :
  length (snd (findDocFormatByTitle Fixtures.endless_empty_pages Fixtures.no_docs "Target")) = 100%nat.
Proof.
  apply (findDocFormatByTitle_page_bound Fixtures.endless_empty_pages Fixtures.no_docs "Target").
  - discriminate.
  - intros c; exists Fixtures.endless_empty_page; split; [reflexivity|].
    split; [discriminate | intros x []].
Defined.

(** C9 counterexample: a paginator that always returns a fresh cursor
    still stops after one page when that page holds a match. *)
Theorem findDocFormatByTitle_stops_with_cursor :
  findDocFormatByTitle_first Fixtures.endless_pages "Target"
  = (Ok (Some (Fixtures.doc_item "t" (Some "Target") 10 10)), [None])
  /\ extractNextCursor Fixtures.endless_page = Some "next".
Proof. split; reflexivity. Qed.

(** ** Recreate-and-replace (C6) *)

Lemma app_last_split {A : Type} (l1 tr1 tr2 : list A) (x y : A) :
  (forall z, In z l1 -> z <> y) -> l1 ++ [x] = tr1 ++ y :: tr2 -> tr1 = l1.
Proof.
  revert l1; induction tr1 as [|b tr1 IH]; intros [|a l1] Hn Heq; simpl in *.
  - reflexivity.
  - injection Heq as Ha _; exfalso; exact (Hn a (or_introl eq_refl) Ha).
  - injection Heq as _ Hnil; exfalso; destruct tr1; discriminate.
  - injection Heq as Hab Hrest; subst b; f_equal.
    apply IH; [intros z Hz; apply Hn; right; exact Hz | exact Hrest].
Qed.

Ltac not_delete Hall :=
  let z := fresh "z" in let Hz := fresh "Hz" in
  intros z Hz;
  repeat match type of Hz with
         | In _ (_ ++ _) => apply in_app_or in Hz; destruct Hz as [Hz|Hz]
         | In _ (_ :: _) => destruct Hz as [Hz|Hz]
         | In _ [] => destruct Hz
         end;
  first [ subst z; discriminate | destruct (Hall _ Hz) as (? & ? & ? & ->); discriminate ].

Lemma create_loop_spec js_String post_doc i vs cp tg c0 errs tr c e t :
  Recreate.create_loop js_String post_doc i vs cp tg c0 errs tr = (c, e, t) ->
  exists t', t = tr ++ t' /\
    (forall x, In x t' -> exists j p o, x = EPostDoc j p o) /\
    (str_truthy c = true ->
       str_truthy c0 = true \/
       exists j p s, In (EPostDoc j p (Some s)) t' /\ nonempty s = true).
Proof.
  revert i c0 errs tr; induction vs as [|v vs IH]; intros i c0 errs tr H; simpl in H.
  - injection H as <- <- <-; exists []; rewrite app_nil_r; split; [reflexivity|].
    split; [intros x []| intros Hc; left; exact Hc].
  - destruct (str_truthy c0) eqn:Hc0.
    + injection H as <- <- <-; exists []; rewrite app_nil_r; split; [reflexivity|].
      split; [intros x []| intros _; left; reflexivity].
    + destruct (post_doc i (Recreate.variant_payload cp tg v)) as [msg|created].
      * destruct (IH _ _ _ _ H) as (t'' & Ht & Hall & Hs).
        exists (EPostDoc i (Recreate.variant_payload cp tg v) c0 :: t''); split.
        { rewrite Ht, <- app_assoc; reflexivity. }
        split.
        { intros x [<-|Hx]; [do 3 eexists; reflexivity | exact (Hall x Hx)]. }
        { intros Hc; destruct (Hs Hc) as [Hf|(j & p & s & Hin & Hn)];
            [congruence | right; exists j, p, s; split; [right; exact Hin | exact Hn]]. }
      * destruct (IH _ _ _ _ H) as (t'' & Ht & Hall & Hs).
        set (cid := Recreate.created_id js_String created) in *.
        exists (EPostDoc i (Recreate.variant_payload cp tg v) cid :: t''); split.
        { rewrite Ht, <- app_assoc; reflexivity. }
        split.
        { intros x [<-|Hx]; [do 3 eexists; reflexivity | exact (Hall x Hx)]. }
        { intros Hc; right; destruct (Hs Hc) as [Hf|(j & p & s & Hin & Hn)].
          - destruct cid as [s|]; [|discriminate].
            exists i, (Recreate.variant_payload cp tg v), s; split; [left; reflexivity | exact Hf].
          - exists j, p, s; split; [right; exact Hin | exact Hn]. }
Qed.

Lemma create_loop_all_fail js_String post_doc i vs cp tg c0 errs tr c e t :
  (forall j p, str_truthy (Recreate.post_yields_id js_String (post_doc j p)) = false) ->
  str_truthy c0 = false ->
  Recreate.create_loop js_String post_doc i vs cp tg c0 errs tr = (c, e, t) ->
  str_truthy c = false /\ exists t', t = tr ++ t' /\ length t' = length vs.
Proof.
  intros Hf; revert i c0 errs tr; induction vs as [|v vs IH]; intros i c0 errs tr Hc0 H; simpl in H.
  - injection H as <- <- <-; split; [exact Hc0|]; exists []; rewrite app_nil_r; split; reflexivity.
  - rewrite Hc0 in H.
    specialize (Hf i (Recreate.variant_payload cp tg v)).
    destruct (post_doc i (Recreate.variant_payload cp tg v)) as [msg|created].
    + destruct (IH _ _ _ _ Hc0 H) as [Hc (t'' & Ht & Hl)]; split; [exact Hc|].
      exists (EPostDoc i (Recreate.variant_payload cp tg v) c0 :: t''); split.
      * rewrite Ht, <- app_assoc; reflexivity.
      * simpl; rewrite Hl; reflexivity.
    + simpl in Hf.
      destruct (IH _ _ _ _ Hf H) as [Hc (t'' & Ht & Hl)]; split; [exact Hc|].
      exists (EPostDoc i (Recreate.variant_payload cp tg v) (Recreate.created_id js_String created) :: t'');
        split.
      * rewrite Ht, <- app_assoc; reflexivity.
      * simpl; rewrite Hl; reflexivity.
Qed.

(** C6: in the recreate-and-replace handler a delete call is only issued
    after a creation call that returned a (truthy) new doc id; and when no
    creation variant yields an id, no delete is issued, the board keeps
    every item (the placeholder included), no doc is reported replaced,
    and after the eight failed variants a plain-text item holding the
    answer is posted at [createPos], the position of the target doc
    (or the fallback next to the PDF when the target has none). *)
Theorem recreate_and_replace_delete_after_create
    js_String toSimpleHtml post_doc patch_item delete_doc post_text
    targetDoc outX outY docMarkdown answer board out tr board' :
  Recreate.recreate_and_replace js_String toSimpleHtml post_doc patch_item delete_doc post_text
    targetDoc outX outY docMarkdown answer board = (out, tr, board') ->
  (forall tr1 d tr2, tr = tr1 ++ EDelete d :: tr2 ->
     exists i p s, In (EPostDoc i p (Some s)) tr1 /\ nonempty s = true) /\
  ((forall i p, str_truthy (Recreate.post_yields_id js_String (post_doc i p)) = false) ->
     (forall d, ~ In (EDelete d) tr) /\ board' = board /\
     Recreate.o_replacedDocId out = None /\
     exists tr0 o,
       tr = tr0 ++ [EPostText (JObj [("data", JObj [("content", JStr answer)]);
                                     ("position", Recreate.createPos (Recreate.targetPos targetDoc outX outY))]) o]
       /\ length tr0 = 8%nat
       /\ (forall x, In x tr0 -> exists j p o', x = EPostDoc j p o')).
Proof.
  intros H; unfold Recreate.recreate_and_replace in H.
  set (cp := Recreate.createPos (Recreate.targetPos targetDoc outX outY)) in *.
  set (tg := Recreate.targetGeom targetDoc) in *.
  destruct (Recreate.create_loop js_String post_doc 0 (Recreate.createVariants toSimpleHtml docMarkdown)
              cp tg None [] []) as [[cid errs1] tr1] eqn:Hc.
  destruct (create_loop_spec _ _ _ _ _ _ _ _ _ _ _ _ Hc) as (t' & Ht' & Hall & Hsucc).
  simpl in Ht'; subst tr1.
  destruct (str_truthy cid) eqn:Ht.
  - destruct (Hsucc eq_refl) as [Hf|(j & p & s & Hin & Hs)]; [discriminate|].
    destruct cid as [c|]; [|discriminate]; simpl in Ht.
    remember (Recreate.js_String_opt js_String (get "id" (Some targetDoc))) as rid eqn:Hrid.
    destruct (Recreate.targetParentId js_String targetDoc) as [pid|];
      [destruct (nonempty pid) eqn:Hpid;
       [destruct (patch_item c (JObj [("parent", JObj [("id", JStr pid)])])) as [msg|]|]|];
      simpl in H; rewrite ?Ht, ?Hpid in H; simpl in H;
      destruct (delete_doc rid) as [msg'|];
      injection H as <- <- <-;
      (split;
       [ intros tr1 d tr3 Heq;
         eapply app_last_split in Heq; [subst tr1 | not_delete Hall];
         exists j, p, s; split; [first [exact Hin | apply in_or_app; left; exact Hin] | exact Hs]
       | intros Hf;
         destruct (create_loop_all_fail _ _ _ _ _ _ None _ _ _ _ _ Hf eq_refl Hc) as [Hc' _];
         simpl in Hc'; congruence ]).
  - set (payload := JObj [("data", JObj [("content", JStr answer)]); ("position", cp)]).
    assert (Htext : exists o, tr = t' ++ [EPostText payload o] /\ board' = board /\
                              Recreate.o_replacedDocId out = None).
    { destruct cid as [c|]; [simpl in Ht|];
        [destruct (Recreate.targetParentId js_String targetDoc) as [pid|]|];
        simpl in H; rewrite ?Ht in H; simpl in H; fold payload in H;
        destruct (post_text payload) as [m|cr]; injection H as <- <- <-;
        eexists; repeat split; reflexivity. }
    destruct Htext as (o & -> & -> & Hr).
    split.
    + intros tr1 d tr3 Heq; exfalso.
      assert (Hin : In (EDelete d) (t' ++ [EPostText payload o])) by (rewrite Heq; apply in_or_app; right; left; reflexivity).
      apply in_app_or in Hin; destruct Hin as [Hin|[Hin|[]]]; [|discriminate].
      destruct (Hall _ Hin) as (? & ? & ? & Hx); discriminate.
    + intros Hf.
      destruct (create_loop_all_fail _ _ _ _ _ _ None _ _ _ _ _ Hf eq_refl Hc) as [_ (t2 & Ht2 & Hl)].
      simpl in Ht2; subst t2.
      split; [|split; [reflexivity|split; [exact Hr|]]].
      * intros d Hin; apply in_app_or in Hin; destruct Hin as [Hin|[Hin|[]]]; [|discriminate].
        destruct (Hall _ Hin) as (? & ? & ? & Hx); discriminate.
      * exists t', o; split; [reflexivity|]; split; [exact Hl | exact Hall].
Qed.

(** ** Versioned find/replace (C7) *)

Lemma candidates_find_nonempty cur md c :
  In c (Versioned.candidates cur md) -> nonempty (Versioned.c_find c) = true.
Proof.
  unfold Versioned.candidates; intros Hin.
  apply in_app_or in Hin; destruct Hin as [Hin|Hin].
  - destruct (nonempty cur && negb (String.eqb cur (Versioned.desiredMarkdown cur md)))%bool eqn:H1;
      [|destruct Hin].
    destruct Hin as [<-|[]]; simpl.
    apply andb_true_iff in H1; apply H1.
  - destruct (Versioned.isEffectivelyEmptyMarkdown cur Versioned.TARGET_DOC_TITLE); [|destruct Hin].
    apply in_app_or in Hin; destruct Hin as [Hin|Hin].
    + destruct (nonempty (trim cur) && negb (String.eqb (trim cur) cur))%bool eqn:H1; [|destruct Hin].
      destruct Hin as [<-|[]]; simpl.
      apply andb_true_iff in H1; apply H1.
    + destruct Hin as [<-|[<-|[]]]; reflexivity.
Qed.

Lemma update_loop_all_fail js_String stringify mcp_call inputSchema boardId docId version i cs atts tr :
  (forall rid args, Versioned.call_fails js_String stringify (mcp_call rid args) = true) ->
  (forall c, In c cs -> nonempty (Versioned.c_find c) = true) ->
  exists atts' tr',
    Versioned.update_loop js_String stringify mcp_call inputSchema boardId docId version i cs false atts tr
      = (false, atts ++ atts', tr ++ tr') /\
    map Versioned.a_reason atts' = map Versioned.c_reason cs /\
    (forall a, In a atts' -> Versioned.a_ok a = false /\ Versioned.a_error a <> None) /\
    length tr' = length cs /\
    (forall e, In e tr' -> exists rid args, e = EMcpCall rid "doc_update" args).
Proof.
  intros Hf; revert i atts tr; induction cs as [|c cs IH]; intros i atts tr Hne;
    cbn -[Versioned.parseDocUpdateCall Versioned.buildDocUpdateArgs Z.add Z.of_nat].
  - exists [], []; rewrite !app_nil_r; split; [reflexivity|]; split; [reflexivity|]; split; [intros ? []|]; split; [reflexivity|intros ? []].
  - rewrite (Hne c (or_introl eq_refl)); cbn -[Versioned.parseDocUpdateCall Versioned.buildDocUpdateArgs Z.add Z.of_nat].
    set (args := Versioned.buildDocUpdateArgs inputSchema boardId docId (Versioned.c_find c)
                   (Versioned.c_replace c) true version).
    set (rid := 210 + Z.of_nat i).
    assert (Hc : exists msg,
      match mcp_call rid args with
      | Versioned.McpThrows msg => Err msg
      | Versioned.McpReturns resp => Versioned.parseDocUpdateCall js_String stringify resp
      end = Err msg).
    { specialize (Hf rid args); unfold Versioned.call_fails in Hf.
      destruct (mcp_call rid args) as [msg|resp]; [eexists; reflexivity|].
      destruct (Versioned.parseDocUpdateCall js_String stringify resp); [discriminate|].
      eexists; reflexivity. }
    destruct Hc as [msg Hc]; rewrite Hc.
    destruct (IH (S i) (atts ++ [Versioned.mkAttempt false (Versioned.c_reason c) (Some msg)])
                 (tr ++ [EMcpCall rid "doc_update" args]))
      as (atts' & tr' & Heq & Hr & Ha & Hl & He).
    { intros c' Hc'; apply Hne; right; exact Hc'. }
    exists (Versioned.mkAttempt false (Versioned.c_reason c) (Some msg) :: atts'),
           (EMcpCall rid "doc_update" args :: tr').
    rewrite Heq, <- !app_assoc; split; [reflexivity|].
    split; [simpl; f_equal; exact Hr|].
    split; [intros a [<-|Hin]; [split; [reflexivity|discriminate] | exact (Ha a Hin)]|].
    split; [simpl; f_equal; exact Hl|].
    intros e [<-|Hin]; [exists rid, args; reflexivity | exact (He e Hin)].
Qed.

(** C7: if every [doc_update] call fails (throws or is parsed as a
    JSON-RPC error, as a version conflict reported by the server is) and
    there is at least one candidate, i.e. at least one call is made, the
    handler answers the non-2xx [HardError] (status 500) carrying one
    failed attempt, with its error, per candidate in order, and the only
    calls it issued are [doc_update] calls: it neither reports success
    nor creates or deletes anything. *)
Theorem versioned_update_all_fail js_String stringify mcp_call inputSchema boardId docId
    currentMarkdown currentVersion docMarkdown :
  (forall rid args, Versioned.call_fails js_String stringify (mcp_call rid args) = true) ->
  Versioned.candidates currentMarkdown docMarkdown <> [] ->
  exists atts tr,
    Versioned.versioned_update js_String stringify mcp_call inputSchema boardId docId
      currentMarkdown currentVersion docMarkdown
    = (Versioned.HardError (Versioned.isEffectivelyEmptyMarkdown currentMarkdown Versioned.TARGET_DOC_TITLE) atts, tr)
    /\ Versioned.response_status (Versioned.HardError
         (Versioned.isEffectivelyEmptyMarkdown currentMarkdown Versioned.TARGET_DOC_TITLE) atts) = 500
    /\ map Versioned.a_reason atts = map Versioned.c_reason (Versioned.candidates currentMarkdown docMarkdown)
    /\ (forall a, In a atts -> Versioned.a_ok a = false /\ Versioned.a_error a <> None)
    /\ length tr = length (Versioned.candidates currentMarkdown docMarkdown)
    /\ (forall e, In e tr -> exists rid args, e = EMcpCall rid "doc_update" args).
Proof.
  intros Hf Hne.
  destruct (update_loop_all_fail js_String stringify mcp_call inputSchema boardId docId currentVersion 0
              (Versioned.candidates currentMarkdown docMarkdown) [] [] Hf
              (candidates_find_nonempty currentMarkdown docMarkdown))
    as (atts & tr & Heq & Hr & Ha & Hl & He).
  exists atts, tr.
  unfold Versioned.versioned_update.
  destruct (Versioned.candidates currentMarkdown docMarkdown) as [|c cs] eqn:Hcs; [congruence|].
  rewrite Heq.
  split; [reflexivity|]; split; [reflexivity|].
  split; [exact Hr|]; split; [exact Ha|]; split; [exact Hl|exact He].
Qed.

(** ** Table to stickies (C10) *)

Lemma createStickyNote_total js_String encodeURIComponent miroPostJson boardId content x y :
  exists r, Stickies.createStickyNote js_String encodeURIComponent miroPostJson boardId content x y = Ok r.
Proof.
  unfold Stickies.createStickyNote; cbv zeta.
  destruct (Stickies.post_sticky js_String encodeURIComponent miroPostJson boardId _) as [r|e];
    [eexists; reflexivity|].
  destruct (Stickies.post_sticky js_String encodeURIComponent miroPostJson boardId _) as [r|e'];
    eexists; reflexivity.
Qed.

Lemma post_sticky_id js_String encodeURIComponent miroPostJson boardId payload s :
  Stickies.post_sticky js_String encodeURIComponent miroPostJson boardId payload = Ok (Some s) ->
  exists url created, miroPostJson url payload = Ok created /\ Stickies.created_id js_String created = Some s.
Proof.
  unfold Stickies.post_sticky.
  destruct (Stickies.sticky_url encodeURIComponent boardId) as [url|e]; [|discriminate].
  destruct (miroPostJson url payload) as [created|e] eqn:Hp; [|discriminate].
  intros H; injection H as H; exists url, created; split; [exact Hp|exact H].
Qed.

Lemma createStickyNote_id js_String encodeURIComponent miroPostJson boardId content x y s :
  Stickies.createStickyNote js_String encodeURIComponent miroPostJson boardId content x y = Ok (Some s) ->
  exists url payload created, miroPostJson url payload = Ok created /\
                              Stickies.created_id js_String created = Some s.
Proof.
  unfold Stickies.createStickyNote; cbv zeta.
  destruct (Stickies.post_sticky js_String encodeURIComponent miroPostJson boardId _) as [r|e] eqn:HA.
  - intros H; injection H as ->.
    destruct (post_sticky_id _ _ _ _ _ _ HA) as (url & created & H1 & H2); eauto.
  - match goal with |- context [Stickies.post_sticky ?a ?b ?c ?d ?p] =>
      destruct (Stickies.post_sticky a b c d p) as [r|e'] eqn:HB end;
      [|intros H; discriminate H].
    intros H; injection H as ->.
    destruct (post_sticky_id _ _ _ _ _ _ HB) as (url & created & H1 & H2); eauto.
Qed.

Lemma col_loop_ok js_String encodeURIComponent miroPostJson cellX cellY boardId r row k :
  forall c ids,
  Stickies.col_loop js_String encodeURIComponent miroPostJson cellX cellY boardId r row c k ids
  = Ok (ids ++ flat_map (Stickies.cell_id js_String encodeURIComponent miroPostJson cellX cellY boardId)
                        (map (fun c' => (r, c', nth c' row "")) (seq c k))).
Proof.
  induction k as [|k IH]; intros c ids; simpl.
  - rewrite app_nil_r; reflexivity.
  - unfold Stickies.cell_id at 1; simpl.
    destruct (createStickyNote_total js_String encodeURIComponent miroPostJson boardId (nth c row "")
                (cellX c) (cellY r)) as [res Hres].
    rewrite Hres, IH.
    destruct res as [s|]; [destruct (nonempty s)|]; simpl; rewrite <- ?app_assoc; reflexivity.
Qed.

Lemma row_loop_ok js_String encodeURIComponent miroPostJson cellX cellY boardId n rows :
  forall r ids,
  Stickies.row_loop js_String encodeURIComponent miroPostJson cellX cellY boardId n r rows ids
  = Ok (ids ++ flat_map (fun rr => flat_map (Stickies.cell_id js_String encodeURIComponent miroPostJson
                                               cellX cellY boardId)
                                     (map (fun c => (fst rr, c, nth c (snd rr) "")) (seq 0 n)))
                        (combine (seq r (length rows)) rows)).
Proof.
  induction rows as [|row rows IH]; intros r ids; simpl.
  - rewrite app_nil_r; reflexivity.
  - rewrite col_loop_ok, IH, app_assoc; reflexivity.
Qed.

Lemma flat_map_flat_map {A B C : Type} (f : A -> list B) (g : B -> list C) (l : list A) :
  flat_map g (flat_map f l) = flat_map (fun x => flat_map g (f x)) l.
Proof.
  induction l as [|x l IH]; simpl; [reflexivity|].
  rewrite flat_map_app, IH; reflexivity.
Qed.

Lemma length_flat_map_const {A B : Type} (f : A -> list B) (n : nat) (l : list A) :
  (forall x, length (f x) = n) -> length (flat_map f l) = (length l * n)%nat.
Proof.
  intros Hf; induction l as [|x l IH]; simpl; [reflexivity|].
  rewrite length_app, Hf, IH; reflexivity.
Qed.

Lemma length_cell_id js_String encodeURIComponent miroPostJson cellX cellY boardId cell :
  (length (Stickies.cell_id js_String encodeURIComponent miroPostJson cellX cellY boardId cell) <= 1)%nat.
Proof.
  unfold Stickies.cell_id.
  destruct (Stickies.createStickyNote _ _ _ _ _ _ _) as [[s|]|e]; [destruct (nonempty s)|..]; simpl; lia.
Qed.

Lemma length_flat_map_le1 {A B : Type} (f : A -> list B) (l : list A) :
  (forall x, length (f x) <= 1)%nat -> (length (flat_map f l) <= length l)%nat.
Proof.
  intros Hf; induction l as [|x l IH]; simpl; [lia|].
  rewrite length_app; specialize (Hf x); lia.
Qed.

Lemma in_cell_id js_String encodeURIComponent miroPostJson cellX cellY boardId cell s :
  In s (Stickies.cell_id js_String encodeURIComponent miroPostJson cellX cellY boardId cell) ->
  nonempty s = true /\
  exists url payload created, miroPostJson url payload = Ok created /\
                              Stickies.created_id js_String created = Some s.
Proof.
  unfold Stickies.cell_id.
  destruct (Stickies.createStickyNote _ _ _ _ _ _ _) as [[s'|]|e] eqn:H; [|intros []|intros []].
  destruct (nonempty s') eqn:Hn; [|intros []].
  intros [<-|[]]; split; [exact Hn|].
  exact (createStickyNote_id _ _ _ _ _ _ _ _ H).
Qed.

(** C10: [createStickyNote] never throws, and returns [null] when both of
    its POST variants fail; for a non-empty table the handler responds
    200 [ok:true] after visiting every one of the (rows+1) x columns
    cells in loop order, its [createdIds] being the truthy ids those
    calls returned (each from a successful POST) and [createdCount] their
    number, at most the number of cells. *)
Theorem table_to_stickies_absorbs_failures js_String encodeURIComponent miroPostJson cellX cellY
    boardId columns rows :
  columns <> [] -> rows <> [] ->
  (forall content x y, exists r,
     Stickies.createStickyNote js_String encodeURIComponent miroPostJson boardId content x y = Ok r) /\
  (forall content x y,
     (forall payload, exists e, Stickies.post_sticky js_String encodeURIComponent miroPostJson boardId payload = Err e) ->
     Stickies.createStickyNote js_String encodeURIComponent miroPostJson boardId content x y = Ok None) /\
  exists ids,
    Stickies.table_to_stickies js_String encodeURIComponent miroPostJson cellX cellY boardId columns rows
    = Stickies.Ok200 columns (length rows) (length ids) ids /\
    ids = flat_map (Stickies.cell_id js_String encodeURIComponent miroPostJson cellX cellY boardId)
                   (Stickies.cells columns rows) /\
    length (Stickies.cells columns rows) = (S (length rows) * length columns)%nat /\
    (length ids <= length (Stickies.cells columns rows))%nat /\
    (forall id, In id ids ->
       nonempty id = true /\
       exists url payload created, miroPostJson url payload = Ok created /\
                                   Stickies.created_id js_String created = Some id).
Proof.
  intros Hc Hr.
  split; [intros; apply createStickyNote_total|].
  split.
  { intros content x y Hf; unfold Stickies.createStickyNote; cbv zeta.
    do 2 match goal with |- context [Stickies.post_sticky ?a ?b ?c ?d ?p] =>
                           let e := fresh "e" in let He := fresh "He" in destruct (Hf p) as [e He]; rewrite He end.
    reflexivity. }
  set (ids := flat_map (Stickies.cell_id js_String encodeURIComponent miroPostJson cellX cellY boardId)
                       (Stickies.cells columns rows)).
  exists ids.
  assert (Hlen : length (Stickies.cells columns rows) = (S (length rows) * length columns)%nat).
  { unfold Stickies.cells.
    rewrite (length_flat_map_const _ (length columns)).
    - rewrite length_combine, length_seq; simpl; rewrite Nat.min_id; reflexivity.
    - intros rr; rewrite length_map, length_seq; reflexivity. }
  split.
  { unfold Stickies.table_to_stickies.
    destruct columns as [|col cols]; [congruence|].
    destruct rows as [|row rs]; [congruence|].
    simpl (Nat.eqb _ _ || Nat.eqb _ _)%bool; cbv iota.
    rewrite row_loop_ok; simpl app.
    unfold ids, Stickies.cells; rewrite flat_map_flat_map; reflexivity. }
  split; [reflexivity|].
  split; [exact Hlen|].
  split.
  { apply length_flat_map_le1; intros; apply length_cell_id. }
  intros id Hin; unfold ids in Hin.
  apply in_flat_map in Hin; destruct Hin as (cell & _ & Hin).
  exact (in_cell_id _ _ _ _ _ _ _ _ Hin).
Qed.

(** Witness for C6: with every creation variant failing, the hypothesis
    holds, no delete is issued and the board keeps the placeholder. *)
Lemma recreate_and_replace_delete_after_create_witness :
  (forall i p, str_truthy (Recreate.post_yields_id WriteFixtures.js_String
                             (WriteFixtures.post_doc_fail i p)) = false) /\
  (forall d, ~ In (EDelete d) (snd (fst WriteFixtures.rr_fail))) /\
  snd WriteFixtures.rr_fail = ["p1"; "other"].
Proof.
  assert (Hf : forall i p, str_truthy (Recreate.post_yields_id WriteFixtures.js_String
                                         (WriteFixtures.post_doc_fail i p)) = false)
    by (intros; reflexivity).
  destruct (recreate_and_replace_delete_after_create WriteFixtures.js_String (fun s => s)
              WriteFixtures.post_doc_fail WriteFixtures.patch_ok WriteFixtures.delete_ok
              WriteFixtures.post_text_ok WriteFixtures.targetDoc (JNum 0) (JNum 0) "Body" "Answer"
              ["p1"; "other"] (fst (fst WriteFixtures.rr_fail)) (snd (fst WriteFixtures.rr_fail))
              (snd WriteFixtures.rr_fail) eq_refl) as [_ H2].
  destruct (H2 Hf) as (Hnd & Hb & _).
  split; [exact Hf | split; [exact Hnd | exact Hb]].
Defined.

(** Witness for C7: a server that reports a version conflict on every
    [doc_update] of a placeholder doc makes the handler answer 500. *)
Lemma versioned_update_all_fail_witness :
  Versioned.response_status
    (fst (Versioned.versioned_update WriteFixtures.js_String WriteFixtures.stringify
            WriteFixtures.mcp_conflict None "b1" "d1" Versioned.titleLine (Some (JNum 3)) "Body"))
  = 500.
Proof.
  destruct (versioned_update_all_fail WriteFixtures.js_String WriteFixtures.stringify
              WriteFixtures.mcp_conflict None "b1" "d1" Versioned.titleLine (Some (JNum 3)) "Body")
    as (atts & tr & Heq & Hs & _).
  - intros rid args; reflexivity.
  - intros H; vm_compute in H; discriminate H.
  - rewrite Heq; exact Hs.
Defined.

(** Witness for C10: a 2-column table with one data row, every POST
    failing: 200 with no sticky created out of four cells. *)
Lemma table_to_stickies_absorbs_failures_witness :
  exists ids,
    Stickies.table_to_stickies WriteFixtures.js_String WriteFixtures.encode_ok WriteFixtures.post_all_fail
      WriteFixtures.cellX WriteFixtures.cellY "b1" ["A"; "B"] [["1"; "2"]]
    = Stickies.Ok200 ["A"; "B"] 1 (length ids) ids
    /\ ids = [] /\ length (Stickies.cells ["A"; "B"] [["1"; "2"]]) = 4%nat.
Proof.
  destruct (table_to_stickies_absorbs_failures WriteFixtures.js_String WriteFixtures.encode_ok
              WriteFixtures.post_all_fail WriteFixtures.cellX WriteFixtures.cellY "b1"
              ["A"; "B"] [["1"; "2"]]) as (_ & _ & ids & Heq & Hids & Hlen & _).
  - discriminate.
  - discriminate.
  - exists ids; split; [exact Heq|]; split; [rewrite Hids; vm_compute; reflexivity | rewrite Hlen; reflexivity].
Defined.

(* ================================================================== *)
(** * Further properties of the code *)

Lemma dedup_spec seen xs :
  NoDup (dedup seen xs) /\ forall x, In x (dedup seen xs) -> In x xs /\ ~ In x seen.
Proof.
  revert seen; induction xs as [|x xs IH]; intros seen; simpl.
  - split; [constructor | intros _ []].
  - destruct (existsb (String.eqb x) seen) eqn:E.
    + destruct (IH seen) as [Hn Hi]; split; [exact Hn|].
      intros y Hy; destruct (Hi y Hy); split; [right|]; assumption.
    + destruct (IH (x :: seen)) as [Hn Hi]; split.
      * constructor; [|exact Hn].
        intros Hx; destruct (Hi x Hx) as [_ H]; apply H; left; reflexivity.
      * intros y [<-|Hy].
        -- split; [left; reflexivity|]. intros Hs.
           assert (existsb (String.eqb x) seen = true) as E'
             by (apply existsb_exists; exists x; split; [exact Hs | apply String.eqb_refl]).
           congruence.
        -- destruct (Hi y Hy) as [H1 H2]; split; [right; exact H1|].
           intros Hs; apply H2; right; exact Hs.
Qed.

Lemma pushIfString_ne v u : In u (pushIfString v) -> u <> EmptyString.
Proof.
  unfold pushIfString; destruct (as_string v) as [s|]; [|intros []].
  destruct (String.eqb (trim s) EmptyString) eqn:E; [intros []|].
  intros [<-|[]] H; rewrite H in E; discriminate.
Qed.

Lemma http_ne s : is_http s = true -> s <> EmptyString.
Proof. intros H ->; discriminate. Qed.

Lemma generic_urls_ne v u : In u (generic_urls v) -> u <> EmptyString.
Proof.
  destruct v as [| | |s| |fs]; simpl; try (intros []; fail).
  - destruct (is_http s) eqn:E; [intros [<-|[]]; exact (http_ne _ E) | intros []].
  - intros Hu; apply in_flat_map in Hu as (v2 & _ & Hv).
    destruct v2 as [| | |s| |]; try destruct Hv.
    destruct (is_http s) eqn:E; [destruct Hv as [<-|[]]; exact (http_ne _ E) | destruct Hv].
Qed.

(** X1: the URL candidates extracted from a JSON body are pairwise distinct
    and none is empty. *)
Theorem extractUrlCandidatesFromJson_distinct_nonempty obj :
  NoDup (extractUrlCandidatesFromJson obj) /\
  Forall (fun u => u <> EmptyString) (extractUrlCandidatesFromJson obj).
Proof.
  unfold extractUrlCandidatesFromJson.
  destruct (negb (is_object (Some obj))); [split; constructor|].
  cbv zeta.
  match goal with |- NoDup (dedup [] ?l) /\ _ => destruct (dedup_spec [] l) as [Hn Hi] end.
  split; [exact Hn|]. apply Forall_forall; intros u Hu. destruct (Hi u Hu) as [Hin _].
  repeat match type of Hin with
         | In _ (_ ++ _) => apply in_app_or in Hin; destruct Hin as [Hin|Hin]
         | In _ (if ?b then _ else _) => destruct b
         | In _ [] => destruct Hin
         | In _ (pushIfString _) => exact (pushIfString_ne _ _ Hin)
         | In _ (flat_map generic_urls _) =>
             apply in_flat_map in Hin as (v & _ & Hv); exact (generic_urls_ne _ _ Hv)
         end.
Qed.

Lemma attempt0_magic fetch u a b :
  Download0.attempt0 fetch u a = Ok b -> isPdfMagic b = true.
Proof.
  unfold Download0.attempt0; destruct (fetch u a) as [|r]; [discriminate|].
  destruct (negb (r_ok r)); [discriminate|]; cbv zeta.
  destruct (includes (ctype_lower r) "application/pdf" || isPdfMagic (r_body r))%bool; [|discriminate].
  destruct (isPdfMagic (r_body r)) eqn:E; simpl; [intros H; injection H as <-; exact E | discriminate].
Qed.

Lemma tryCandidates0_magic fetch n us le b :
  fst (Download0.tryCandidates0 fetch n us le) = Ok b -> isPdfMagic b = true.
Proof.
  revert le; induction us as [|u us IH]; intros le; simpl; [discriminate|].
  destruct (Download0.attempt0 fetch u true) eqn:E1.
  { simpl; intros H; injection H as <-; exact (attempt0_magic _ _ _ _ E1). }
  destruct (Download0.attempt0 fetch u false) eqn:E2.
  { simpl; intros H; injection H as <-; exact (attempt0_magic _ _ _ _ E2). }
  specialize (IH (Some e0)); destruct (Download0.tryCandidates0 fetch n us (Some e0)); exact IH.
Qed.

(** X4: the fetcher of part_000 only ever returns bytes starting with the
    PDF magic. *)
Theorem miroDownloadBinary0_only_pdf fetch json_parse downloadUrl b :
  fst (Download0.miroDownloadBinary0 fetch json_parse downloadUrl) = Ok b -> isPdfMagic b = true.
Proof.
  unfold Download0.miroDownloadBinary0.
  destruct (fetch downloadUrl true) as [|r1]; [discriminate|].
  destruct (negb (r_ok r1)); [discriminate|]; cbv zeta.
  destruct (includes (ctype_lower r1) "application/pdf").
  { destruct (isPdfMagic (r_body r1)) eqn:E; simpl; [intros H; injection H as <-; exact E | discriminate]. }
  destruct (includes (ctype_lower r1) "application/json").
  { destruct (extractUrlCandidatesFromJson _) as [|c cs]; [discriminate|].
    match goal with |- context [Download0.tryCandidates0 ?f ?n ?us ?le] =>
      pose proof (tryCandidates0_magic f n us le b) as Hm; destruct (Download0.tryCandidates0 f n us le)
    end; exact Hm. }
  destruct (isPdfMagic (r_body r1)) eqn:E.
  { simpl; intros H; injection H as <-; exact E. }
  destruct (fetch downloadUrl false) as [|r4]; [discriminate|].
  destruct (r_ok r4); [|discriminate].
  destruct (includes (ctype_lower r4) "application/pdf" || isPdfMagic (r_body r4))%bool; [|discriminate].
  destruct (isPdfMagic (r_body r4)) eqn:E4; simpl; [intros H; injection H as <-; exact E4 | discriminate].
Qed.

Lemma miroDownloadBinary0_only_pdf_witness :
  fst (Download0.miroDownloadBinary0 Fixtures.fetch_presigned Fixtures.parse_data_documentUrl
         Fixtures.entry_url) = Ok [37; 80; 68; 70; 45] /\
  isPdfMagic [37; 80; 68; 70; 45] = true.
Proof.
  split; [vm_compute; reflexivity|].
  apply (miroDownloadBinary0_only_pdf Fixtures.fetch_presigned Fixtures.parse_data_documentUrl
           Fixtures.entry_url).
  vm_compute; reflexivity.
Defined.

Lemma attempt_source fetch u a b :
  attempt fetch u a = Ok b -> isPdfMagic b = true \/ served_as_pdf fetch u a b.
Proof.
  unfold attempt; destruct (fetch u a) as [|r] eqn:Ef; [discriminate|].
  destruct (r_ok r) eqn:Eok; simpl; [|discriminate].
  destruct (includes (ctype_lower r) "application/pdf") eqn:Ect; simpl.
  - intros H; injection H as <-; right; exists r; repeat split; assumption.
  - destruct (isPdfMagic (r_body r)) eqn:E; [|discriminate].
    intros H; injection H as <-; left; exact E.
Qed.

Lemma tryCandidates_source fetch us le b :
  fst (tryCandidates fetch us le) = Ok b ->
  isPdfMagic b = true \/
  exists u a, In (u, a) (snd (tryCandidates fetch us le)) /\ served_as_pdf fetch u a b.
Proof.
  revert le; induction us as [|u us IH]; intros le; simpl; [discriminate|].
  destruct (attempt fetch u true) eqn:E1.
  { simpl; intros H; injection H as <-.
    destruct (attempt_source _ _ _ _ E1) as [Hm|Hs]; [left; exact Hm|].
    right; exists u, true; split; [left; reflexivity | exact Hs]. }
  destruct (attempt fetch u false) eqn:E2.
  { simpl; intros H; injection H as <-.
    destruct (attempt_source _ _ _ _ E2) as [Hm|Hs]; [left; exact Hm|].
    right; exists u, false; split; [right; left; reflexivity | exact Hs]. }
  specialize (IH (Some e0)); destruct (tryCandidates fetch us (Some e0)) as [res tr].
  simpl in *; intros H; destruct (IH H) as [Hm|(u' & a & Hin & Hs)]; [left; exact Hm|].
  right; exists u', a; split; [right; right; exact Hin | exact Hs].
Qed.

(** X2: bytes miroDownloadBinary returns either start with the PDF magic or
    are the body of a fetch it made that succeeded and declared
    [application/pdf]. *)
Theorem miroDownloadBinary_result_source fetch json_parse downloadUrl b :
  fst (miroDownloadBinary fetch json_parse downloadUrl) = Ok b ->
  isPdfMagic b = true \/
  exists u a, In (u, a) (snd (miroDownloadBinary fetch json_parse downloadUrl)) /\
              served_as_pdf fetch u a b.
Proof.
  unfold miroDownloadBinary.
  destruct (fetch downloadUrl true) as [|r1] eqn:Ef; [discriminate|].
  destruct (r_ok r1) eqn:Eok; simpl; [|discriminate].
  destruct (includes (ctype_lower r1) "application/pdf") eqn:Ect.
  { destruct (isPdfMagic (r_body r1)) eqn:E; simpl; [|discriminate].
    intros H; injection H as <-; left; exact E. }
  destruct (includes (ctype_lower r1) "application/json").
  { destruct (extractUrlCandidatesFromJson _) as [|c cs]; [discriminate|].
    match goal with |- context [tryCandidates ?f ?us ?le] =>
      pose proof (tryCandidates_source f us le b) as Hm; destruct (tryCandidates f us le)
    end; simpl in *.
    intros H; destruct (Hm H) as [Hp|(u & a & Hin & Hs)]; [left; exact Hp|].
    right; exists u, a; split; [right; exact Hin | exact Hs]. }
  destruct (isPdfMagic (r_body r1)) eqn:E; simpl; [|discriminate].
  intros H; injection H as <-; left; exact E.
Qed.

Lemma miroDownloadBinary_result_source_witness :
  fst (miroDownloadBinary Fixtures.fetch_pdf_ct_json_body Fixtures.parse_url_meta Fixtures.entry_url)
    = Ok [123; 125] /\
  (isPdfMagic [123; 125] = true \/
   exists u a, In (u, a) (snd (miroDownloadBinary Fixtures.fetch_pdf_ct_json_body Fixtures.parse_url_meta
                                  Fixtures.entry_url)) /\
               served_as_pdf Fixtures.fetch_pdf_ct_json_body u a [123; 125]).
Proof.
  split; [vm_compute; reflexivity|].
  apply (miroDownloadBinary_result_source Fixtures.fetch_pdf_ct_json_body Fixtures.parse_url_meta
           Fixtures.entry_url).
  vm_compute; reflexivity.
Defined.

Lemma sortCandidates_In u l : In u (sortCandidates l) -> In u l.
Proof.
  rewrite sortCandidates_partition; intros H; apply in_app_or in H as [H|H];
    apply filter_In in H; apply H.
Qed.

(** X3: miroDownloadBinary first fetches the download URL with auth; every
    later fetch targets a URL candidate extracted from that first response. *)
Theorem miroDownloadBinary_fetch_targets fetch json_parse downloadUrl :
  exists rest,
    snd (miroDownloadBinary fetch json_parse downloadUrl) = (downloadUrl, true) :: rest /\
    forall u a, In (u, a) rest ->
      exists r1, fetch downloadUrl true = FetchResp r1 /\
        In u (extractUrlCandidatesFromJson
                (match json_parse (r_body r1) with Some j => j | None => JNull end)).
Proof.
  unfold miroDownloadBinary.
  destruct (fetch downloadUrl true) as [|r1] eqn:Ef; [exists []; split; [reflexivity|intros _ _ []]|].
  destruct (negb (r_ok r1)); [exists []; split; [reflexivity|intros _ _ []]|]; cbv zeta.
  destruct (includes (ctype_lower r1) "application/pdf").
  { destruct (negb (isPdfMagic (r_body r1))); exists []; split; try reflexivity; intros _ _ []. }
  destruct (includes (ctype_lower r1) "application/json").
  2:{ destruct (isPdfMagic (r_body r1)); exists []; split; try reflexivity; intros _ _ []. }
  set (cands := extractUrlCandidatesFromJson _).
  destruct cands as [|c cs] eqn:Ec; [exists []; split; [reflexivity|intros _ _ []]|].
  rewrite <- Ec.
  pose proof (tryCandidates_trace_prefix fetch (sortCandidates cands) None) as [l3 Hp].
  destruct (tryCandidates fetch (sortCandidates cands) None) as [res tr]; simpl in Hp |- *.
  exists tr; split; [reflexivity|].
  intros u a Hin; exists r1; split; [reflexivity|].
  assert (In (u, a) (flat_map both_ways (sortCandidates cands))) as H2
    by (rewrite Hp; apply in_or_app; left; exact Hin).
  apply in_flat_map in H2 as (u' & Hu' & Hb).
  unfold both_ways in Hb; destruct Hb as [Hb|[Hb|[]]]; injection Hb as -> _;
    exact (sortCandidates_In _ _ Hu').
Qed.

Lemma str_app_assoc (a b c : string) : append (append a b) c = append a (append b c).
Proof. induction a as [|x a IH]; simpl; [reflexivity | rewrite IH; reflexivity]. Qed.

Lemma str_app_nil_r (a : string) : append a EmptyString = a.
Proof. induction a as [|x a IH]; simpl; [reflexivity | rewrite IH; reflexivity]. Qed.

Lemma str_length_app (a b : string) : String.length (append a b) = (String.length a + String.length b)%nat.
Proof. induction a as [|x a IH]; simpl; [reflexivity | rewrite IH; reflexivity]. Qed.

Lemma str_eqb_len (a b : string) : String.length a <> String.length b -> String.eqb a b = false.
Proof.
  intros H. destruct (String.eqb a b) eqn:E; [|reflexivity].
  apply String.eqb_eq in E. subst. congruence.
Qed.

Lemma replace_char_app c rep a b :
  replace_char c rep (append a b) = append (replace_char c rep a) (replace_char c rep b).
Proof.
  induction a as [|x a IH]; simpl; [reflexivity|].
  destruct (Ascii.eqb x c); rewrite IH; [rewrite str_app_assoc|]; reflexivity.
Qed.

Lemma has_char_app c a b : has_char c (append a b) = (has_char c a || has_char c b)%bool.
Proof.
  induction a as [|x a IH]; simpl; [reflexivity|]. rewrite IH, Bool.orb_assoc. reflexivity.
Qed.

Lemma has_char_replace ch c rep s :
  has_char ch s = false -> has_char ch rep = false -> has_char ch (replace_char c rep s) = false.
Proof.
  intros Hs Hr. induction s as [|x s IH]; simpl in *; [reflexivity|].
  apply Bool.orb_false_iff in Hs as [H1 H2].
  destruct (Ascii.eqb x c); [rewrite has_char_app, Hr, IH; auto|simpl; rewrite H1, IH; auto].
Qed.

Lemma has_char_replace_self c rep s :
  has_char c rep = false -> has_char c (replace_char c rep s) = false.
Proof.
  intros Hr. induction s as [|x s IH]; simpl; [reflexivity|].
  destruct (Ascii.eqb x c) eqn:E; [rewrite has_char_app, Hr, IH; auto|simpl; rewrite E, IH; auto].
Qed.

Lemma escapeHtml_cons c r :
  escapeHtml (String c r) = append (escapeHtml (String c EmptyString)) (escapeHtml r).
Proof.
  unfold escapeHtml. change (String c r) with (append (String c EmptyString) r).
  rewrite !replace_char_app. reflexivity.
Qed.

Lemma escapeHtml_char c :
  (c = "&"%char /\ escapeHtml (String c EmptyString) = "&amp;") \/
  (c = "<"%char /\ escapeHtml (String c EmptyString) = "&lt;") \/
  (c = ">"%char /\ escapeHtml (String c EmptyString) = "&gt;") \/
  (c <> "&"%char /\ c <> "<"%char /\ c <> ">"%char /\
   escapeHtml (String c EmptyString) = String c EmptyString).
Proof.
  destruct (Ascii.eqb c "&") eqn:E1; [apply Ascii.eqb_eq in E1; subst; left; split; reflexivity|].
  destruct (Ascii.eqb c "<") eqn:E2; [apply Ascii.eqb_eq in E2; subst; right; left; split; reflexivity|].
  destruct (Ascii.eqb c ">") eqn:E3; [apply Ascii.eqb_eq in E3; subst; right; right; left; split; reflexivity|].
  right; right; right.
  assert (Hs : escapeHtml (String c EmptyString) = String c EmptyString).
  { unfold escapeHtml; simpl. rewrite E1; simpl. rewrite E2; simpl. rewrite E3. reflexivity. }
  apply Ascii.eqb_neq in E1, E2, E3. auto.
Qed.

Lemma escapeHtml_no_angle s :
  has_char "<"%char (escapeHtml s) = false /\ has_char ">"%char (escapeHtml s) = false.
Proof.
  induction s as [|c r [IH1 IH2]]; [split; reflexivity|].
  rewrite escapeHtml_cons, !has_char_app, IH1, IH2.
  destruct (escapeHtml_char c) as [[-> ->]|[[-> ->]|[[-> ->]|(N1 & N2 & N3 & ->)]]];
    try (split; reflexivity).
  simpl. apply Ascii.eqb_neq in N2, N3. rewrite N2, N3. auto.
Qed.

Lemma escapeHtml_inj s1 s2 : escapeHtml s1 = escapeHtml s2 -> s1 = s2.
Proof.
  revert s2. induction s1 as [|c1 r1 IH]; intros [|c2 r2] H.
  - reflexivity.
  - exfalso. rewrite escapeHtml_cons in H.
    destruct (escapeHtml_char c2) as [[-> E]|[[-> E]|[[-> E]|(_ & _ & _ & E)]]];
      rewrite E in H; discriminate H.
  - exfalso. rewrite escapeHtml_cons in H.
    destruct (escapeHtml_char c1) as [[-> E]|[[-> E]|[[-> E]|(_ & _ & _ & E)]]];
      rewrite E in H; discriminate H.
  - rewrite (escapeHtml_cons c1 r1), (escapeHtml_cons c2 r2) in H.
    destruct (escapeHtml_char c1) as [[-> E1]|[[-> E1]|[[-> E1]|(N1 & N2 & N3 & E1)]]];
    destruct (escapeHtml_char c2) as [[-> E2]|[[-> E2]|[[-> E2]|(M1 & M2 & M3 & E2)]]];
    rewrite ?E1, ?E2 in H; simpl in H; inversion H; subst;
    try congruence; f_equal; apply IH; assumption.
Qed.
(** X5: escapeHtml leaves no angle bracket and is injective. *)
Theorem escapeHtml_safe_injective s1 s2 :
  has_char "<"%char (escapeHtml s1) = false /\ has_char ">"%char (escapeHtml s1) = false /\
  (escapeHtml s1 = escapeHtml s2 <-> s1 = s2).
Proof.
  destruct (escapeHtml_no_angle s1) as [H1 H2]. repeat split; auto.
  - apply escapeHtml_inj.
  - intros ->. reflexivity.
Qed.

Lemma oss_char c r :
  c <> "<"%char -> c <> ">"%char -> only_simple_tags (String c r) = only_simple_tags r.
Proof.
  intros H1 H2.
  destruct c as [[] [] [] [] [] [] [] []]; simpl; first [reflexivity | congruence].
Qed.

Lemma oss_replace_lf p rest :
  has_char "<"%char p = false -> has_char ">"%char p = false ->
  only_simple_tags (append (replace_char LF "<br/>" p) rest) = only_simple_tags rest.
Proof.
  induction p as [|c p IH]; intros H1 H2; [reflexivity|].
  cbn [has_char] in H1, H2.
  apply Bool.orb_false_iff in H1 as [C1 H1]. apply Bool.orb_false_iff in H2 as [C2 H2].
  apply Ascii.eqb_neq in C1, C2.
  change (replace_char LF "<br/>" (String c p)) with
    (if Ascii.eqb c LF then append "<br/>" (replace_char LF "<br/>" p)
     else String c (replace_char LF "<br/>" p)).
  destruct (Ascii.eqb c LF).
  - rewrite str_app_assoc. apply IH; assumption.
  - change (only_simple_tags (String c (append (replace_char LF "<br/>" p) rest)) =
            only_simple_tags rest).
    rewrite oss_char by assumption. apply IH; assumption.
Qed.

Lemma concat_empty_cons (x : string) (xs : list string) :
  String.concat EmptyString (x :: xs) = append x (String.concat EmptyString xs).
Proof. destruct xs; simpl; [rewrite str_app_nil_r|]; reflexivity. Qed.

Lemma oss_paragraphs ps :
  Forall (fun p => has_char "<"%char p = false /\ has_char ">"%char p = false) ps ->
  only_simple_tags
    (String.concat EmptyString
       (map (fun p => append "<p>" (append (replace_char LF "<br/>" p) "</p>")) ps)) = true.
Proof.
  induction 1 as [|p ps [H1 H2] _ IH]; [reflexivity|].
  simpl map. rewrite concat_empty_cons. simpl append at 1.
  change (only_simple_tags (append (append (replace_char LF "<br/>" p) "</p>")
      (String.concat EmptyString
         (map (fun p => append "<p>" (append (replace_char LF "<br/>" p) "</p>")) ps))) = true).
  rewrite str_app_assoc, oss_replace_lf by assumption. exact IH.
Qed.

Lemma has_char_cons ch c r : has_char ch (String c r) = (Ascii.eqb c ch || has_char ch r)%bool.
Proof. reflexivity. Qed.

Lemma after_last_lf_suffix w t : after_last_lf w = Some t -> exists pre, w = append pre t.
Proof.
  revert t. induction w as [|c w IH]; simpl; intros t H; [discriminate|].
  destruct (after_last_lf w) as [t'|] eqn:E.
  - injection H as <-. destruct (IH t' eq_refl) as [pre ->]. exists (String c pre). reflexivity.
  - destruct (Ascii.eqb c LF); [|discriminate]. injection H as <-.
    exists (String c EmptyString). reflexivity.
Qed.

Lemma split_paras_aux_keeps ch cur pend s :
  ch <> LF -> has_char ch cur = false ->
  match pend with Some w => has_char ch w = false | None => True end ->
  has_char ch s = false ->
  Forall (fun p => has_char ch p = false) (split_paras_aux cur pend s).
Proof.
  intros Hlf. assert (Hl : Ascii.eqb LF ch = false) by (apply Ascii.eqb_neq; congruence).
  revert cur pend. induction s as [|c r IH]; intros cur pend Hc Hp Hs; cbn [split_paras_aux].
  - destruct pend as [w|]; [|auto].
    destruct (after_last_lf w) as [t|] eqn:E.
    + destruct (after_last_lf_suffix w t E) as [pre ->].
      rewrite has_char_app in Hp. apply Bool.orb_false_iff in Hp as [_ Hp]. auto.
    + constructor; [|constructor]. rewrite has_char_app, has_char_cons, Hc, Hl, Hp. reflexivity.
  - rewrite has_char_cons in Hs. apply Bool.orb_false_iff in Hs as [Ec Hs].
    destruct pend as [w|].
    + destruct (is_ws c).
      * apply IH; auto. rewrite has_char_app, has_char_cons, Hp, Ec. reflexivity.
      * destruct (after_last_lf w) as [t|] eqn:E.
        -- destruct (after_last_lf_suffix w t E) as [pre ->].
           rewrite has_char_app in Hp. apply Bool.orb_false_iff in Hp as [_ Hp].
           constructor; [assumption|]. apply IH; auto.
           rewrite has_char_app, has_char_cons, Hp, Ec. reflexivity.
        -- apply IH; auto. rewrite has_char_app, has_char_cons, has_char_app, has_char_cons.
           rewrite Hc, Hl, Hp, Ec. reflexivity.
    + destruct (Ascii.eqb c LF).
      * apply IH; auto.
      * apply IH; auto. rewrite has_char_app, has_char_cons, Hc, Ec. reflexivity.
Qed.

(** X6: every angle bracket of toSimpleHtml's output is part of a p or br tag. *)
Theorem toSimpleHtml_only_simple_tags s : only_simple_tags (toSimpleHtml s) = true.
Proof.
  unfold toSimpleHtml. cbv zeta. apply oss_paragraphs.
  destruct (escapeHtml_no_angle s) as [H1 H2].
  assert (F1 := split_paras_aux_keeps "<"%char EmptyString None (escapeHtml s) ltac:(discriminate) eq_refl I H1).
  assert (F2 := split_paras_aux_keeps ">"%char EmptyString None (escapeHtml s) ltac:(discriminate) eq_refl I H2).
  unfold split_paras. induction F1; inversion F2; subst; constructor; auto.
Qed.

Lemma ltrim_has_char ch s : has_char ch s = false -> has_char ch (ltrim s) = false.
Proof.
  induction s as [|c r IH]; intros H; [reflexivity|].
  rewrite has_char_cons in H. apply Bool.orb_false_iff in H as [H1 H2].
  cbn [ltrim]. destruct (is_ws c); [auto|rewrite has_char_cons, H1, H2; reflexivity].
Qed.

Lemma rtrim_has_char ch s : has_char ch s = false -> has_char ch (rtrim s) = false.
Proof.
  induction s as [|c r IH]; intros H; [reflexivity|].
  rewrite has_char_cons in H. apply Bool.orb_false_iff in H as [H1 H2].
  cbn [rtrim]. destruct (String.eqb (rtrim r) EmptyString && is_ws c)%bool; [reflexivity|].
  rewrite has_char_cons, H1, IH; auto.
Qed.

Lemma pipes_escaped_cons b c r :
  pipes_escaped b (String c r) =
  ((negb (Ascii.eqb c "|") || b) && pipes_escaped (Ascii.eqb c "\") r)%bool.
Proof. reflexivity. Qed.

Lemma pipes_escaped_replace b t : pipes_escaped b (replace_char "|"%char "\|" t) = true.
Proof.
  revert b. induction t as [|c t IH]; intros b; [reflexivity|].
  change (replace_char "|"%char "\|" (String c t)) with
    (if Ascii.eqb c "|" then append "\|" (replace_char "|"%char "\|" t)
     else String c (replace_char "|"%char "\|" t)).
  destruct (Ascii.eqb c "|") eqn:E.
  - change (pipes_escaped b (String "\" (String "|" (replace_char "|"%char "\|" t))) = true).
    rewrite !pipes_escaped_cons. simpl. apply IH.
  - rewrite pipes_escaped_cons, E. exact (IH _).
Qed.

Lemma pipes_escaped_ltrim s : pipes_escaped false s = true -> pipes_escaped false (ltrim s) = true.
Proof.
  induction s as [|c r IH]; intros H; [reflexivity|].
  cbn [ltrim]. destruct (is_ws c) eqn:W; [|exact H].
  apply IH. rewrite pipes_escaped_cons in H. apply Bool.andb_true_iff in H as [_ H].
  replace (Ascii.eqb c "\") with false in H; [exact H|].
  symmetry. apply Ascii.eqb_neq. intros ->. discriminate W.
Qed.

Lemma pipes_escaped_rtrim b s : pipes_escaped b s = true -> pipes_escaped b (rtrim s) = true.
Proof.
  revert b. induction s as [|c r IH]; intros b H; [reflexivity|].
  cbn [rtrim]. destruct (String.eqb (rtrim r) EmptyString && is_ws c)%bool; [reflexivity|].
  rewrite pipes_escaped_cons in *. apply Bool.andb_true_iff in H as [H1 H2].
  rewrite H1, IH; auto.
Qed.

(** X7: escapeMdInline output has no LF and all its pipes escaped. *)
Theorem escapeMdInline_table_cell s :
  has_char LF (escapeMdInline s) = false /\ pipes_escaped false (escapeMdInline s) = true.
Proof.
  unfold escapeMdInline, trim. split.
  - apply rtrim_has_char, ltrim_has_char, has_char_replace; [|reflexivity].
    apply has_char_replace_self. reflexivity.
  - apply pipes_escaped_rtrim, pipes_escaped_ltrim, pipes_escaped_replace.
Qed.

Lemma ltrim_app_nonws pre c y :
  is_ws c = false ->
  ltrim (append pre (String c y)) = append (ltrim (append pre (String c EmptyString))) y.
Proof.
  intros W. induction pre as [|a p IH]; cbn [append ltrim].
  - rewrite W. reflexivity.
  - destruct (is_ws a); [exact IH|]. cbn [append]. rewrite str_app_assoc. reflexivity.
Qed.

Lemma ltrim_last pre c :
  is_ws c = false -> exists pre', ltrim (append pre (String c EmptyString)) = append pre' (String c EmptyString).
Proof.
  intros W. induction pre as [|a p IH]; cbn [append ltrim].
  - rewrite W. exists EmptyString. reflexivity.
  - destruct (is_ws a); [exact IH|]. exists (String a p). reflexivity.
Qed.

Lemma rtrim_last pre c :
  is_ws c = false -> rtrim (append pre (String c EmptyString)) = append pre (String c EmptyString).
Proof.
  intros W. induction pre as [|a p IH]; cbn [append rtrim].
  - rewrite W. destruct (String.eqb EmptyString EmptyString); reflexivity.
  - change (rtrim (append p (String c EmptyString))) with (rtrim (append p (String c EmptyString))).
    rewrite IH. destruct p; reflexivity.
Qed.

Lemma ltrim_idem s : ltrim (ltrim s) = ltrim s.
Proof.
  induction s as [|c r IH]; [reflexivity|]. cbn [ltrim].
  destruct (is_ws c) eqn:W; [exact IH|]. cbn [ltrim]. rewrite W. reflexivity.
Qed.

Lemma prefix_app a b : String.prefix a (append a b) = true.
Proof.
  induction a as [|c a IH]; [destruct b; reflexivity|].
  cbn [append String.prefix]. destruct (ascii_dec c c); [exact IH | congruence].
Qed.

Lemma drop_word_all lang y :
  all_word lang = true -> drop_word (append lang (String LF y)) = String LF y.
Proof.
  induction lang as [|c l IH]; intros H; [reflexivity|].
  cbn [all_word] in H. apply Bool.andb_true_iff in H as [H1 H2].
  cbn [append drop_word]. rewrite H1. auto.
Qed.

Lemma str_app_last_inj x y c d :
  append x (String c EmptyString) = append y (String d EmptyString) -> x = y /\ c = d.
Proof.
  revert y. induction x as [|a x IH]; intros [|b y] H; cbn [append] in H.
  - injection H as ->. auto.
  - injection H as _ H. destruct y; discriminate H.
  - injection H as _ H. destruct x; discriminate H.
  - injection H as -> H. destruct (IH y H) as [-> ->]. auto.
Qed.

Lemma strip_close_fence_nl_body pre c :
  c <> CR ->
  strip_close_fence_nl (append (append pre (String c EmptyString)) (String LF FENCE)) =
  append pre (String c EmptyString).
Proof.
  intros Hc. induction pre as [|a p IH].
  - cbn [append strip_close_fence_nl].
    replace (String.eqb (String c (String LF FENCE)) (String CR (String LF FENCE))) with false.
    + rewrite (str_eqb_len (String c (String LF FENCE)) (String LF FENCE)) by (simpl; congruence).
      reflexivity.
    + symmetry. apply String.eqb_neq. intros H. injection H as H. exact (Hc H).
  - cbn [append strip_close_fence_nl]. rewrite !str_eqb_len.
    + cbn [orb]. rewrite IH. reflexivity.
    + cbn [String.length]. rewrite !str_length_app. cbn [String.length FENCE]. lia.
    + cbn [String.length]. rewrite !str_length_app. cbn [String.length FENCE]. lia.
Qed.

Lemma strip_close_fence_body pre c :
  c <> BT -> strip_close_fence (append pre (String c EmptyString)) = append pre (String c EmptyString).
Proof.
  intros Hc. induction pre as [|a p IH].
  - cbn [append strip_close_fence]. rewrite str_eqb_len by (simpl; congruence). reflexivity.
  - cbn [append strip_close_fence].
    replace (String.eqb (String a (append p (String c EmptyString))) FENCE) with false.
    + rewrite IH. reflexivity.
    + symmetry. apply String.eqb_neq. intros H.
      change (append (String a p) (String c EmptyString) =
              append (String BT (String BT EmptyString)) (String BT EmptyString)) in H.
      apply str_app_last_inj in H as [_ H]. exact (Hc H).
Qed.

(** X8: a fenced block with a language tag normalises to its trimmed body. *)
Theorem normalizeMarkdown_fence_roundtrip lang pre c :
  all_word lang = true -> is_ws c = false -> c <> BT ->
  normalizeMarkdown
    (JStr (append FENCE (append lang (String LF
       (append (append pre (String c EmptyString)) (String LF FENCE)))))) =
  trim (append pre (String c EmptyString)).
Proof.
  intros Hl Hw Hb.
  set (body := append pre (String c EmptyString)).
  set (s0 := append FENCE (append lang (String LF (append body (String LF FENCE))))).
  assert (Ht : trim s0 = s0).
  { unfold trim.
    replace (ltrim s0) with s0 by reflexivity.
    assert (E : s0 = append (append FENCE (append lang (String LF (append body
                  (String LF (String BT (String BT EmptyString))))))) (String BT EmptyString)).
    { unfold s0. rewrite !str_app_assoc. cbn [append]. rewrite !str_app_assoc. reflexivity. }
    rewrite E. apply rtrim_last. reflexivity. }
  unfold normalizeMarkdown. cbv zeta. rewrite Ht.
  unfold startsWith. unfold s0 at 1. rewrite prefix_app.
  unfold s0. cbn [strip_open_fence FENCE append].
  change (Ascii.eqb BT BT && Ascii.eqb BT BT && Ascii.eqb BT BT)%bool with true.
  cbv iota.
  rewrite drop_word_all by exact Hl.
  change (ltrim (String LF (append body (String LF FENCE)))) with (ltrim (append body (String LF FENCE))).
  unfold body. rewrite (str_app_assoc pre (String c EmptyString) (String LF FENCE)).
  change (append (String c EmptyString) (String LF FENCE)) with (String c (String LF FENCE)).
  rewrite (ltrim_app_nonws pre c (String LF FENCE) Hw).
  destruct (ltrim_last pre c Hw) as [pre' Hp]. rewrite Hp.
  rewrite strip_close_fence_nl_body.
  2: { intros ->. discriminate Hw. }
  rewrite strip_close_fence_body by exact Hb.
  rewrite <- Hp. unfold trim. rewrite ltrim_idem. reflexivity.
Qed.

Lemma crlf_to_lf_id s : has_char CR s = false -> Prompt.crlf_to_lf s = s.
Proof.
  induction s as [|c r IH]; intros H; [reflexivity|].
  rewrite has_char_cons in H. apply Bool.orb_false_iff in H as [H1 H2].
  cbn [Prompt.crlf_to_lf]. rewrite H1, IH by exact H2. reflexivity.
Qed.

Lemma split_on_nonempty sep s : split_on sep s <> [].
Proof.
  induction s as [|c r IH]; cbn [split_on]; [discriminate|].
  destruct (Ascii.eqb c sep); [discriminate|]. destruct (split_on sep r); discriminate.
Qed.

Lemma split_on_app sep x y :
  has_char sep x = false -> split_on sep (append x (String sep y)) = x :: split_on sep y.
Proof.
  induction x as [|c x IH]; intros H; cbn [append split_on].
  - rewrite Ascii.eqb_refl. reflexivity.
  - rewrite has_char_cons in H. apply Bool.orb_false_iff in H as [H1 H2].
    rewrite H1, IH by exact H2. reflexivity.
Qed.

Lemma concat_cons_sep sep x xs :
  xs <> [] -> String.concat sep (x :: xs) = append x (append sep (String.concat sep xs)).
Proof. destruct xs; [congruence|reflexivity]. Qed.

Lemma concat_split_on sep s : String.concat (String sep EmptyString) (split_on sep s) = s.
Proof.
  induction s as [|c r IH]; [reflexivity|]. cbn [split_on].
  destruct (Ascii.eqb c sep) eqn:E.
  - apply Ascii.eqb_eq in E. subst c.
    rewrite concat_cons_sep by apply split_on_nonempty. rewrite IH. reflexivity.
  - pose proof (split_on_nonempty sep r) as Hn.
    destruct (split_on sep r) as [|p ps] eqn:Hs; [congruence|].
    destruct ps as [|q qs].
    + cbn [String.concat] in IH |- *. rewrite IH. reflexivity.
    + rewrite concat_cons_sep in IH |- * by discriminate. rewrite <- IH. reflexivity.
Qed.

Lemma ltrim_head s :
  ltrim s = EmptyString \/ exists c r, ltrim s = String c r /\ is_ws c = false.
Proof.
  induction s as [|c r IH]; [left; reflexivity|]. cbn [ltrim].
  destruct (is_ws c) eqn:W; [exact IH|]. right. exists c, r. auto.
Qed.

Lemma rtrim_cons_nonws c r : is_ws c = false -> rtrim (String c r) = String c (rtrim r).
Proof.
  intros W. cbn [rtrim]. rewrite W, Bool.andb_false_r. reflexivity.
Qed.

Lemma ltrim_rtrim_ltrim s : ltrim (rtrim (ltrim s)) = rtrim (ltrim s).
Proof.
  destruct (ltrim_head s) as [->|(c & r & -> & W)]; [reflexivity|].
  rewrite rtrim_cons_nonws by exact W. cbn [ltrim]. rewrite W. reflexivity.
Qed.

Lemma rtrim_idem s : rtrim (rtrim s) = rtrim s.
Proof.
  induction s as [|c r IH]; [reflexivity|]. cbn [rtrim].
  destruct (String.eqb (rtrim r) EmptyString && is_ws c)%bool eqn:E; [reflexivity|].
  cbn [rtrim]. rewrite IH, E. reflexivity.
Qed.

Lemma trim_fix_parts s : trim s = s -> ltrim s = s /\ rtrim s = s.
Proof.
  unfold trim. intros H. split.
  - rewrite <- H at 1. rewrite ltrim_rtrim_ltrim. exact H.
  - rewrite <- H at 1. rewrite rtrim_idem. exact H.
Qed.

Lemma rtrim_app a b : rtrim b <> EmptyString -> rtrim (append a b) = append a (rtrim b).
Proof.
  intros Hb. induction a as [|c a IH]; [reflexivity|]. cbn [append rtrim]. rewrite IH.
  destruct (append a (rtrim b)) eqn:E.
  - destruct a; [cbn in E; congruence | discriminate E].
  - reflexivity.
Qed.

Lemma ltrim_app_blank a b : ltrim a = EmptyString -> ltrim (append a b) = ltrim b.
Proof.
  induction a as [|c a IH]; intros H; [reflexivity|]. cbn [ltrim append] in *.
  destruct (is_ws c); [auto|discriminate H].
Qed.

Lemma trim_empty_ltrim l : trim l = EmptyString -> ltrim l = EmptyString.
Proof.
  unfold trim. destruct (ltrim_head l) as [H|(c & r & H & W)]; [auto|].
  rewrite H, rtrim_cons_nonws by exact W. discriminate.
Qed.

Lemma trim_concat_drop_blank ls :
  trim (String.concat (String LF EmptyString) (Prompt.drop_blank ls)) =
  trim (String.concat (String LF EmptyString) ls).
Proof.
  induction ls as [|l rest IH]; [reflexivity|]. cbn [Prompt.drop_blank].
  destruct (nonempty (trim l)) eqn:N; [reflexivity|].
  unfold nonempty in N. apply Bool.negb_false_iff, String.eqb_eq in N.
  apply trim_empty_ltrim in N.
  rewrite IH. destruct rest as [|r rs].
  - cbn [String.concat]. unfold trim. rewrite N. reflexivity.
  - rewrite (concat_cons_sep _ l (r :: rs)) by discriminate. unfold trim.
    rewrite ltrim_app_blank by exact N. reflexivity.
Qed.

(** X9: a leading markdown heading equal to the title is removed. *)
Theorem removeLeadingTitleIfPresent_heading title body :
  trim title = title -> nonempty title = true -> has_line_term title = false ->
  has_char CR body = false ->
  Prompt.removeLeadingTitleIfPresent (append (append "# " title) (String LF body)) title =
  trim body.
Proof.
  intros Ht Hn Hlt Hcr.
  destruct (trim_fix_parts title Ht) as [Hl Hr].
  assert (Hlf : has_char LF title = false /\ has_char CR title = false).
  { clear -Hlt. induction title as [|c r IH]; [auto|].
    cbn [has_line_term] in Hlt. apply Bool.orb_false_iff in Hlt as [H1 H2].
    unfold is_line_term in H1. apply Bool.orb_false_iff in H1 as [E1 E2].
    rewrite !has_char_cons, E1, E2. apply IH, H2. }
  destruct Hlf as [Hlf Hcrt].
  unfold Prompt.removeLeadingTitleIfPresent. cbv zeta. rewrite Ht, Hn. cbn [negb].
  rewrite crlf_to_lf_id.
  2: { rewrite !has_char_app, Hcrt, (has_char_cons CR LF body), Hcr. reflexivity. }
  rewrite split_on_app.
  2: { rewrite has_char_app, Hlf. reflexivity. }
  assert (Htrim : trim (append "# " title) = append "# " title).
  { unfold trim. change (ltrim (append "# " title)) with (append "# " title).
    destruct title as [|c r] eqn:Et; [discriminate Hn|].
    rewrite rtrim_app; [rewrite Hr; reflexivity|]. rewrite Hr. discriminate. }
  cbn [Prompt.drop_blank]. rewrite Htrim.
  replace (nonempty (append "# " title)) with true by reflexivity.
  rewrite Htrim.
  replace (String.eqb (trim (strip_heading_marker (append "# " title))) title) with true.
  - rewrite Bool.orb_true_r. rewrite trim_concat_drop_blank, concat_split_on. reflexivity.
  - symmetry. apply String.eqb_eq.
    change (strip_heading_marker (append "# " title)) with (ltrim (String " " title)).
    cbn [ltrim]. replace (is_ws " ") with true by reflexivity. rewrite Hl. exact Ht.
Qed.

Lemma assoc_set_field_eq k v fs : assoc k (set_field k v fs) = Some v.
Proof.
  induction fs as [|[k' v'] fs IH]; cbn [set_field assoc].
  - rewrite String.eqb_refl. reflexivity.
  - destruct (String.eqb k k') eqn:E; cbn [assoc]; rewrite ?String.eqb_refl, ?E; auto.
Qed.

Lemma assoc_set_field_neq k k' v fs : k <> k' -> assoc k (set_field k' v fs) = assoc k fs.
Proof.
  intros Hne. apply String.eqb_neq in Hne.
  induction fs as [|[k2 v2] fs IH]; cbn [set_field assoc].
  - rewrite Hne. reflexivity.
  - destruct (String.eqb k' k2) eqn:E; cbn [assoc].
    + apply String.eqb_eq in E. subst k2. rewrite Hne. reflexivity.
    + rewrite IH. reflexivity.
Qed.

Lemma In_set_field k v k' v' fs :
  In (k, v) (set_field k' v' fs) -> (k = k' /\ v = v') \/ In (k, v) fs.
Proof.
  induction fs as [|[k2 v2] fs IH]; cbn [set_field].
  - intros [H|[]]. injection H as -> ->. auto.
  - destruct (String.eqb k' k2); intros [H|H].
    + injection H as -> ->. auto.
    + right. right. exact H.
    + right. left. exact H.
    + destruct (IH H) as [E|E]; [left; exact E|right; right; exact E].
Qed.

Lemma first_key_In props ks k : Versioned.first_key props ks = Some k -> In k props /\ In k ks.
Proof.
  induction ks as [|k0 ks IH]; cbn [Versioned.first_key]; [discriminate|].
  destruct (Versioned.has props k0) eqn:H; intros E.
  - injection E as <-. split; [|left; reflexivity].
    unfold Versioned.has in H. apply existsb_exists in H as [x [Hx Ex]].
    apply String.eqb_eq in Ex. subst. exact Hx.
  - destruct (IH E). split; [assumption | right; assumption].
Qed.

Lemma In_put_first k v props ks v0 a :
  In (k, v) (Versioned.put_first props ks v0 a) ->
  (In k props /\ In k ks /\ v = v0) \/ In (k, v) a.
Proof.
  unfold Versioned.put_first. destruct (Versioned.first_key props ks) as [k'|] eqn:F; [|auto].
  intros H. destruct (In_set_field _ _ _ _ _ H) as [[-> ->]|H']; [|auto].
  left. destruct (first_key_In _ _ _ F). auto.
Qed.

Lemma put_first_first props ks v0 a k :
  Versioned.first_key props ks = Some k -> assoc k (Versioned.put_first props ks v0 a) = Some v0.
Proof. unfold Versioned.put_first. intros ->. apply assoc_set_field_eq. Qed.

Lemma put_first_other props ks v0 a k :
  ~ In k ks -> assoc k (Versioned.put_first props ks v0 a) = assoc k a.
Proof.
  unfold Versioned.put_first. destruct (Versioned.first_key props ks) as [k'|] eqn:F; [|auto].
  intros Hk. apply assoc_set_field_neq. intros ->. apply Hk, (first_key_In _ _ _ F).
Qed.

(** X10: with a schema, the doc_get and table-list arguments use only schema
    keys, each value under the first key of its chain present. *)
Theorem mcp_get_args_follow_schema inputSchema boardId docId tableId :
  Versioned.schema_props inputSchema <> [] ->
  let props := Versioned.schema_props inputSchema in
  (match McpArgs.buildDocGetArgs inputSchema boardId docId with
   | JObj fs =>
       (forall k v, In (k, v) fs -> In k props) /\
       (forall k, Versioned.first_key props ["board_id"; "boardId"; "board"] = Some k ->
                  assoc k fs = Some (JStr boardId)) /\
       (forall k, Versioned.first_key props ["doc_id"; "docId"; "document_id"; "documentId"; "id"] = Some k ->
                  assoc k fs = Some (JStr docId))
   | _ => False
   end) /\
  (match McpArgs.buildTableListArgs inputSchema boardId tableId with
   | JObj fs =>
       (forall k v, In (k, v) fs -> In k props) /\
       (forall k, Versioned.first_key props ["board_id"; "boardId"; "board"] = Some k ->
                  assoc k fs = Some (JStr boardId)) /\
       (forall k, Versioned.first_key props ["table_id"; "tableId"; "table"; "id"] = Some k ->
                  assoc k fs = Some (JStr tableId)) /\
       (forall k, Versioned.first_key props ["limit"; "pageSize"; "page_size"] = Some k ->
                  assoc k fs = Some (JNum 100))
   | _ => False
   end).
Proof.
  intros Hp. unfold McpArgs.buildDocGetArgs, McpArgs.buildTableListArgs. cbv zeta.
  destruct (Versioned.schema_props inputSchema) as [|p ps]; [congruence|].
  split; split; [| split | | split; [|split]].
  - intros k v H.
    destruct (In_put_first _ _ _ _ _ _ H) as [(Hk & _)|H1]; [exact Hk|].
    destruct (In_put_first _ _ _ _ _ _ H1) as [(Hk & _)|[]]; exact Hk.
  - intros k F. rewrite put_first_other.
    + apply put_first_first. exact F.
    + apply first_key_In in F as [_ F]. simpl in F.
      intros Hk; simpl in Hk; intuition congruence.
  - intros k F. apply put_first_first. exact F.
  - intros k v H.
    destruct (In_put_first _ _ _ _ _ _ H) as [(Hk & _)|H1]; [exact Hk|].
    destruct (In_put_first _ _ _ _ _ _ H1) as [(Hk & _)|H2]; [exact Hk|].
    destruct (In_put_first _ _ _ _ _ _ H2) as [(Hk & _)|[]]; exact Hk.
  - intros k F. rewrite put_first_other, put_first_other.
    + apply put_first_first. exact F.
    + apply first_key_In in F as [_ F]. simpl in F.
      intros Hk; simpl in Hk; intuition congruence.
    + apply first_key_In in F as [_ F]. simpl in F.
      intros Hk; simpl in Hk; intuition congruence.
  - intros k F. rewrite put_first_other.
    + apply put_first_first. exact F.
    + apply first_key_In in F as [_ F]. simpl in F.
      intros Hk; simpl in Hk; intuition congruence.
  - intros k F. apply put_first_first. exact F.
Qed.

Lemma In_set_field_key k v k' v' fs :
  In (k, v) (set_field k' v' fs) -> k = k' \/ In (k, v) fs.
Proof. intros H. destruct (In_set_field _ _ _ _ _ H) as [[-> _]|H']; auto. Qed.

(** X11: with a schema, doc_update arguments use only schema keys and carry
    each of board, doc, find and replace under the first key of its chain. *)
Theorem buildDocUpdateArgs_follow_schema inputSchema boardId docId findText replaceText replaceAll version :
  Versioned.schema_props inputSchema <> [] ->
  let props := Versioned.schema_props inputSchema in
  match Versioned.buildDocUpdateArgs inputSchema boardId docId findText replaceText replaceAll version with
  | JObj fs =>
      (forall k v, In (k, v) fs -> In k props) /\
      (forall k, Versioned.first_key props ["board_id"; "boardId"; "board"] = Some k ->
                 assoc k fs = Some (JStr boardId)) /\
      (forall k, Versioned.first_key props ["doc_id"; "docId"; "document_id"; "documentId"; "id"] = Some k ->
                 assoc k fs = Some (JStr docId)) /\
      (forall k, Versioned.first_key props ["find"; "search"; "find_text"; "findText"; "search_text"; "from"; "match"] = Some k ->
                 assoc k fs = Some (JStr findText)) /\
      (forall k, Versioned.first_key props ["replace"; "replacement"; "replace_text"; "replaceText"; "to"] = Some k ->
                 assoc k fs = Some (JStr replaceText))
  | _ => False
  end.
Proof.
  intros Hp. unfold Versioned.buildDocUpdateArgs. cbv zeta.
  destruct (Versioned.schema_props inputSchema) as [|p ps]; [congruence|].
  set (props := p :: ps).
  set (a4 := Versioned.put_first props ["replace"; "replacement"; "replace_text"; "replaceText"; "to"]
               (JStr replaceText)
               (Versioned.put_first props ["find"; "search"; "find_text"; "findText"; "search_text"; "from"; "match"]
                  (JStr findText)
                  (Versioned.put_first props ["doc_id"; "docId"; "document_id"; "documentId"; "id"]
                     (JStr docId)
                     (Versioned.put_first props ["board_id"; "boardId"; "board"] (JStr boardId) [])))).
  set (a5 := match Versioned.first_key props ["replace_all"; "replaceAll"; "all_occurrences"; "allOccurrences"] with
             | Some k => set_field k (JBool replaceAll) a4
             | None => Versioned.put_first props ["occurrence"; "occurrences"]
                         (JStr (if replaceAll then "all" else "single")) a4
             end).
  set (ver := match version with Some JNull | None => None | Some v => Some v end).
  set (a6 := match ver with
             | Some v => Versioned.put_first props ["version"; "doc_version"; "docVersion"; "revision"] v a5
             | None => a5
             end).
  assert (Tail : forall k,
    ~ In k ["replace_all"; "replaceAll"; "all_occurrences"; "allOccurrences";
            "occurrence"; "occurrences"; "version"; "doc_version"; "docVersion"; "revision"] ->
    assoc k a6 = assoc k a4).
  { intros k Hk. unfold a6, a5.
    assert (E5 : assoc k (match Versioned.first_key props ["replace_all"; "replaceAll"; "all_occurrences"; "allOccurrences"] with
             | Some k => set_field k (JBool replaceAll) a4
             | None => Versioned.put_first props ["occurrence"; "occurrences"]
                         (JStr (if replaceAll then "all" else "single")) a4
             end) = assoc k a4).
    { destruct (Versioned.first_key props _) as [k'|] eqn:F.
      - apply assoc_set_field_neq. intros ->. apply first_key_In in F as [_ F].
        apply Hk. simpl in F |- *. tauto.
      - apply put_first_other. intros H. apply Hk. simpl in H |- *. tauto. }
    destruct ver as [v|].
    - rewrite put_first_other; [exact E5|]. intros H. apply Hk. simpl in H |- *. tauto.
    - exact E5. }
  change (match a6 with
          | [] => JObj a6 | _ :: _ => JObj a6 end) with (JObj a6).
  split; [|split; [|split; [|split]]].
  - intros k v H. unfold a6, a5, a4 in H.
    repeat match type of H with
    | In _ (Versioned.put_first _ _ _ _) =>
        apply In_put_first in H as [(Hk & _)|H]; [exact Hk|]
    | In _ (set_field _ _ _) => apply In_set_field_key in H as [->|H]
    | In _ (match ?m with _ => _ end) => destruct m eqn:?
    | In _ [] => destruct H
    end.
    all: match goal with
         | F : Versioned.first_key _ _ = Some ?s |- In ?s _ => exact (proj1 (first_key_In _ _ _ F))
         end.
  - intros k F. pose proof (proj2 (first_key_In _ _ _ F)) as Hk.
    rewrite Tail by (simpl in Hk |- *; intuition congruence).
    unfold a4. rewrite !put_first_other by (simpl in Hk |- *; intuition congruence).
    apply put_first_first. exact F.
  - intros k F. pose proof (proj2 (first_key_In _ _ _ F)) as Hk.
    rewrite Tail by (simpl in Hk |- *; intuition congruence).
    unfold a4. rewrite put_first_other, put_first_other by (simpl in Hk |- *; intuition congruence).
    apply put_first_first. exact F.
  - intros k F. pose proof (proj2 (first_key_In _ _ _ F)) as Hk.
    rewrite Tail by (simpl in Hk |- *; intuition congruence).
    unfold a4. rewrite put_first_other by (simpl in Hk |- *; intuition congruence).
    apply put_first_first. exact F.
  - intros k F. pose proof (proj2 (first_key_In _ _ _ F)) as Hk.
    rewrite Tail by (simpl in Hk |- *; intuition congruence).
    unfold a4. apply put_first_first. exact F.
Qed.

(** X12: a null or missing version never puts a version key in doc_update
    arguments. *)
Theorem buildDocUpdateArgs_no_null_version inputSchema boardId docId findText replaceText replaceAll version :
  version = None \/ version = Some JNull ->
  match Versioned.buildDocUpdateArgs inputSchema boardId docId findText replaceText replaceAll version with
  | JObj fs => forall k v, In (k, v) fs -> ~ In k ["version"; "doc_version"; "docVersion"; "revision"]
  | _ => False
  end.
Proof.
  intros Hv. unfold Versioned.buildDocUpdateArgs. cbv zeta.
  replace (match version with Some JNull | None => None | Some v => Some v end) with (@None json)
    by (destruct Hv as [->| ->]; reflexivity).
  intros k v H.
  assert (Hk : In k ["board_id"; "boardId"; "board"; "doc_id"; "docId"; "document_id"; "documentId"; "id";
                     "find"; "search"; "find_text"; "findText"; "search_text"; "from"; "match";
                     "replace"; "replacement"; "replace_text"; "replaceText"; "to";
                     "replace_all"; "replaceAll"; "all_occurrences"; "allOccurrences";
                     "occurrence"; "occurrences"]).
  { destruct (Versioned.schema_props inputSchema) as [|p ps] eqn:Ep; cbv iota zeta beta in H;
    repeat match type of H with
    | In _ (Versioned.put_first _ _ _ _) =>
        apply In_put_first in H as [(_ & Hk & _)|H]; [simpl in Hk |- *; tauto|]
    | In _ (set_field _ _ _) => apply In_set_field_key in H as [->|H]
    | In _ (match ?m with _ => _ end) => destruct m eqn:?
    | In _ [] => destruct H
    end;
    try match goal with
    | F : Versioned.first_key _ _ = Some ?s |- In ?s _ =>
        apply first_key_In in F as [_ F]; simpl in F |- *; tauto
    end.
    all: simpl; tauto. }
  simpl in Hk |- *. intuition congruence.
Qed.

Lemma row_of_width js_String stringify columns r :
  Forall (fun row => length row = length columns) (Table.row_of js_String stringify columns r).
Proof.
  unfold Table.row_of, Table.cells_of. destruct r; cbv zeta; try constructor.
  - rewrite length_map, length_seq. reflexivity.
  - constructor.
  - destruct (get "cells" (Some (JObj fields))) as [[]|];
      try (destruct (truthy _ && is_object _)%bool);
      repeat constructor; rewrite ?length_map, ?length_seq; reflexivity.
Qed.

Lemma row_of_count js_String stringify columns r :
  length (Table.row_of js_String stringify columns r) = if is_object (Some r) then 1%nat else 0%nat.
Proof.
  unfold Table.row_of. destruct r; cbv zeta; try reflexivity.
  destruct (get "cells" (Some (JObj fields))) as [[]|];
    try (destruct (truthy _ && is_object _)%bool); reflexivity.
Qed.

Lemma normalizeRows_width js_String stringify raw columns :
  Forall (fun row => length row = length columns) (Table.normalizeRows js_String stringify raw columns).
Proof.
  unfold Table.normalizeRows. destruct raw as [[]|]; try constructor.
  induction l as [|r rs IH]; [constructor|]. cbn [flat_map].
  apply Forall_app. split; [apply row_of_width|exact IH].
Qed.

(** X13: normalizeRows gives one row per object or array entry, each as wide
    as the column list. *)
Theorem normalizeRows_shape js_String stringify rs columns :
  length (Table.normalizeRows js_String stringify (Some (JArr rs)) columns) =
    length (filter (fun r => is_object (Some r)) rs) /\
  Forall (fun row => length row = length columns)
    (Table.normalizeRows js_String stringify (Some (JArr rs)) columns).
Proof.
  split; [|apply normalizeRows_width].
  unfold Table.normalizeRows. induction rs as [|r rs IH]; [reflexivity|].
  cbn [flat_map filter]. rewrite length_app, row_of_count, IH.
  destruct (is_object (Some r)); reflexivity.
Qed.

Lemma table_of_width js_String stringify o :
  let t := Table.table_of js_String stringify o in
  Forall (fun row => length row = length (fst t)) (snd t).
Proof. unfold Table.table_of. cbv zeta. cbn [fst snd]. apply normalizeRows_width. Qed.

(** X14: parseTableListRowsCall throws only on a truthy error field, with the
    MCP error prefix; its table rows are as wide as its columns. *)
Theorem parseTableListRowsCall_shape js_String stringify json_parse callResp :
  match Table.parseTableListRowsCall js_String stringify json_parse callResp with
  | Ok (cols, rows) => Forall (fun row => length row = length cols) rows
  | Err m => truthy (get "error" (Some callResp)) = true /\
             exists msg, m = append "MCP tools/call error: " msg
  end.
Proof.
  unfold Table.parseTableListRowsCall. cbv zeta.
  destruct (negb (is_object (Some callResp))); [constructor|].
  destruct (truthy (get "error" (Some callResp))) eqn:E; [split; [reflexivity|eexists; reflexivity]|].
  match goal with |- context [if (truthy ?s && is_object ?s)%bool then _ else _] =>
    destruct (truthy s && is_object s)%bool end.
  - apply (table_of_width js_String stringify).
  - match goal with |- context [find Table.is_text_part ?l] => destruct (find Table.is_text_part l) end;
      [|constructor].
    match goal with |- context [as_string ?x] => destruct (as_string x) end; [|constructor].
    match goal with |- context [nonempty ?t] => destruct (nonempty t) end; [|constructor].
    match goal with |- context [json_parse ?t] => destruct (json_parse t) as [[]|] end;
      try constructor; apply (table_of_width js_String stringify).
Qed.

Lemma last_default_irrelevant {A : Type} (ms : list A) (d1 d2 : A) :
  ms <> [] -> last ms d1 = last ms d2.
Proof.
  induction ms as [|m ms IH]; [congruence|]. intros _.
  destruct ms as [|m' ms']; [reflexivity|]. apply IH. discriminate.
Qed.

Lemma last_cons_default {A : Type} (o : A) (ms : list A) (d : A) : last (o :: ms) d = last ms o.
Proof.
  destruct ms as [|m ms]; [reflexivity|].
  change (last (m :: ms) d = last (m :: ms) o). apply last_default_irrelevant. discriminate.
Qed.

Lemma sse_loop_spec json_parse d lines lastJson :
  Sse.sse_loop json_parse d lines lastJson =
  match find (Sse.is_desired d) (sse_messages json_parse lines) with
  | Some o => o
  | None => last (sse_messages json_parse lines) lastJson
  end.
Proof.
  revert lastJson. induction lines as [|l rest IH]; intros lastJson; [reflexivity|].
  cbn [Sse.sse_loop]. unfold sse_messages at 1 2. cbn [flat_map]. fold (sse_messages json_parse rest).
  destruct (Sse.sse_payload l) as [p|]; [|apply IH].
  destruct (json_parse p) as [o|]; [|apply IH].
  cbn [app find]. destruct (Sse.is_desired d o); [reflexivity|].
  rewrite IH. destruct (find _ _); [reflexivity|].
  rewrite last_cons_default. reflexivity.
Qed.

(** X15: parseSseForJsonRpc returns the first parsed data message with the
    wanted id, else the last parsed data message, else null. *)
Theorem parseSseForJsonRpc_spec json_parse sseText desiredId :
  let ms := sse_messages json_parse (split_on LF sseText) in
  Sse.parseSseForJsonRpc json_parse sseText desiredId =
  match find (Sse.is_desired desiredId) ms with
  | Some o => o
  | None => last ms JNull
  end.
Proof. apply sse_loop_spec. Qed.

Lemma assoc_assign k acc src :
  NoDup (map fst src) ->
  assoc k (assign acc src) = match assoc k src with Some v => Some v | None => assoc k acc end.
Proof.
  revert acc. induction src as [|[k' v'] src IH]; intros acc Hn; [reflexivity|].
  cbn [map fst] in Hn. inversion Hn as [|? ? Hnin Hn']; subst.
  unfold assign. cbn [fold_left fst snd]. fold (assign (set_field k' v' acc) src).
  rewrite IH by exact Hn'. cbn [assoc].
  destruct (String.eqb k k') eqn:E.
  - apply String.eqb_eq in E. subst k'.
    destruct (assoc k src) eqn:A.
    + exfalso. apply Hnin. clear -A. induction src as [|[a b] src IH]; [discriminate|].
      cbn [assoc] in A. destruct (String.eqb k a) eqn:E.
      * apply String.eqb_eq in E. subst. left. reflexivity.
      * right. apply IH, A.
    + apply assoc_set_field_eq.
  - destruct (assoc k src); [reflexivity|]. apply assoc_set_field_neq.
    apply String.eqb_neq, E.
Qed.

Lemma set_field_nonempty k v fs : set_field k v fs <> [].
Proof. destruct fs as [|[a b] fs]; cbn [set_field]; [|destruct (String.eqb k a)]; discriminate. Qed.

Lemma assign_nonempty acc src : acc ++ src <> [] -> assign acc src <> [].
Proof.
  revert acc. induction src as [|[k v] src IH]; intros acc H.
  - rewrite app_nil_r in H. exact H.
  - unfold assign. cbn [fold_left fst snd]. fold (assign (set_field k v acc) src).
    apply IH. pose proof (set_field_nonempty k v acc). destruct (set_field k v acc); [congruence|discriminate].
Qed.

(** X16: in the merge of an item with its details, a top-level field comes
    from the item when it has it, else from the details; inside data the
    details win. *)
Theorem mergeListItemAndDetails_lookup lf df :
  NoDup (map fst lf) -> NoDup (map fst df) ->
  (forall k, k <> "data" ->
     get k (Some (mergeListItemAndDetails (JObj lf) (JObj df))) =
     match assoc k lf with Some v => Some v | None => assoc k df end) /\
  (forall ld dd, assoc "data" lf = Some (JObj ld) -> assoc "data" df = Some (JObj dd) ->
     NoDup (map fst ld) -> NoDup (map fst dd) -> ld ++ dd <> [] ->
     exists data, get "data" (Some (mergeListItemAndDetails (JObj lf) (JObj df))) = Some (JObj data) /\
       forall j, assoc j data = match assoc j dd with Some v => Some v | None => assoc j ld end).
Proof.
  intros Hl Hd.
  set (m0 := assign (assign [] df) lf).
  assert (Hm0 : forall k, assoc k m0 = match assoc k lf with Some v => Some v | None => assoc k df end).
  { intros k. unfold m0. rewrite assoc_assign by exact Hl. rewrite assoc_assign by exact Hd.
    destruct (assoc k lf); [reflexivity|]. destruct (assoc k df); reflexivity. }
  set (m1 := if truthy (get "id" (Some (JObj lf)))
             then match get "id" (Some (JObj lf)) with Some i => set_field "id" i m0 | None => m0 end
             else m0).
  assert (Hm1 : forall k, assoc k m1 = assoc k m0).
  { intros k. unfold m1. cbn [get].
    destruct (truthy (assoc "id" lf)); [|reflexivity].
    destruct (assoc "id" lf) as [i|] eqn:Ei; [|reflexivity].
    destruct (String.eqb k "id") eqn:E.
    - apply String.eqb_eq in E. subst. rewrite assoc_set_field_eq, Hm0, Ei. reflexivity.
    - apply assoc_set_field_neq, String.eqb_neq, E. }
  unfold mergeListItemAndDetails. cbv zeta. fold m0. fold m1. cbn [fields_of].
  split.
  - intros k Hk. cbn [get].
    match goal with |- context [match ?d with [] => _ | _ :: _ => _ end] => destruct d end.
    + rewrite Hm1, Hm0. reflexivity.
    + rewrite assoc_set_field_neq by exact Hk. rewrite Hm1, Hm0. reflexivity.
  - intros ld dd El Ed Nl Nd Hne. cbn [get]. rewrite El, Ed. cbn [truthy is_object andb fields_of].
    pose proof (assign_nonempty ld dd Hne) as Ha.
    destruct (assign ld dd) as [|p ps] eqn:Eas; [congruence|].
    exists (p :: ps). split.
    + apply assoc_set_field_eq.
    + intros j. rewrite <- Eas, assoc_assign by exact Nd. reflexivity.
Qed.

Lemma item_candidate_details get_doc wanted it d :
  item_candidate get_doc wanted it = Some d ->
  is_doc_format it = true /\
  ((extractItemTitle it = wanted /\
    d = fetch_details get_doc (match get "id" (Some it) with Some i => i | None => JNull end)) \/
   (get_doc (match get "id" (Some it) with Some i => i | None => JNull end) = Some d /\
    extractDocFormatTitleFromContent d = wanted)).
Proof.
  unfold item_candidate.
  destruct (is_object (Some it)); cbn [negb]; [|discriminate].
  destruct (is_doc_format it); cbn [negb]; [|discriminate].
  destruct (truthy (get "id" (Some it))); cbn [negb]; [|discriminate]. cbv zeta.
  destruct (String.eqb (extractItemTitle it) wanted) eqn:E.
  - intros H. injection H as <-. apply String.eqb_eq in E. auto.
  - destruct (get_doc _) as [x|] eqn:Eg; [|discriminate].
    destruct (String.eqb (extractDocFormatTitleFromContent x) wanted) eqn:E2; [|discriminate].
    intros H. injection H as <-. apply String.eqb_eq in E2. auto.
Qed.

Lemma scan_items_sound get_doc wanted items best ba :
  (forall m, scan_items get_doc wanted items best ba = Return m ->
     exists it d, In it items /\ item_candidate get_doc wanted it = Some d /\
                  m = mergeListItemAndDetails it d) /\
  (forall b ba', scan_items get_doc wanted items best ba = Continue b ba' ->
     b = best \/ exists it d, In it items /\ item_candidate get_doc wanted it = Some d /\
                              b = Some (mergeListItemAndDetails it d)).
Proof.
  revert best ba. induction items as [|it rest IH]; intros best ba.
  - split; intros; cbn [scan_items] in *; [discriminate|]. injection H as <- _. auto.
  - cbn [scan_items]. destruct (item_candidate get_doc wanted it) as [d|] eqn:Ec.
    + destruct (is_placeholder wanted d).
      * split; intros; [|discriminate]. injection H as <-. exists it, d. split; [left|]; auto.
      * cbv zeta.
        assert (Lift : forall best' ba',
          (best' = best \/ best' = Some (mergeListItemAndDetails it d)) ->
          (forall m, scan_items get_doc wanted rest best' ba' = Return m ->
             exists it0 d0, In it0 (it :: rest) /\ item_candidate get_doc wanted it0 = Some d0 /\
                            m = mergeListItemAndDetails it0 d0) /\
          (forall b ba'', scan_items get_doc wanted rest best' ba' = Continue b ba'' ->
             b = best \/ exists it0 d0, In it0 (it :: rest) /\ item_candidate get_doc wanted it0 = Some d0 /\
                                        b = Some (mergeListItemAndDetails it0 d0))).
        { intros best' ba' Hb. destruct (IH best' ba') as [IR IC]. split.
          - intros m Hm. destruct (IR m Hm) as (it0 & d0 & Hi & Hc & ->).
            exists it0, d0. split; [right|]; auto.
          - intros b ba'' Hm. destruct (IC b ba'' Hm) as [->|(it0 & d0 & Hi & Hc & ->)].
            + destruct Hb as [->| ->]; [auto|]. right. exists it, d. split; [left|]; auto.
            + right. exists it0, d0. split; [right|]; auto. }
        destruct best as [x|].
        -- destruct (Z.ltb ba (geometryArea it)); apply Lift; auto.
        -- apply Lift; auto.
    + destruct (IH best ba) as [IR IC]. split.
      * intros m Hm. destruct (IR m Hm) as (it0 & d0 & Hi & Hc & ->).
        exists it0, d0. split; [right|]; auto.
      * intros b ba' Hm. destruct (IC b ba' Hm) as [->|(it0 & d0 & Hi & Hc & ->)]; [auto|].
        right. exists it0, d0. split; [right|]; auto.
Qed.

Lemma scan_items_keeps_some get_doc wanted items x ba b ba' :
  scan_items get_doc wanted items (Some x) ba = Continue b ba' -> b <> None.
Proof.
  revert x ba. induction items as [|it rest IH]; intros x ba H; cbn [scan_items] in H.
  - injection H as <- _. discriminate.
  - destruct (item_candidate get_doc wanted it); [|eapply IH; exact H].
    destruct (is_placeholder wanted j); [discriminate|]. cbv zeta in H.
    destruct (Z.ltb ba (geometryArea it)); eapply IH; exact H.
Qed.

Lemma scan_items_none get_doc wanted items ba b ba' :
  scan_items get_doc wanted items None ba = Continue b ba' -> b = None ->
  forall it, In it items -> item_candidate get_doc wanted it = None.
Proof.
  revert ba. induction items as [|it0 rest IH]; intros ba H Hb it Hi; [destruct Hi|].
  cbn [scan_items] in H. destruct (item_candidate get_doc wanted it0) as [d|] eqn:Ec.
  - exfalso. destruct (is_placeholder wanted d); [discriminate|]. cbv zeta in H.
    exact (scan_items_keeps_some _ _ _ _ _ _ _ H Hb).
  - destruct Hi as [<-|Hi]; [exact Ec|]. exact (IH _ H Hb it Hi).
Qed.

Lemma page_loop_sound get_page get_doc wanted n :
  forall cursor best ba,
  match fst (page_loop get_page get_doc wanted n cursor best ba) with
  | Ok (Some m) =>
      best = Some m \/
      exists c page it d, In c (snd (page_loop get_page get_doc wanted n cursor best ba)) /\
        get_page c = Some page /\ In it (page_items page) /\
        item_candidate get_doc wanted it = Some d /\ m = mergeListItemAndDetails it d
  | Ok None =>
      best = None /\
      forall c page it, In c (snd (page_loop get_page get_doc wanted n cursor best ba)) ->
        get_page c = Some page -> In it (page_items page) -> item_candidate get_doc wanted it = None
  | Err _ => True
  end.
Proof.
  induction n as [|n IH]; intros cursor best ba.
  - cbn [page_loop fst snd]. destruct best; [left; reflexivity|]. split; [reflexivity|]. intros c p it [].
  - cbn [page_loop]. destruct (get_page cursor) as [page|] eqn:Ep; [|exact I].
    destruct (scan_items_sound get_doc wanted (page_items page) best ba) as [SR SC].
    destruct (scan_items get_doc wanted (page_items page) best ba) as [m|b ba'] eqn:Es.
    + cbn [fst snd]. right. destruct (SR m eq_refl) as (it & d & Hi & Hc & ->).
      exists cursor, page, it, d. split; [left; reflexivity|]. auto.
    + destruct (extractNextCursor page) as [c|] eqn:En.
      * specialize (IH (Some c) b ba').
        destruct (page_loop get_page get_doc wanted n (Some c) b ba') as [r tr] eqn:El.
        cbn [fst snd] in IH |- *. destruct r as [[m|]|]; [| |exact I].
        -- destruct IH as [->|(c0 & p0 & it & d & Hc0 & Hp0 & Hi & Hcd & ->)].
           ++ destruct (SC _ _ eq_refl) as [<-|(it & d & Hi & Hc & Hb)]; [left; reflexivity|].
              injection Hb as ->. right. exists cursor, page, it, d.
              split; [left; reflexivity|]. auto.
           ++ right. exists c0, p0, it, d. split; [right; exact Hc0|]. auto.
        -- destruct IH as [Hb Hall].
           destruct (SC _ _ eq_refl) as [<-|(it & d & _ & _ & Hb')]; [|congruence].
           split; [exact Hb|]. intros c0 p0 it [<-|Hc0] Hp0 Hi.
           ++ rewrite Ep in Hp0. injection Hp0 as <-.
              subst b. exact (scan_items_none _ _ _ _ _ _ Es eq_refl it Hi).
           ++ exact (Hall c0 p0 it Hc0 Hp0 Hi).
      * cbn [fst snd]. destruct b as [m|].
        -- destruct (SC _ _ eq_refl) as [<-|(it & d & Hi & Hc & Hb)]; [left; reflexivity|].
           injection Hb as ->. right. exists cursor, page, it, d. split; [left; reflexivity|]. auto.
        -- destruct (SC _ _ eq_refl) as [<-|(it & d & _ & _ & Hb')]; [|congruence].
           split; [reflexivity|]. intros c0 p0 it [<-|[]] Hp0 Hi.
           rewrite Ep in Hp0. injection Hp0 as <-.
           exact (scan_items_none _ _ _ _ _ _ Es eq_refl it Hi).
Qed.

(** X17: a document findDocFormatByTitle returns is the merge of a
    doc_format item of a fetched page with that item's details: either its
    list title is the trimmed title and the details are what [/docs/{id}]
    of its id answered ([null] when that throws), or [/docs/{id}] of its id
    answered details whose derived title is the trimmed title. A null
    answer means no fetched page had a matching item. *)
Theorem findDocFormatByTitle_sound get_page get_doc title :
  let r := findDocFormatByTitle get_page get_doc title in
  match fst r with
  | Ok (Some m) =>
      exists c page it d, In c (snd r) /\ get_page c = Some page /\ In it (page_items page) /\
        item_candidate get_doc (trim title) it = Some d /\
        is_doc_format it = true /\
        ((extractItemTitle it = trim title /\
          d = fetch_details get_doc (match get "id" (Some it) with Some i => i | None => JNull end)) \/
         (get_doc (match get "id" (Some it) with Some i => i | None => JNull end) = Some d /\
          extractDocFormatTitleFromContent d = trim title)) /\
        m = mergeListItemAndDetails it d
  | Ok None =>
      forall c page it, In c (snd r) -> get_page c = Some page -> In it (page_items page) ->
        item_candidate get_doc (trim title) it = None
  | Err _ => True
  end.
Proof.
  unfold findDocFormatByTitle. cbv zeta.
  destruct (String.eqb (trim title) EmptyString); [intros c p it []|].
  pose proof (page_loop_sound get_page get_doc (trim title) 100 None None (-1)) as H.
  destruct (page_loop get_page get_doc (trim title) 100 None None (-1)) as [r tr].
  cbn [fst snd] in H |- *. destruct r as [[m|]|]; [| |exact I].
  - destruct H as [H|(c & p & it & d & Hc & Hp & Hi & Hcd & ->)]; [discriminate|].
    destruct (item_candidate_details _ _ _ _ Hcd) as [Hf Ht].
    exists c, p, it, d. auto 7.
  - exact (proj2 H).
Qed.

Lemma first_match_sound wanted items :
  match first_match wanted items with
  | Some it => exists pre post, items = pre ++ it :: post /\
      is_object (Some it) = true /\ is_doc_format it = true /\ extractItemTitle it = wanted /\
      forall x, In x pre -> is_object (Some x) = true -> is_doc_format x = true ->
                extractItemTitle x <> wanted
  | None => forall x, In x items -> is_object (Some x) = true -> is_doc_format x = true ->
                extractItemTitle x <> wanted
  end.
Proof.
  induction items as [|it rest IH]; cbn [first_match]; [intros x []|].
  destruct (is_object (Some it)) eqn:Eo; cbn [negb].
  - destruct (is_doc_format it) eqn:Ed; cbn [negb].
    + destruct (String.eqb (extractItemTitle it) wanted) eqn:Et.
      * exists [], rest. apply String.eqb_eq in Et. repeat split; auto; intros x [].
      * destruct (first_match wanted rest) as [m|].
        -- destruct IH as (pre & post & -> & H1 & H2 & H3 & H4).
           exists (it :: pre), post. repeat split; auto.
           intros x [<-|Hx] Hxo Hxd; [apply String.eqb_neq, Et|auto].
        -- intros x [<-|Hx] Hxo Hxd; [apply String.eqb_neq, Et|auto].
    + destruct (first_match wanted rest) as [m|].
      * destruct IH as (pre & post & -> & H1 & H2 & H3 & H4).
        exists (it :: pre), post. repeat split; auto.
        intros x [<-|Hx] Hxo Hxd; [congruence|auto].
      * intros x [<-|Hx] Hxo Hxd; [congruence|auto].
  - destruct (first_match wanted rest) as [m|].
    + destruct IH as (pre & post & -> & H1 & H2 & H3 & H4).
      exists (it :: pre), post. repeat split; auto.
      intros x [<-|Hx] Hxo Hxd; [congruence|auto].
    + intros x [<-|Hx] Hxo Hxd; [congruence|auto].
Qed.

Lemma page_loop_first_sound get_page wanted n :
  forall cursor,
  let r := page_loop_first get_page wanted n cursor in
  match fst r with
  | Ok (Some it) =>
      exists tr0 c page pre post, snd r = tr0 ++ [c] /\ get_page c = Some page /\
        page_items page = pre ++ it :: post /\
        is_object (Some it) = true /\ is_doc_format it = true /\ extractItemTitle it = wanted /\
        (forall x, In x pre -> is_object (Some x) = true -> is_doc_format x = true ->
                   extractItemTitle x <> wanted) /\
        (forall c' page' x, In c' tr0 -> get_page c' = Some page' -> In x (page_items page') ->
           is_object (Some x) = true -> is_doc_format x = true -> extractItemTitle x <> wanted)
  | Ok None =>
      forall c page x, In c (snd r) -> get_page c = Some page -> In x (page_items page) ->
        is_object (Some x) = true -> is_doc_format x = true -> extractItemTitle x <> wanted
  | Err _ => True
  end.
Proof.
  induction n as [|n IH]; intros cursor; cbv zeta.
  - intros c p x [].
  - cbn [page_loop_first]. destruct (get_page cursor) as [page|] eqn:Ep; [|exact I].
    pose proof (first_match_sound wanted (page_items page)) as Hf.
    destruct (first_match wanted (page_items page)) as [it|].
    + destruct Hf as (pre & post & Hs & H1 & H2 & H3 & H4). cbn [fst snd].
      exists [], cursor, page, pre, post. split; [reflexivity|].
      repeat split; auto; intros c' p' x [].
    + destruct (extractNextCursor page) as [c|].
      * specialize (IH (Some c)). cbv zeta in IH.
        destruct (page_loop_first get_page wanted n (Some c)) as [r tr].
        cbn [fst snd] in IH |- *. destruct r as [[it|]|]; [| |exact I].
        -- destruct IH as (tr0 & c0 & p0 & pre & post & Htr & Hp0 & Hs & H1 & H2 & H3 & H4 & H5).
           exists (cursor :: tr0), c0, p0, pre, post.
           split; [rewrite Htr; reflexivity|]. repeat split; auto.
           intros c' p' x [<-|Hc] Hp Hx.
           ++ rewrite Ep in Hp. injection Hp as <-. auto.
           ++ eauto.
        -- intros c0 p0 x [<-|Hc] Hp Hx.
           ++ rewrite Ep in Hp. injection Hp as <-. auto.
           ++ eauto.
      * cbn [fst snd]. intros c0 p0 x [<-|[]] Hp Hx.
        rewrite Ep in Hp. injection Hp as <-. auto.
Qed.

(** X18: the analyze-selected-pdf locator returns the first doc_format item
    in fetch order whose list title is the trimmed title: it is on the
    last page fetched, no item before it on that page matches, and no
    item of an earlier fetched page matches; a null answer means no
    fetched page had one. *)
Theorem findDocFormatByTitle_first_sound get_page title :
  let r := findDocFormatByTitle_first get_page title in
  match fst r with
  | Ok (Some it) =>
      exists tr0 c page pre post, snd r = tr0 ++ [c] /\ get_page c = Some page /\
        page_items page = pre ++ it :: post /\
        is_doc_format it = true /\ extractItemTitle it = trim title /\
        (forall x, In x pre -> is_object (Some x) = true -> is_doc_format x = true ->
                   extractItemTitle x <> trim title) /\
        (forall c' page' x, In c' tr0 -> get_page c' = Some page' -> In x (page_items page') ->
           is_object (Some x) = true -> is_doc_format x = true -> extractItemTitle x <> trim title)
  | Ok None =>
      forall c page x, In c (snd r) -> get_page c = Some page -> In x (page_items page) ->
        is_object (Some x) = true -> is_doc_format x = true -> extractItemTitle x <> trim title
  | Err _ => True
  end.
Proof.
  unfold findDocFormatByTitle_first. cbv zeta.
  destruct (String.eqb (trim title) EmptyString); [intros c p x []|].
  pose proof (page_loop_first_sound get_page (trim title) 100 None) as H. cbv zeta in H.
  destruct (fst (page_loop_first get_page (trim title) 100 None)) as [[it|]|]; [| |exact I].
  - destruct H as (tr0 & c & p & pre & post & Htr & Hp & Hs & _ & H2 & H3 & H4 & H5).
    exists tr0, c, p, pre, post. auto 8.
  - exact H.
Qed.

Lemma update_loop_done js_String stringify mcp_call inputSchema boardId docId version i cs atts tr :
  Versioned.update_loop js_String stringify mcp_call inputSchema boardId docId version i cs true atts tr
  = (true, atts, tr).
Proof. destruct cs; reflexivity. Qed.

Lemma update_loop_success js_String stringify mcp_call inputSchema boardId docId version cs :
  forall i atts tr atts' tr',
  (forall c, In c cs -> nonempty (Versioned.c_find c) = true) ->
  Versioned.update_loop js_String stringify mcp_call inputSchema boardId docId version i cs false atts tr
    = (true, atts', tr') ->
  exists pre a trn, atts' = atts ++ pre ++ [a] /\ Versioned.a_ok a = true /\
    (forall x, In x pre -> Versioned.a_ok x = false) /\
    tr' = tr ++ trn /\ length trn = S (length pre) /\
    is_prefix (map Versioned.a_reason (pre ++ [a])) (map Versioned.c_reason cs).
Proof.
  induction cs as [|c cs IH]; intros i atts tr atts' tr' Hne H; [discriminate H|].
  cbn [Versioned.update_loop] in H. rewrite (Hne c (or_introl eq_refl)) in H. cbn [negb] in H.
  cbv zeta in H.
  destruct (match mcp_call (210 + Z.of_nat i) _ with
            | Versioned.McpThrows msg => Err msg
            | Versioned.McpReturns resp => Versioned.parseDocUpdateCall js_String stringify resp
            end) as [r|msg].
  - rewrite update_loop_done in H. injection H as <- <-.
    exists [], (Versioned.mkAttempt true (Versioned.c_reason c) None), [EMcpCall (210 + Z.of_nat i) "doc_update"
      (Versioned.buildDocUpdateArgs inputSchema boardId docId (Versioned.c_find c) (Versioned.c_replace c) true version)].
    repeat split; try reflexivity.
    + intros x [].
    + exists (map Versioned.c_reason cs). reflexivity.
  - apply IH in H as (pre & a & trn & -> & Ha & Hpre & -> & Hl & [rest Hr]).
    2: { intros c' Hc'. apply Hne. right. exact Hc'. }
    exists (Versioned.mkAttempt false (Versioned.c_reason c) (Some msg) :: pre), a,
           (EMcpCall (210 + Z.of_nat i) "doc_update"
              (Versioned.buildDocUpdateArgs inputSchema boardId docId (Versioned.c_find c) (Versioned.c_replace c) true version) :: trn).
    rewrite <- !app_assoc. repeat split; try reflexivity; try assumption.
    + intros x [<-|Hx]; [reflexivity|auto].
    + cbn [length]. rewrite Hl. reflexivity.
    + exists rest. cbn [map app]. rewrite <- Hr. reflexivity.
Qed.

(** X19: when the versioned write-back reports success, all attempts but the
    last failed, the last one succeeded, one doc_update call was made per
    attempt, and the attempts follow the candidates in order. *)
Theorem versioned_update_success_shape js_String stringify mcp_call inputSchema boardId docId
    currentMarkdown currentVersion docMarkdown atts tr :
  Versioned.versioned_update js_String stringify mcp_call inputSchema boardId docId
    currentMarkdown currentVersion docMarkdown = (Versioned.UpdatedOk atts, tr) ->
  exists pre a, atts = pre ++ [a] /\ Versioned.a_ok a = true /\
    (forall x, In x pre -> Versioned.a_ok x = false) /\
    length tr = length atts /\
    (forall e, In e tr -> exists rid args, e = EMcpCall rid "doc_update" args) /\
    is_prefix (map Versioned.a_reason atts)
              (map Versioned.c_reason (Versioned.candidates currentMarkdown docMarkdown)).
Proof.
  unfold Versioned.versioned_update. intros H.
  pose proof (candidates_find_nonempty currentMarkdown docMarkdown) as Hne.
  destruct (Versioned.candidates currentMarkdown docMarkdown) as [|c cs] eqn:Hcs; [discriminate H|].
  destruct (Versioned.update_loop js_String stringify mcp_call inputSchema boardId docId currentVersion 0
              (c :: cs) false [] []) as [[updated atts0] tr0] eqn:El.
  destruct updated; [|discriminate H]. injection H as <- <-.
  destruct (update_loop_success _ _ _ _ _ _ _ _ 0 [] [] atts0 tr0 Hne El)
    as (pre & a & trn & -> & Ha & Hpre & -> & Hl & Hp).
  exists pre, a. cbn [app]. repeat split; auto.
  - rewrite length_app. cbn [length]. rewrite Hl. lia.
  - clear -El.
    assert (Gen : forall cs0 i atts trx atts' tr',
      Versioned.update_loop js_String stringify mcp_call inputSchema boardId docId currentVersion i cs0 false atts trx
        = (true, atts', tr') ->
      (forall e, In e trx -> exists rid args, e = EMcpCall rid "doc_update" args) ->
      forall e, In e tr' -> exists rid args, e = EMcpCall rid "doc_update" args).
    { induction cs0 as [|c0 cs0 IH]; intros i atts trx atts' tr' H Htr; [discriminate H|].
      cbn [Versioned.update_loop] in H.
      destruct (negb (nonempty (Versioned.c_find c0))); [eapply IH; eassumption|].
      cbv zeta in H.
      assert (Htr' : forall e, In e (trx ++ [EMcpCall (210 + Z.of_nat i) "doc_update"
                 (Versioned.buildDocUpdateArgs inputSchema boardId docId (Versioned.c_find c0)
                    (Versioned.c_replace c0) true currentVersion)]) ->
                 exists rid args, e = EMcpCall rid "doc_update" args).
      { intros e He. apply in_app_or in He as [He|[<-|[]]]; [auto|]. eexists _, _; reflexivity. }
      destruct (match mcp_call _ _ with
                | Versioned.McpThrows msg => Err msg
                | Versioned.McpReturns resp => Versioned.parseDocUpdateCall js_String stringify resp
                end).
      - rewrite update_loop_done in H. injection H as _ <-. exact Htr'.
      - eapply IH; eassumption. }
    exact (Gen _ _ _ _ _ _ El (fun e (H : In e []) => match H with end)).
Qed.

(** X20: when a creation variant succeeded, the handler replaces the target:
    it reports the target id as replaced, posts no fallback text, and its
    last effect is the single delete of that id. *)
Theorem recreate_and_replace_success_deletes
    js_String toSimpleHtml post_doc patch_item delete_doc post_text
    targetDoc outX outY docMarkdown answer board out tr board' :
  Recreate.recreate_and_replace js_String toSimpleHtml post_doc patch_item delete_doc post_text
    targetDoc outX outY docMarkdown answer board = (out, tr, board') ->
  str_truthy (Recreate.o_createdDocId out) = true ->
  let rid := Recreate.js_String_opt js_String (get "id" (Some targetDoc)) in
  Recreate.o_replacedDocId out = Some rid /\ Recreate.o_createdTextId out = None /\
  board' = match delete_doc rid with None => remove string_dec rid board | Some _ => board end /\
  exists pre, tr = pre ++ [EDelete rid] /\
    forall x, In x pre -> (exists j p o, x = EPostDoc j p o) \/ (exists c p, x = EPatchParent c p).
Proof.
  intros H Hc rid. unfold Recreate.recreate_and_replace in H.
  set (cp := Recreate.createPos (Recreate.targetPos targetDoc outX outY)) in *.
  set (tg := Recreate.targetGeom targetDoc) in *.
  destruct (Recreate.create_loop js_String post_doc 0 (Recreate.createVariants toSimpleHtml docMarkdown)
              cp tg None [] []) as [[cid errs1] tr1] eqn:Ec.
  destruct (create_loop_spec _ _ _ _ _ _ _ _ _ _ _ _ Ec) as (t' & Ht' & Hall & _).
  cbn [app] in Ht'. subst tr1.
  cbv beta iota in H.
  match type of H with
  | context [match ?m with (errs2, tr2) => _ end] =>
      match m with (_, _) => fail 1 | _ => destruct m as [errs2 tr2] eqn:Ep end
  end.
  assert (Htr2 : forall x, In x tr2 ->
            (exists j p o, x = EPostDoc j p o) \/ (exists c p, x = EPatchParent c p)).
  { destruct cid as [c|];
      [destruct (Recreate.targetParentId js_String targetDoc) as [pid|];
       [destruct (nonempty c && nonempty pid)%bool;
        [destruct (patch_item c (JObj [("parent", JObj [("id", JStr pid)])]))|]|]|];
      injection Ep as <- <-; intros x Hx;
      try (apply in_app_or in Hx as [Hx|[<-|[]]]; [|right; eexists _, _; reflexivity]);
      left; auto. }
  destruct (str_truthy cid) eqn:Ht.
  - fold rid in H. cbn [negb] in H.
    destruct (delete_doc rid) as [msg|]; injection H as <- <- <-; cbn.
    + repeat split. exists tr2. auto.
    + repeat split. exists tr2. auto.
  - exfalso. destruct (post_text _); injection H as <- _ _; cbn in Hc; congruence.
Qed.

Lemma strip_tags_some buf s :
  strip_tags_aux (Some buf) s =
  match after_gt s with Some r => strip_tags_aux None r | None => append buf s end.
Proof.
  revert buf. induction s as [|c r IH]; intros buf; cbn [strip_tags_aux after_gt].
  - rewrite str_app_nil_r. reflexivity.
  - destruct (Ascii.eqb c ">") eqn:E; [reflexivity|]. rewrite IH.
    destruct (after_gt r); [reflexivity|]. rewrite str_app_assoc. reflexivity.
Qed.

Lemma after_gt_none s : after_gt s = None -> has_char ">"%char s = false.
Proof.
  induction s as [|c r IH]; cbn [after_gt]; intros H; [reflexivity|].
  rewrite has_char_cons. destruct (Ascii.eqb c ">"); [discriminate|]. auto.
Qed.

Lemma after_gt_length s r : after_gt s = Some r -> (String.length r < String.length s)%nat.
Proof.
  revert r. induction s as [|c s IH]; cbn [after_gt]; intros r H; [discriminate|].
  destruct (Ascii.eqb c ">"); [injection H as <-; cbn; lia|]. apply IH in H. cbn. lia.
Qed.

Lemma has_tag_no_gt s : has_char ">"%char s = false -> has_tag s = false.
Proof.
  induction s as [|c r IH]; intros H; [reflexivity|].
  rewrite has_char_cons in H. apply Bool.orb_false_iff in H as [_ H].
  cbn [has_tag]. rewrite H, IH by exact H. destruct (Ascii.eqb c "<"); reflexivity.
Qed.

Lemma has_tag_cons_other c r : Ascii.eqb c "<"%char = false -> has_tag (String c r) = has_tag r.
Proof. intros E. cbn [has_tag]. rewrite E. reflexivity. Qed.

Lemma strip_tags_no_tag s : has_tag (stripHtmlTags s) = false.
Proof.
  unfold stripHtmlTags. remember (String.length s) as n eqn:Hn.
  assert (Hle : (String.length s <= n)%nat) by lia. clear Hn. revert s Hle.
  induction n as [|n IH]; intros s Hle.
  - destruct s; [reflexivity|cbn in Hle; lia].
  - destruct s as [|c r]; [reflexivity|]. cbn in Hle. cbn [strip_tags_aux].
    destruct (Ascii.eqb c "<") eqn:E.
    + rewrite strip_tags_some. destruct (after_gt r) as [r'|] eqn:Ea.
      * apply IH. apply after_gt_length in Ea. lia.
      * apply after_gt_none in Ea. apply Ascii.eqb_eq in E. subst c.
        cbn [append has_tag]. rewrite Ea, has_tag_no_gt by exact Ea. reflexivity.
    + rewrite has_tag_cons_other by exact E. apply IH. lia.
Qed.

Lemma strip_tags_id s : has_tag s = false -> stripHtmlTags s = s.
Proof.
  unfold stripHtmlTags. induction s as [|c r IH]; intros H; [reflexivity|].
  cbn [strip_tags_aux]. destruct (Ascii.eqb c "<") eqn:E.
  - cbn [has_tag] in H. rewrite E in H. apply Bool.orb_false_iff in H as [H1 _].
    rewrite strip_tags_some.
    destruct (after_gt r) as [r'|] eqn:Ea.
    + exfalso. clear -Ea H1. induction r as [|x r IH]; [discriminate|].
      cbn [after_gt] in Ea. rewrite has_char_cons in H1. apply Bool.orb_false_iff in H1 as [H1 H2].
      rewrite H1 in Ea. auto.
    + apply Ascii.eqb_eq in E. subst c. reflexivity.
  - rewrite has_tag_cons_other in H by exact E. rewrite IH by exact H. reflexivity.
Qed.

(** X21: stripHtmlTags leaves no tag behind, so stripping twice is stripping
    once. *)
Theorem stripHtmlTags_removes_all_tags s :
  has_tag (stripHtmlTags s) = false /\ stripHtmlTags (stripHtmlTags s) = stripHtmlTags s.
Proof.
  split; [apply strip_tags_no_tag|]. apply strip_tags_id, strip_tags_no_tag.
Qed.

Lemma str_drop_length n s : String.length (str_drop n s) = (String.length s - n)%nat.
Proof. revert s; induction n; intros [|c r]; cbn; auto; lia. Qed.

Lemma prefix_length p s : String.prefix p s = true -> (String.length p <= String.length s)%nat.
Proof.
  revert s; induction p as [|a p IH]; intros [|b s] H; cbn in *; try lia; try discriminate.
  destruct (ascii_dec a b); [apply IH in H; lia|discriminate].
Qed.

Lemma replace_all_aux_length f pat rep s :
  (String.length rep <= String.length pat)%nat ->
  (String.length (Prompt.replace_all_aux f pat rep s) <= String.length s)%nat.
Proof.
  intros Hr. revert s; induction f as [|f IH]; intros s; [cbn; lia|].
  destruct s as [|c r]; [cbn; lia|]. cbn [Prompt.replace_all_aux].
  destruct (String.prefix pat (String c r)) eqn:E.
  - apply prefix_length in E. rewrite str_length_app.
    specialize (IH (str_drop (String.length pat) (String c r))).
    rewrite str_drop_length in IH. lia.
  - cbn [String.length]. specialize (IH r). lia.
Qed.

Lemma replace_all_length pat rep s :
  (String.length rep <= String.length pat)%nat ->
  (String.length (Prompt.replace_all pat rep s) <= String.length s)%nat.
Proof. apply replace_all_aux_length. Qed.

Lemma replace_all_aux_no_head f c p rep s :
  has_char c s = false -> Prompt.replace_all_aux f (String c p) rep s = s.
Proof.
  revert s; induction f as [|f IH]; intros s H; [reflexivity|].
  destruct s as [|d r]; [reflexivity|]. rewrite has_char_cons in H.
  apply Bool.orb_false_iff in H as [H1 H2]. cbn [Prompt.replace_all_aux].
  replace (String.prefix (String c p) (String d r)) with false.
  - rewrite IH by exact H2. reflexivity.
  - cbn. destruct (ascii_dec c d); [subst; rewrite Ascii.eqb_refl in H1; discriminate|reflexivity].
Qed.

Lemma replace_all_no_head c p rep s :
  has_char c s = false -> Prompt.replace_all (String c p) rep s = s.
Proof. apply replace_all_aux_no_head. Qed.

(** X22: decodeHtmlEntities returns a string with no ampersand unchanged and
    never makes a string longer. *)
Theorem decodeHtmlEntities_shape s :
  (has_char "&"%char s = false -> Prompt.decodeHtmlEntities s = s) /\
  (String.length (Prompt.decodeHtmlEntities s) <= String.length s)%nat.
Proof.
  split.
  - intros H. unfold Prompt.decodeHtmlEntities. rewrite !(replace_all_no_head _ _ _ s H). reflexivity.
  - unfold Prompt.decodeHtmlEntities.
    repeat (eapply Nat.le_trans; [apply replace_all_length; cbn; lia|]). lia.
Qed.

(** Witness: a [js] fence around [ x = 1;] normalises to [x = 1;]. *)
Lemma normalizeMarkdown_fence_roundtrip_witness :
  (all_word "js" = true) /\
  (is_ws ";"%char = false) /\
  (";"%char <> BT) /\
  (normalizeMarkdown
    (JStr (append FENCE (append "js" (String LF
       (append (append (" x = 1") (String ";"%char EmptyString)) (String LF FENCE)))))) =
  trim (append (" x = 1") (String ";"%char EmptyString))).
Proof.
  assert (H0 : all_word "js" = true) by (reflexivity).
  assert (H1 : is_ws ";"%char = false) by (reflexivity).
  assert (H2 : ";"%char <> BT) by (intros Hc; vm_compute in Hc; discriminate Hc).
  split; [assumption|]. split; [assumption|]. split; [assumption|]. exact (normalizeMarkdown_fence_roundtrip "js" (" x = 1") ";"%char H0 H1 H2).
Defined.

(** Witness: the heading [# Plan] is dropped from a text titled [Plan]. *)
Lemma removeLeadingTitleIfPresent_heading_witness :
  (trim "Plan" = "Plan") /\
  (nonempty "Plan" = true) /\
  (has_line_term "Plan" = false) /\
  (has_char CR "Notes" = false) /\
  (Prompt.removeLeadingTitleIfPresent (append (append "# " "Plan") (String LF "Notes")) "Plan" =
  trim "Notes").
Proof.
  assert (H0 : trim "Plan" = "Plan") by (reflexivity).
  assert (H1 : nonempty "Plan" = true) by (reflexivity).
  assert (H2 : has_line_term "Plan" = false) by (reflexivity).
  assert (H3 : has_char CR "Notes" = false) by (reflexivity).
  split; [assumption|]. split; [assumption|]. split; [assumption|]. split; [assumption|]. exact (removeLeadingTitleIfPresent_heading "Plan" "Notes" H0 H1 H2 H3).
Defined.

(** Witness: a schema with [boardId], [id] and [limit]. *)
Lemma mcp_get_args_follow_schema_witness :
  (Versioned.schema_props (Some (JObj [("properties", JObj [("boardId", JNull); ("id", JNull); ("limit", JNull)])])) <> []) /\
  (let props := Versioned.schema_props (Some (JObj [("properties", JObj [("boardId", JNull); ("id", JNull); ("limit", JNull)])])) in
  (match McpArgs.buildDocGetArgs (Some (JObj [("properties", JObj [("boardId", JNull); ("id", JNull); ("limit", JNull)])])) "b1" "d1" with
   | JObj fs =>
       (forall k v, In (k, v) fs -> In k props) /\
       (forall k, Versioned.first_key props ["board_id"; "boardId"; "board"] = Some k ->
                  assoc k fs = Some (JStr "b1")) /\
       (forall k, Versioned.first_key props ["doc_id"; "docId"; "document_id"; "documentId"; "id"] = Some k ->
                  assoc k fs = Some (JStr "d1"))
   | _ => False
   end) /\
  (match McpArgs.buildTableListArgs (Some (JObj [("properties", JObj [("boardId", JNull); ("id", JNull); ("limit", JNull)])])) "b1" "t1" with
   | JObj fs =>
       (forall k v, In (k, v) fs -> In k props) /\
       (forall k, Versioned.first_key props ["board_id"; "boardId"; "board"] = Some k ->
                  assoc k fs = Some (JStr "b1")) /\
       (forall k, Versioned.first_key props ["table_id"; "tableId"; "table"; "id"] = Some k ->
                  assoc k fs = Some (JStr "t1")) /\
       (forall k, Versioned.first_key props ["limit"; "pageSize"; "page_size"] = Some k ->
                  assoc k fs = Some (JNum 100))
   | _ => False
   end)).
Proof.
  assert (H0 : Versioned.schema_props (Some (JObj [("properties", JObj [("boardId", JNull); ("id", JNull); ("limit", JNull)])])) <> []) by (intros Hc; vm_compute in Hc; discriminate Hc).
  split; [assumption|]. exact (mcp_get_args_follow_schema (Some (JObj [("properties", JObj [("boardId", JNull); ("id", JNull); ("limit", JNull)])])) "b1" "d1" "t1" H0).
Defined.

(** Witness: a schema with [board_id], [doc_id], [find] and [replace]. *)
Lemma buildDocUpdateArgs_follow_schema_witness :
  (Versioned.schema_props (Some (JObj [("properties", JObj [("board_id", JNull); ("doc_id", JNull); ("find", JNull); ("replace", JNull)])])) <> []) /\
  (let props := Versioned.schema_props (Some (JObj [("properties", JObj [("board_id", JNull); ("doc_id", JNull); ("find", JNull); ("replace", JNull)])])) in
  match Versioned.buildDocUpdateArgs (Some (JObj [("properties", JObj [("board_id", JNull); ("doc_id", JNull); ("find", JNull); ("replace", JNull)])])) "b1" "d1" "old" "new" true (Some (JNum 3)) with
  | JObj fs =>
      (forall k v, In (k, v) fs -> In k props) /\
      (forall k, Versioned.first_key props ["board_id"; "boardId"; "board"] = Some k ->
                 assoc k fs = Some (JStr "b1")) /\
      (forall k, Versioned.first_key props ["doc_id"; "docId"; "document_id"; "documentId"; "id"] = Some k ->
                 assoc k fs = Some (JStr "d1")) /\
      (forall k, Versioned.first_key props ["find"; "search"; "find_text"; "findText"; "search_text"; "from"; "match"] = Some k ->
                 assoc k fs = Some (JStr "old")) /\
      (forall k, Versioned.first_key props ["replace"; "replacement"; "replace_text"; "replaceText"; "to"] = Some k ->
                 assoc k fs = Some (JStr "new"))
  | _ => False
  end).
Proof.
  assert (H0 : Versioned.schema_props (Some (JObj [("properties", JObj [("board_id", JNull); ("doc_id", JNull); ("find", JNull); ("replace", JNull)])])) <> []) by (intros Hc; vm_compute in Hc; discriminate Hc).
  split; [assumption|]. exact (buildDocUpdateArgs_follow_schema (Some (JObj [("properties", JObj [("board_id", JNull); ("doc_id", JNull); ("find", JNull); ("replace", JNull)])])) "b1" "d1" "old" "new" true (Some (JNum 3)) H0).
Defined.

(** Witness: a [null] version without a schema. *)
Lemma buildDocUpdateArgs_no_null_version_witness :
  ((Some JNull) = None \/ (Some JNull) = Some JNull) /\
  (match Versioned.buildDocUpdateArgs None "b1" "d1" "old" "new" false (Some JNull) with
  | JObj fs => forall k v, In (k, v) fs -> ~ In k ["version"; "doc_version"; "docVersion"; "revision"]
  | _ => False
  end).
Proof.
  assert (H0 : (Some JNull) = None \/ (Some JNull) = Some JNull) by (right; reflexivity).
  split; [assumption|]. exact (buildDocUpdateArgs_no_null_version None "b1" "d1" "old" "new" false (Some JNull) H0).
Defined.

(** Witness: an item and its details, both with [id] and [data]. *)
Lemma mergeListItemAndDetails_lookup_witness :
  (NoDup (map fst ([("id", JStr "1"); ("data", JObj [("title", JStr "A")])]))) /\
  (NoDup (map fst ([("id", JStr "2"); ("data", JObj [("content", JStr "C")])]))) /\
  ((forall k, k <> "data" ->
     get k (Some (mergeListItemAndDetails (JObj ([("id", JStr "1"); ("data", JObj [("title", JStr "A")])])) (JObj ([("id", JStr "2"); ("data", JObj [("content", JStr "C")])])))) =
     match assoc k ([("id", JStr "1"); ("data", JObj [("title", JStr "A")])]) with Some v => Some v | None => assoc k ([("id", JStr "2"); ("data", JObj [("content", JStr "C")])]) end) /\
  (forall ld dd, assoc "data" ([("id", JStr "1"); ("data", JObj [("title", JStr "A")])]) = Some (JObj ld) -> assoc "data" ([("id", JStr "2"); ("data", JObj [("content", JStr "C")])]) = Some (JObj dd) ->
     NoDup (map fst ld) -> NoDup (map fst dd) -> ld ++ dd <> [] ->
     exists data, get "data" (Some (mergeListItemAndDetails (JObj ([("id", JStr "1"); ("data", JObj [("title", JStr "A")])])) (JObj ([("id", JStr "2"); ("data", JObj [("content", JStr "C")])])))) = Some (JObj data) /\
       forall j, assoc j data = match assoc j dd with Some v => Some v | None => assoc j ld end)).
Proof.
  assert (H0 : NoDup (map fst ([("id", JStr "1"); ("data", JObj [("title", JStr "A")])]))) by (repeat constructor; simpl; intuition congruence).
  assert (H1 : NoDup (map fst ([("id", JStr "2"); ("data", JObj [("content", JStr "C")])]))) by (repeat constructor; simpl; intuition congruence).
  split; [assumption|]. split; [assumption|]. exact (mergeListItemAndDetails_lookup ([("id", JStr "1"); ("data", JObj [("title", JStr "A")])]) ([("id", JStr "2"); ("data", JObj [("content", JStr "C")])]) H0 H1).
Defined.

(** Witness: an MCP server rejecting the first two [doc_update] calls on
    a placeholder doc and accepting the third; two failed attempts precede
    the successful one, with one call per attempt. *)
Lemma versioned_update_success_shape_witness :
  exists atts tr,
    Versioned.versioned_update WriteFixtures.js_String WriteFixtures.stringify
      WriteFixtures.mcp_title_only None "b1" "d1"
      Versioned.titleLine (Some (JNum 3)) "Body" = (Versioned.UpdatedOk atts, tr) /\
    exists pre a, atts = pre ++ [a] /\ Versioned.a_ok a = true /\
      (forall x, In x pre -> Versioned.a_ok x = false) /\
      length tr = length atts /\ length pre = 2%nat.
Proof.
  set (res := Versioned.versioned_update WriteFixtures.js_String WriteFixtures.stringify
      WriteFixtures.mcp_title_only None "b1" "d1"
      Versioned.titleLine (Some (JNum 3)) "Body").
  exists (match fst res with Versioned.UpdatedOk a => a | _ => [] end), (snd res).
  assert (H : res = (Versioned.UpdatedOk (match fst res with Versioned.UpdatedOk a => a | _ => [] end), snd res))
    by (vm_compute; reflexivity).
  split; [exact H|].
  destruct (versioned_update_success_shape WriteFixtures.js_String WriteFixtures.stringify
      WriteFixtures.mcp_title_only None "b1" "d1"
      Versioned.titleLine (Some (JNum 3)) "Body" _ _ H) as (pre & a & Ha & Hok & Hpre & Hlen & _).
  exists pre, a. split; [exact Ha|]. split; [exact Hok|]. split; [exact Hpre|].
  split; [exact Hlen|].
  pose proof (f_equal (@length _) Ha) as HL.
  match type of HL with ?x = _ => assert (Hx : x = 3%nat) by (vm_compute; reflexivity) end.
  rewrite Hx, length_app in HL. cbn [length] in HL. lia.
Defined.

(** Witness: the first creation variant succeeds with id [d9]; the
    placeholder [p1] is reported replaced, deleted last, and leaves the
    board. *)
Lemma recreate_and_replace_success_deletes_witness :
  exists out tr board',
    Recreate.recreate_and_replace WriteFixtures.js_String (fun s => s)
      (fun _ _ => Recreate.PostReturns (JObj [("id", JStr "d9")])) WriteFixtures.patch_ok
      WriteFixtures.delete_ok WriteFixtures.post_text_ok WriteFixtures.targetDoc (JNum 0) (JNum 0)
      "Body" "Answer" ["p1"; "other"] = (out, tr, board') /\
    str_truthy (Recreate.o_createdDocId out) = true /\
    Recreate.o_replacedDocId out = Some "p1" /\ board' = ["other"] /\
    last tr (EDelete EmptyString) = EDelete "p1".
Proof.
  set (res := Recreate.recreate_and_replace WriteFixtures.js_String (fun s => s)
      (fun _ _ => Recreate.PostReturns (JObj [("id", JStr "d9")])) WriteFixtures.patch_ok
      WriteFixtures.delete_ok WriteFixtures.post_text_ok WriteFixtures.targetDoc (JNum 0) (JNum 0)
      "Body" "Answer" ["p1"; "other"]).
  exists (fst (fst res)), (snd (fst res)), (snd res).
  assert (H : res = (fst (fst res), snd (fst res), snd res))
    by (destruct res as [[o t] b]; reflexivity).
  assert (Hc : str_truthy (Recreate.o_createdDocId (fst (fst res))) = true)
    by (vm_compute; reflexivity).
  destruct (recreate_and_replace_success_deletes WriteFixtures.js_String (fun s => s)
      (fun _ _ => Recreate.PostReturns (JObj [("id", JStr "d9")])) WriteFixtures.patch_ok
      WriteFixtures.delete_ok WriteFixtures.post_text_ok WriteFixtures.targetDoc (JNum 0) (JNum 0)
      "Body" "Answer" ["p1"; "other"] _ _ _ H Hc) as (Hr & _ & Hb & pre & Htr & _).
  split; [exact H|]. split; [exact Hc|].
  split; [rewrite Hr; vm_compute; reflexivity|].
  split; [rewrite Hb; vm_compute; reflexivity|].
  rewrite Htr, last_last. vm_compute. reflexivity.
Defined.
